(** * lcbex view options: a shallow embedding of [src/viewopts.c]

    The development follows the C file function by function.

    Conventions of the embedding.
    - [size_t] is a 64-bit unsigned integer: a [Z] whose additions are
      reduced modulo [2^64] where the code adds ([size_add]).
    - A [char] is an [ascii]; a character array is a [string] and is always
      followed in memory by one terminating NUL byte that is not part of the
      [string].  A [string] may itself contain NUL bytes.
    - A computation that dereferences a null pointer, reads an argument at
      the wrong type, reads or writes outside an object, or releases a block
      that is not live has no defined result: the model returns [None].
    - The allocator never fails.  The heap is the set of live blocks; a
      pointer into the heap carries the identifier of its block together
      with the bytes stored there (blocks are written once, when they are
      created). *)

From Stdlib Require Import ZArith String Ascii List Lia Bool.
From Stdlib Require Import DecimalString DecimalPos DecimalZ.
From stdpp Require Import base option gmap.
Import ListNotations.

Local Open Scope string_scope.
Local Open Scope Z_scope.

#[local] Arguments String.append : simpl nomatch.

(** ** Machine integers *)

Definition SIZE_MAX : Z := 2 ^ 64 - 1.

(** [size_t] arithmetic wraps around. *)
Definition size_wrap (z : Z) : Z := z mod 2 ^ 64.
Definition size_add (a b : Z) : Z := size_wrap (a + b).

(** The value of an [int] object: 32 bits, two's complement. *)
Definition int_wrap (z : Z) : Z := (z + 2 ^ 31) mod 2 ^ 32 - 2 ^ 31.

(** ** Characters and the C library *)

Definition NUL : ascii := Ascii.zero.

Definition code (c : ascii) : Z := Z.of_N (N_of_ascii c).

Definition is_nul (c : ascii) : bool := code c =? 0.

(** First byte of the array: the terminator when the string is empty. *)
Definition first_byte (s : string) : ascii :=
  match s with
  | EmptyString => NUL
  | String c _ => c
  end.

(** The array after its first byte; nothing is read past the terminator. *)
Definition rest_bytes (s : string) : string :=
  match s with
  | EmptyString => EmptyString
  | String _ r => r
  end.

Definition isdigit (c : ascii) : bool := (48 <=? code c) && (code c <=? 57).

(** [tolower] in the C locale. *)
Definition tolower (c : ascii) : ascii :=
  if (65 <=? code c) && (code c <=? 90)
  then ascii_of_N (Z.to_N (code c + 32))
  else c.

Fixpoint strlen (s : string) : Z :=
  match s with
  | EmptyString => 0
  | String c r => if is_nul c then 0 else 1 + strlen r
  end.

(** [strncmp s1 s2 n]: compares at most [n] bytes and stops at a NUL. *)
Fixpoint strncmp (s1 s2 : string) (n : Z) : Z :=
  if n <=? 0 then 0
  else
    let c2 := first_byte s2 in
    match s1 with
    | EmptyString => 0 - code c2
    | String c1 r1 =>
        if code c1 =? code c2
        then if is_nul c1 then 0 else strncmp r1 (rest_bytes s2) (n - 1)
        else code c1 - code c2
    end.

Fixpoint strncasecmp (s1 s2 : string) (n : Z) : Z :=
  if n <=? 0 then 0
  else
    let c2 := tolower (first_byte s2) in
    match s1 with
    | EmptyString => 0 - code c2
    | String c1 r1 =>
        let c1 := tolower c1 in
        if code c1 =? code c2
        then if is_nul c1 then 0 else strncasecmp r1 (rest_bytes s2) (n - 1)
        else code c1 - code c2
    end.

(** [strncpy] into a zeroed buffer of [n] bytes: the bytes of [s] up to its
    first NUL, at most [n] of them, then NUL bytes. *)
Fixpoint strncpy (s : string) (n : nat) : string :=
  match n with
  | O => EmptyString
  | S n' =>
      match s with
      | EmptyString => String NUL (strncpy EmptyString n')
      | String c r =>
          if is_nul c then String NUL (strncpy EmptyString n')
          else String c (strncpy r n')
      end
  end.

(** The [n] bytes at the start of the array [s], terminator included when
    [n] reaches it; undefined when [n] runs past the terminator. *)
Fixpoint read_bytes (s : string) (n : nat) {struct n} : option string :=
  match n with
  | O => Some EmptyString
  | S n' =>
      match s with
      | EmptyString =>
          match n' with
          | O => Some (String NUL EmptyString)
          | S _ => None
          end
      | String c r =>
          match read_bytes r n' with
          | Some t => Some (String c t)
          | None => None
          end
      end
  end.

(** [printf("%d", i)]. *)
Definition fmt_d (i : Z) : string := NilZero.string_of_int (Z.to_int i).

(** One hexadecimal digit, upper case, as [%X] prints it. *)
Definition hex_digit (d : Z) : ascii :=
  if d <? 10 then ascii_of_N (Z.to_N (48 + d))
  else ascii_of_N (Z.to_N (55 + d)).

(** [sprintf(dest, "%%%02X", (unsigned char)c)] without its terminator. *)
Definition fmt_pct_02X (c : ascii) : string :=
  String "%" (String (hex_digit (code c / 16))
                (String (hex_digit (code c mod 16)) EmptyString)).

(** ** Pointers and the heap *)

(** The arguments typed [const void *]. *)
Inductive cptr : Type :=
| PNull
| PStr (s : string)
| PInt (i : Z).

Definition as_chars (p : cptr) : option string :=
  match p with
  | PStr s => Some s
  | _ => None
  end.

Definition as_int (p : cptr) : option Z :=
  match p with
  | PInt i => Some (int_wrap i)
  | _ => None
  end.

(** The [const char *] fields of an option record, by the object they point
    to: memory of the caller, a string literal of the library, or a block of
    the heap. *)
Inductive charp : Type :=
| NullP
| Caller (s : string)
| Static (s : string)
| Block (b : nat) (s : string).

Definition is_null (p : charp) : bool :=
  match p with
  | NullP => true
  | _ => false
  end.

Definition chars_at (p : charp) : option string :=
  match p with
  | NullP => None
  | Caller s | Static s | Block _ s => Some s
  end.

(** [(const char * )value] *)
Definition cast_charp (p : cptr) : option charp :=
  match p with
  | PNull => Some NullP
  | PStr s => Some (Caller s)
  | PInt _ => None
  end.

(** The heap: the set of live blocks. *)
Abbreviation heap := (gset nat).

Definition malloc (h : heap) : nat * heap :=
  let b := fresh h in (b, {[b]} ∪ h).

Definition free_block (b : nat) (h : heap) : option heap :=
  if decide (b ∈ h) then Some (h ∖ {[b]}) else None.

Definition free (p : charp) (h : heap) : option heap :=
  match p with
  | NullP => Some h
  | Block b _ => free_block b h
  | Caller _ | Static _ => None
  end.

(** [realloc]: the old block is released and a block is returned that
    holds the old contents. *)
Definition realloc (b : nat) (h : heap) : option (nat * heap) :=
  h ← free_block b h; Some (malloc h).

(** ** The option record and its flags ([include/lcbex/viewopts.h]) *)

Definition LCBEX_VOPT_F_PCTENCODE : Z := Z.shiftl 1 0.
Definition LCBEX_VOPT_F_OPTVAL_NUMERIC : Z := Z.shiftl 1 1.
Definition LCBEX_VOPT_F_PASSTHROUGH : Z := Z.shiftl 1 2.
Definition LCBEX_VOPT_F_OPTVAL_CONSTANT : Z := Z.shiftl 1 3.
Definition LCBEX_VOPT_F_OPTNAME_CONSTANT : Z := Z.shiftl 1 4.
Definition LCBEX_VOPT_F_OPTNAME_NUMERIC : Z := Z.shiftl 1 5.

(** [flags & F] is non-zero. *)
Definition has_flag (flags F : Z) : bool := negb (Z.land flags F =? 0).

Record lcbex_vopt_st : Type := mk_vopt {
  optname : charp;
  optval : charp;
  noptname : Z;
  noptval : Z;
  flags : Z
}.

(** [memset(optobj, 0, sizeof( *optobj))] *)
Definition vopt_zero : lcbex_vopt_st :=
  {| optname := NullP; optval := NullP; noptname := 0; noptval := 0;
     flags := 0 |}.

Definition set_optname (o : lcbex_vopt_st) (p : charp) : lcbex_vopt_st :=
  {| optname := p; optval := optval o; noptname := noptname o;
     noptval := noptval o; flags := flags o |}.

Definition set_optval (o : lcbex_vopt_st) (p : charp) : lcbex_vopt_st :=
  {| optname := optname o; optval := p; noptname := noptname o;
     noptval := noptval o; flags := flags o |}.

Definition set_noptname (o : lcbex_vopt_st) (n : Z) : lcbex_vopt_st :=
  {| optname := optname o; optval := optval o; noptname := n;
     noptval := noptval o; flags := flags o |}.

Definition set_noptval (o : lcbex_vopt_st) (n : Z) : lcbex_vopt_st :=
  {| optname := optname o; optval := optval o; noptname := noptname o;
     noptval := n; flags := flags o |}.

Definition set_flags (o : lcbex_vopt_st) (f : Z) : lcbex_vopt_st :=
  {| optname := optname o; optval := optval o; noptname := noptname o;
     noptval := noptval o; flags := f |}.

(** [optobj->flags |= F] and [optobj->flags &= (~F)] *)
Definition or_flags (o : lcbex_vopt_st) (F : Z) : lcbex_vopt_st :=
  set_flags o (Z.lor (flags o) F).

Definition clear_flags (o : lcbex_vopt_st) (F : Z) : lcbex_vopt_st :=
  set_flags o (Z.land (flags o) (Z.lnot F)).

(** Modelled from the spec: the status codes come from libcouchbase's
    [lcb_error_t], which is not part of this repository; the spec gives the
    closed set success, invalid-argument, out-of-memory. *)
Inductive lcb_error_t : Type :=
| LCB_SUCCESS
| LCB_EINVAL
| LCB_CLIENT_ENOMEM.

(** The cell behind [char **error]: [None] is the null pointer. *)
Abbreviation errcell := (option string).

(** What a call leaves behind: the status, the option record, the error
    cell and the heap. *)
Definition outcome : Type := lcb_error_t * lcbex_vopt_st * errcell * heap.

(** A call either has no defined behaviour or returns with an outcome. *)
Definition result : Type := option outcome.

(** ** The registry *)

Inductive view_param_handler : Type :=
| bool_param_handler_t
| num_param_handler_t
| string_param_handler_t
| stale_param_handler_t
| onerror_param_handler_t.

(** The third column of [LCBEX_XVOPT]. *)
Inductive vopt_type : Type :=
| t_bool | t_jval | t_string | t_num | t_jarry | t_onerror | t_stale.

(** [hbase##_param_handler], with [jval_param_handler] and
    [jarry_param_handler] defined as [string_param_handler]. *)
Definition handler_of (t : vopt_type) : view_param_handler :=
  match t with
  | t_bool => bool_param_handler_t
  | t_num => num_param_handler_t
  | t_string | t_jval | t_jarry => string_param_handler_t
  | t_stale => stale_param_handler_t
  | t_onerror => onerror_param_handler_t
  end.

Record view_param : Type := mk_param {
  itype : Z;
  param : string;
  ptype : vopt_type
}.

Definition LCBEX_VOPT_OPT_DESCENDING : Z := 1.
Definition LCBEX_VOPT_OPT_ENDKEY : Z := 2.
Definition LCBEX_VOPT_OPT_ENDKEY_DOCID : Z := 3.
Definition LCBEX_VOPT_OPT_FULLSET : Z := 4.
Definition LCBEX_VOPT_OPT_GROUP : Z := 5.
Definition LCBEX_VOPT_OPT_GROUP_LEVEL : Z := 6.
Definition LCBEX_VOPT_OPT_INCLUSIVE_END : Z := 7.
Definition LCBEX_VOPT_OPT_KEYS : Z := 8.
Definition LCBEX_VOPT_OPT_SINGLE_KEY : Z := 9.
Definition LCBEX_VOPT_OPT_ONERROR : Z := 10.
Definition LCBEX_VOPT_OPT_REDUCE : Z := 11.
Definition LCBEX_VOPT_OPT_STALE : Z := 12.
Definition LCBEX_VOPT_OPT_SKIP : Z := 13.
Definition LCBEX_VOPT_OPT_LIMIT : Z := 14.
Definition LCBEX_VOPT_OPT_STARTKEY : Z := 15.
Definition LCBEX_VOPT_OPT_STARTKEY_DOCID : Z := 16.
Definition LCBEX_VOPT_OPT_DEBUG : Z := 17.

(** [LCBEX_XVOPT], in the order of the header. *)
Definition recognized_view_params : list view_param :=
  [ mk_param LCBEX_VOPT_OPT_DESCENDING "descending" t_bool;
    mk_param LCBEX_VOPT_OPT_ENDKEY "endkey" t_jval;
    mk_param LCBEX_VOPT_OPT_ENDKEY_DOCID "endkey_docid" t_string;
    mk_param LCBEX_VOPT_OPT_FULLSET "full_set" t_bool;
    mk_param LCBEX_VOPT_OPT_GROUP "group" t_bool;
    mk_param LCBEX_VOPT_OPT_GROUP_LEVEL "group_level" t_num;
    mk_param LCBEX_VOPT_OPT_INCLUSIVE_END "inclusive_end" t_bool;
    mk_param LCBEX_VOPT_OPT_KEYS "keys" t_jarry;
    mk_param LCBEX_VOPT_OPT_SINGLE_KEY "key" t_jval;
    mk_param LCBEX_VOPT_OPT_ONERROR "on_error" t_onerror;
    mk_param LCBEX_VOPT_OPT_REDUCE "reduce" t_bool;
    mk_param LCBEX_VOPT_OPT_STALE "stale" t_stale;
    mk_param LCBEX_VOPT_OPT_SKIP "skip" t_num;
    mk_param LCBEX_VOPT_OPT_LIMIT "limit" t_num;
    mk_param LCBEX_VOPT_OPT_STARTKEY "startkey" t_jval;
    mk_param LCBEX_VOPT_OPT_STARTKEY_DOCID "startkey_docid" t_string;
    mk_param LCBEX_VOPT_OPT_DEBUG "debug" t_bool ].

(** ** Helpers of [viewopts.c] *)

(** The library calls on a [const void *] argument: no byte is read when
    the bound is zero. *)
Definition c_strncmp (p : cptr) (s2 : string) (n : Z) : option Z :=
  if n =? 0 then Some 0
  else s1 ← as_chars p; Some (strncmp s1 s2 n).

Definition c_strncasecmp (s1 : string) (p : cptr) (n : Z) : option Z :=
  if n =? 0 then Some 0
  else s2 ← as_chars p; Some (strncasecmp s1 s2 n).

Definition c_strlen (p : cptr) : option Z :=
  s ← as_chars p; Some (strlen s).

(** [calloc(n + 1, 1)] then [strncpy(buf, s, n)]. *)
Definition my_strndup (s : string) (n : Z) (h : heap) : charp * heap :=
  let '(b, h) := malloc h in
  (Block b (strncpy s (Z.to_nat n)), h).

Definition set_user_string (optobj : lcbex_vopt_st) (value : cptr)
    (nvalue : Z) (flags : Z) (h : heap) : option (lcbex_vopt_st * heap) :=
  let optobj := set_noptval optobj nvalue in
  if has_flag flags LCBEX_VOPT_F_OPTVAL_CONSTANT then
    p ← cast_charp value;
    Some (or_flags (set_optval optobj p) LCBEX_VOPT_F_OPTVAL_CONSTANT, h)
  else
    s ← as_chars value;
    let '(p, h) := my_strndup s nvalue h in
    Some (clear_flags (set_optval optobj p) LCBEX_VOPT_F_OPTVAL_CONSTANT, h).

(** ** Handlers *)

Definition bool_param_handler (optobj : lcbex_vopt_st) (value : cptr)
    (nvalue : Z) (flags : Z) (error : errcell) (h : heap) : result :=
  let error : errcell := None in
  let finish (bval : Z) : result :=
    let lit := if bval =? 0 then "false" else "true" in
    let optobj := set_optval optobj (Static lit) in
    let optobj := set_noptval optobj (strlen lit) in
    let optobj := or_flags optobj LCBEX_VOPT_F_OPTVAL_CONSTANT in
    Some (LCB_SUCCESS, optobj, error, h) in
  if has_flag flags LCBEX_VOPT_F_OPTVAL_NUMERIC then
    bval ← as_int value; finish bval
  else
    c ← c_strncasecmp "true" value nvalue;
    if c =? 0 then finish 1
    else
      c ← c_strncasecmp "false" value nvalue;
      if c =? 0 then finish 0
      else
        Some (LCB_EINVAL, optobj,
              Some "String must be either 'true' or 'false'", h).

(** [for (ii = 1; ii < nvalue; ii++) if (!isdigit(istr[ii])) ...], started
    at [&istr[ii]] with [left = nvalue - ii]: true when the loop runs to its
    end.  The terminator is not a digit, so the loop stops there at the
    latest. *)
Fixpoint all_digits (istr : string) (left : Z) : bool :=
  if left <=? 0 then true
  else
    match istr with
    | EmptyString => false
    | String c r => if isdigit c then all_digits r (left - 1) else false
    end.

Definition num_param_handler (optobj : lcbex_vopt_st) (value : cptr)
    (nvalue : Z) (flags : Z) (error : errcell) (h : heap) : result :=
  if has_flag flags LCBEX_VOPT_F_OPTVAL_NUMERIC then
    i ← as_int value;
    let '(b, h) := malloc h in
    let numbuf := fmt_d i in
    let optobj := set_noptval optobj (Z.of_nat (String.length numbuf)) in
    let optobj := set_optval optobj (Block b numbuf) in
    let optobj := clear_flags optobj LCBEX_VOPT_F_OPTVAL_CONSTANT in
    Some (LCB_SUCCESS, optobj, error, h)
  else
    nvalue ← (if nvalue =? SIZE_MAX then c_strlen value else Some nvalue);
    if nvalue =? 0 then
      Some (LCB_EINVAL, optobj, Some "Received an empty string", h)
    else
      istr ← as_chars value;
      if negb (isdigit (first_byte istr))
         && negb (Ascii.eqb (first_byte istr) "-"%char) then
        Some (LCB_EINVAL, optobj,
              Some "String must consist entirely of a signed number", h)
      else if negb (all_digits (rest_bytes istr) (nvalue - 1)) then
        Some (LCB_EINVAL, optobj,
              Some "String must consist entirely of digits", h)
      else
        '(optobj, h) ← set_user_string optobj value nvalue flags h;
        Some (LCB_SUCCESS, optobj, error, h).

(** This is the logic used in PHP's urlencode.  A [char] above 127 fails
    every range test whether [char] is signed or not. *)
Definition needs_pct_encoding (c : ascii) : bool :=
  if (code "a" <=? code c) && (code c <=? code "z") then false
  else if (code "A" <=? code c) && (code c <=? code "Z") then false
  else if (code "0" <=? code c) && (code c <=? code "9") then false
  else if Ascii.eqb c "-" || Ascii.eqb c "_" || Ascii.eqb c "." then false
  else true.

(** The loop of [do_pct_encode] over the bytes still to read: [dest_ok]
    tells whether [dest] is non-null, [out] is what has been written at
    [dest] so far. *)
Fixpoint do_pct_encode_loop (dest_ok : bool) (src : string) (out : string)
    (d_len : Z) : string * Z :=
  match src with
  | EmptyString => (out, d_len)
  | String c r =>
      if needs_pct_encoding c then
        do_pct_encode_loop dest_ok r
          (if dest_ok then out ++ fmt_pct_02X c else out)
          (size_add d_len 3)
      else
        do_pct_encode_loop dest_ok r
          (if dest_ok then out ++ String c EmptyString else out)
          (size_add d_len 1)
  end.

(** [do_pct_encode(dest, src, nsrc)]: the bytes written at [dest] and the
    returned length. *)
Definition do_pct_encode (dest_ok : bool) (src : string) (nsrc : Z)
  : option (string * Z) :=
  bytes ← read_bytes src (Z.to_nat nsrc);
  Some (do_pct_encode_loop dest_ok bytes EmptyString 0).

(** The sizing loop of [string_param_handler]. *)
Fixpoint needed_size_loop (str : string) (needed_size : Z) : Z :=
  match str with
  | EmptyString => needed_size
  | String c r =>
      needed_size_loop r
        (if needs_pct_encoding c then size_add needed_size 3
         else size_add needed_size 1)
  end.

Definition string_param_handler (optobj : lcbex_vopt_st) (value : cptr)
    (nvalue : Z) (flags : Z) (error : errcell) (h : heap) : result :=
  if has_flag flags LCBEX_VOPT_F_OPTVAL_NUMERIC then
    Some (LCB_EINVAL, optobj, Some "Option requires a string value", h)
  else if negb (has_flag flags LCBEX_VOPT_F_PCTENCODE) then
    '(optobj, h) ← set_user_string optobj value nvalue flags h;
    Some (LCB_SUCCESS, optobj, error, h)
  else
    str ← (if nvalue =? 0 then Some EmptyString else as_chars value);
    bytes ← read_bytes str (Z.to_nat nvalue);
    let needed_size := needed_size_loop bytes 0 in
    if needed_size =? nvalue then
      '(optobj, h) ← set_user_string optobj value nvalue flags h;
      Some (LCB_SUCCESS, optobj, error, h)
    else
      (* malloc(needed_size + 1) *)
      let '(b, h) := malloc h in
      '(out, d_len) ← do_pct_encode true str nvalue;
      (* every byte written, terminator included, must lie in the block *)
      if Z.of_nat (String.length out) + 1 <=? size_add needed_size 1 then
        let optobj := set_optval optobj (Block b out) in
        let optobj := set_noptval optobj d_len in
        Some (LCB_SUCCESS, optobj, error, h)
      else None.

Definition stale_param_handler (optobj : lcbex_vopt_st) (value : cptr)
    (nvalue : Z) (flags : Z) (error : errcell) (h : heap) : result :=
  let optobj := or_flags optobj LCBEX_VOPT_F_OPTVAL_CONSTANT in
  '(rc, optobj', error, h) ←
    bool_param_handler optobj value nvalue flags error h;
  match rc with
  | LCB_SUCCESS =>
      s ← chars_at (optval optobj');
      if Ascii.eqb (first_byte s) "t" then
        let optobj' := set_optval optobj' (Static "ok") in
        let optobj' := set_noptval optobj' 2 in
        Some (LCB_SUCCESS, optobj', error, h)
      else Some (LCB_SUCCESS, optobj', error, h)
  | _ =>
      c ← c_strncasecmp "update_after" value nvalue;
      if c =? 0 then
        let optobj' := set_optval optobj' (Static "update_after") in
        let optobj' := set_noptval optobj' 12 in
        Some (LCB_SUCCESS, optobj', error, h)
      else
        c ← c_strncasecmp "ok" value nvalue;
        if c =? 0 then
          let optobj' := set_optval optobj' (Static "ok") in
          let optobj' := set_noptval optobj' 2 in
          Some (LCB_SUCCESS, optobj', error, h)
        else
          Some (LCB_EINVAL, optobj',
                Some "stale must be a boolean or the string 'update_after'",
                h)
  end.

Definition onerror_param_handler (optobj : lcbex_vopt_st) (value : cptr)
    (nvalue : Z) (flags : Z) (error : errcell) (h : heap) : result :=
  let error : errcell :=
    Some "on_error must be one of 'continue' or 'stop'" in
  let optobj := or_flags optobj LCBEX_VOPT_F_OPTVAL_CONSTANT in
  c ← c_strncasecmp "stop" value nvalue;
  if c =? 0 then
    let optobj := set_optval optobj (Static "stop") in
    let optobj := set_noptval optobj 4 in
    Some (LCB_SUCCESS, optobj, error, h)
  else
    c ← c_strncasecmp "continue" value nvalue;
    if c =? 0 then
      let optobj := set_optval optobj (Static "continue") in
      let optobj := set_noptval optobj 8 in
      Some (LCB_SUCCESS, optobj, error, h)
    else Some (LCB_EINVAL, optobj, error, h).

(** [vparam->handler(vparam, optobj, value, nvalue, flags, error_string)] *)
Definition call_handler (hd : view_param_handler) (optobj : lcbex_vopt_st)
    (value : cptr) (nvalue : Z) (flags : Z) (error : errcell) (h : heap)
  : result :=
  match hd with
  | bool_param_handler_t => bool_param_handler optobj value nvalue flags error h
  | num_param_handler_t => num_param_handler optobj value nvalue flags error h
  | string_param_handler_t =>
      string_param_handler optobj value nvalue flags error h
  | stale_param_handler_t =>
      stale_param_handler optobj value nvalue flags error h
  | onerror_param_handler_t =>
      onerror_param_handler optobj value nvalue flags error h
  end.

(** ** Assignment *)

(** What [find_view_param] returns when it is defined: [None] for [NULL]. *)
Definition found_param : Type := option (option view_param).

(** The scan of [find_view_param] from entry [ret] on. *)
Fixpoint find_view_param_from (table : list view_param) (option : cptr)
    (noption : Z) (flags : Z) : found_param :=
  match table with
  | [] => Some None
  | ret :: table' =>
      if has_flag flags LCBEX_VOPT_F_OPTNAME_NUMERIC then
        i ← as_int option;
        if i =? itype ret then Some (Some ret)
        else find_view_param_from table' option noption flags
      else
        c ← c_strncmp option (param ret) noption;
        if c =? 0 then Some (Some ret)
        else find_view_param_from table' option noption flags
  end.

Definition find_view_param (option : cptr) (noption : Z) (flags : Z)
  : found_param :=
  find_view_param_from recognized_view_params option noption flags.

Definition lcbex_vopt_assign (optobj : lcbex_vopt_st) (option : cptr)
    (noption : Z) (value : cptr) (nvalue : Z) (flags : Z)
    (error_string : errcell) (h : heap) : result :=
  let optobj := vopt_zero in
  nvalue ← (if nvalue =? SIZE_MAX then c_strlen value else Some nvalue);
  noption ← (if noption =? SIZE_MAX then c_strlen option else Some noption);
  if negb (has_flag flags LCBEX_VOPT_F_OPTVAL_NUMERIC) && (nvalue =? 0) then
    Some (LCB_EINVAL, optobj, Some "Missing value length", h)
  else if negb (has_flag flags LCBEX_VOPT_F_OPTNAME_NUMERIC)
          && (noption =? 0) then
    Some (LCB_EINVAL, optobj, Some "Missing option name length", h)
  else if has_flag flags LCBEX_VOPT_F_PASSTHROUGH then
    if has_flag flags LCBEX_VOPT_F_OPTNAME_NUMERIC then
      Some (LCB_EINVAL, optobj,
            Some "Can't use passthrough with option constants", h)
    else
      name ← as_chars option;
      let '(p, h) := my_strndup name noption h in
      let optobj := set_optname optobj p in
      let optobj := set_noptname optobj noption in
      if has_flag flags LCBEX_VOPT_F_OPTVAL_NUMERIC then
        num_param_handler optobj value nvalue flags error_string h
      else
        string_param_handler optobj value nvalue flags error_string h
  else
    let optobj := set_flags optobj flags in
    vparam ← find_view_param option noption flags;
    match vparam with
    | None => Some (LCB_EINVAL, optobj, Some "Unrecognized option", h)
    | Some vparam =>
        '(optobj, h) ←
          (if has_flag flags LCBEX_VOPT_F_OPTNAME_NUMERIC then
             let optobj := set_optname optobj (Static (param vparam)) in
             let optobj := set_noptname optobj (strlen (param vparam)) in
             Some (or_flags optobj LCBEX_VOPT_F_OPTNAME_CONSTANT, h)
           else
             let optobj := set_noptname optobj noption in
             if has_flag flags LCBEX_VOPT_F_OPTNAME_CONSTANT then
               p ← cast_charp option;
               Some (set_optname optobj p, h)
             else
               name ← as_chars option;
               let '(p, h) := my_strndup name noption h in
               Some (set_optname optobj p, h));
        call_handler (handler_of (ptype vparam)) optobj value nvalue flags
          error_string h
    end.

(** ** Cleanup *)

Definition lcbex_vopt_cleanup (optobj : lcbex_vopt_st) (h : heap)
  : option (lcbex_vopt_st * heap) :=
  h ← (if negb (is_null (optname optobj)) then
         if negb (has_flag (flags optobj) LCBEX_VOPT_F_OPTNAME_CONSTANT)
         then free (optname optobj) h
         else Some h
       else Some h);
  h ← (if negb (is_null (optval optobj)) then
         if negb (has_flag (flags optobj) LCBEX_VOPT_F_OPTVAL_CONSTANT)
         then free (optval optobj) h
         else Some h
       else Some h);
  Some (vopt_zero, h).

(** [lcbex_vopt_cleanup_list] on a contiguous array: [options] are the
    records from index [ii] on, [left = noptions - ii]. *)
Fixpoint lcbex_vopt_cleanup_list (options : list lcbex_vopt_st) (left : Z)
    (h : heap) : option (list lcbex_vopt_st * heap) :=
  if left <=? 0 then Some (options, h)
  else
    match options with
    | [] => None
    | optobj :: options' =>
        '(optobj, h) ← lcbex_vopt_cleanup optobj h;
        '(options', h) ← lcbex_vopt_cleanup_list options' (left - 1) h;
        Some (optobj :: options', h)
    end.

(** [lcbex_vopt_cleanup_list] on an array of pointers ([is_continguous] is
    zero).  A pointer is the index in [mem] of the record it points to, so
    that two pointers may point to the same record; [options] are the
    pointers from index [ii] on, [left = noptions - ii]. *)
Fixpoint lcbex_vopt_cleanup_list_ptrs (options : list nat) (left : Z)
    (mem : list lcbex_vopt_st) (h : heap)
  : option (list lcbex_vopt_st * heap) :=
  if left <=? 0 then Some (mem, h)
  else
    match options with
    | [] => None
    | p :: options' =>
        optobj ← mem !! p;
        '(optobj, h) ← lcbex_vopt_cleanup optobj h;
        lcbex_vopt_cleanup_list_ptrs options' (left - 1)
          (<[p := optobj]> mem) h
    end.

(** ** The query string *)

(** The array [options] of [noptions] pointers is the list of the records
    pointed to. *)
Fixpoint calc_len_loop (options : list lcbex_vopt_st) (ret : Z) : Z :=
  match options with
  | [] => ret
  | curopt :: options' =>
      let ret := size_add ret (noptname curopt) in
      let ret := size_add ret (noptval curopt) in
      let ret := size_add ret 2 in
      calc_len_loop options' ret
  end.

Definition lcbex_vqstr_calc_len (options : list lcbex_vopt_st) : Z :=
  size_add (calc_len_loop options 1) 1.

(** The source of [memcpy(bufp, p, n)]. *)
Definition memcpy_src (p : charp) (n : Z) : option string :=
  s ← chars_at p; read_bytes s (Z.to_nat n).

(** The loop of [lcbex_vqstr_write]: [buf] holds the bytes between [buf]
    and [bufp]. *)
Fixpoint write_loop (options : list lcbex_vopt_st) (buf : string)
  : option string :=
  match options with
  | [] => Some buf
  | curopt :: options' =>
      name ← memcpy_src (optname curopt) (noptname curopt);
      val ← memcpy_src (optval curopt) (noptval curopt);
      write_loop options' (buf ++ name ++ "=" ++ val ++ "&")
  end.

(** All bytes but the last one. *)
Fixpoint chop (s : string) : string :=
  match s with
  | EmptyString => EmptyString
  | String c r =>
      match r with
      | EmptyString => EmptyString
      | String _ _ => String c (chop r)
      end
  end.

(** [lcbex_vqstr_write]: the bytes left in [buf] before the terminator and
    the returned [bufp - buf].  The destination is not bounded here; its
    size is the caller's business. *)
Definition lcbex_vqstr_write (options : list lcbex_vopt_st)
  : option (string * Z) :=
  buf ← write_loop options "?";
  let buf := chop buf in
  Some (buf, Z.of_nat (String.length buf)).

(** The bytes of [s] before its first NUL. *)
Fixpoint c_string (s : string) : string :=
  match s with
  | EmptyString => EmptyString
  | String c r => if is_nul c then EmptyString else String c (c_string r)
  end.

Fixpoint take_bytes (n : nat) (s : string) {struct n} : string :=
  match n, s with
  | S n', String c r => String c (take_bytes n' r)
  | _, _ => EmptyString
  end.

(** [printf("%.*s", prec, s)]: a negative precision counts as none. *)
Definition fmt_prec_s (prec : Z) (s : string) : string :=
  if prec <? 0 then c_string s else take_bytes (Z.to_nat prec) (c_string s).

Definition lcbex_vqstr_make_uri (design : cptr) (ndesign : Z) (view : cptr)
    (nview : Z) (options : list lcbex_vopt_st) (h : heap)
  : option (charp * heap) :=
  ndesign ← (if ndesign =? SIZE_MAX then c_strlen design else Some ndesign);
  nview ← (if nview =? SIZE_MAX then c_strlen view else Some nview);
  d ← as_chars design;
  v ← as_chars view;
  let path :=
    "_design/" ++ fmt_prec_s (int_wrap ndesign) d ++
    "/_view/" ++ fmt_prec_s (int_wrap nview) v in
  let path_len := Z.of_nat (String.length path) in
  (* snprintf returns an int *)
  if 2 ^ 31 <=? path_len then None
  else
    let needed_len := lcbex_vqstr_calc_len options in
    let needed_len := size_add needed_len (size_add path_len 1) in
    let '(b, h) := malloc h in
    '(query, n) ← lcbex_vqstr_write options;
    (* every byte written, terminator included, must lie in the block *)
    if path_len + n + 1 <=? needed_len then Some (Block b (path ++ query), h)
    else None.

(** ** Bulk creation *)

(** What the loop of [lcbex_vopt_createv] leaves: [err], the block of
    [*optarray] with the records assigned in it, [*noptions], [*errstr] and
    the heap. *)
Definition createv_vars : Type :=
  lcb_error_t * nat * list lcbex_vopt_st * Z * errcell * heap.

(** The loop over the variable arguments [ap] that precede the closing
    [NULL].  [junk] is the indeterminate content of a slot of the array
    before it is assigned.  The size of the array is not modelled beyond
    [n_alloc]. *)
Fixpoint createv_loop (junk : lcbex_vopt_st) (ap : list string) (arr : nat)
    (slots : list lcbex_vopt_st) (noptions n_alloc : Z) (errstr : errcell)
    (h : heap) : option createv_vars :=
  match ap with
  | [] => Some (LCB_SUCCESS, arr, slots, noptions, errstr, h)
  | strp :: ap =>
      '(arr, n_alloc, h) ←
        (if n_alloc <? size_add noptions 1 then
           '(arr, h) ← realloc arr h;
           Some (arr, size_wrap (n_alloc * 2), h)
         else Some (arr, n_alloc, h));
      match ap with
      | [] =>
          Some (LCB_EINVAL, arr, slots, noptions,
                Some "Got odd number of arguments", h)
      | value :: ap =>
          let noptions := size_add noptions 1 in
          '(err, optobj, errstr, h) ←
            lcbex_vopt_assign junk (PStr strp) SIZE_MAX (PStr value) SIZE_MAX
              0 errstr h;
          let slots := (slots ++ [optobj])%list in
          match err with
          | LCB_SUCCESS =>
              createv_loop junk ap arr slots noptions n_alloc errstr h
          | _ => Some (err, arr, slots, noptions, errstr, h)
          end
      end
  end.

(** What [lcbex_vopt_createv] leaves: the status, [*optarray] ([None] for
    [NULL], else the block and the records in it), [*noptions], [*errstr]
    and the heap. *)
Definition createv_outcome : Type :=
  lcb_error_t * option (nat * list lcbex_vopt_st) * Z * errcell * heap.

Definition lcbex_vopt_createv (junk : lcbex_vopt_st) (ap : list string)
    (h : heap) : option createv_outcome :=
  let n_alloc := 8 in
  let '(arr, h) := malloc h in
  let errstr : errcell := Some "" in
  '(err, arr, slots, noptions, errstr, h) ←
    createv_loop junk ap arr [] 0 n_alloc errstr h;
  let '(err, errstr) :=
    if noptions =? 0 then (LCB_EINVAL, Some "Got no arguments")
    else (err, errstr) in
  match err with
  | LCB_SUCCESS => Some (err, Some (arr, slots), noptions, errstr, h)
  | _ =>
      '(_, h) ← lcbex_vopt_cleanup_list slots noptions h;
      h ← free_block arr h;
      Some (err, None, noptions, errstr, h)
  end.

(** * The vocabulary of the properties *)

(** No byte of [s] is NUL: [s] is what a C string holds before its
    terminator. *)
Fixpoint no_nul (s : string) : bool :=
  match s with
  | EmptyString => true
  | String c r => negb (is_nul c) && no_nul r
  end.

(** A length argument for the C string [s]: the sentinel [SIZE_MAX], or the
    number of its bytes. *)
Definition len_arg (s : string) (n : Z) : Prop :=
  n = SIZE_MAX \/ (n = Z.of_nat (String.length s) /\ n <> SIZE_MAX).

(** The string with every upper-case letter lowered. *)
Fixpoint lower_string (s : string) : string :=
  match s with
  | EmptyString => EmptyString
  | String c r => String (tolower c) (lower_string r)
  end.

(** A literal of the library: lower case, no NUL. *)
Fixpoint lower_literal (s : string) : bool :=
  match s with
  | EmptyString => true
  | String c r =>
      negb (is_nul c) && Ascii.eqb (tolower c) c && lower_literal r
  end.

(** A name of the registry, or its number, as [lcbex_vopt_assign] takes it
    for the entry [p]. *)
Definition name_arg (option : cptr) (noption : Z) (fl : Z) (p : view_param)
  : Prop :=
  (option = PStr (param p) /\ len_arg (param p) noption /\
   has_flag fl LCBEX_VOPT_F_OPTNAME_NUMERIC = false)
  \/ (option = PInt (itype p) /\ noption <> SIZE_MAX /\
      has_flag fl LCBEX_VOPT_F_OPTNAME_NUMERIC = true).

(** The record once the option name is stored in it. *)
Definition named (o1 : lcbex_vopt_st) (p : view_param) : Prop :=
  chars_at (optname o1) = Some (param p) /\
  noptname o1 = Z.of_nat (String.length (param p)) /\
  optval o1 = NullP /\ noptval o1 = 0.

Inductive expectation : Type :=
| Emits (s : string)
| Rejects
| Unspecified.

(** The call succeeds, the record holds [name] and [val], and it is
    written as [?name=val]. *)
Definition assigned_as (r : result) (name val : string) : Prop :=
  exists o e h',
    r = Some (LCB_SUCCESS, o, e, h') /\
    chars_at (optname o) = Some name /\
    noptname o = Z.of_nat (String.length name) /\
    chars_at (optval o) = Some val /\
    noptval o = Z.of_nat (String.length val) /\
    lcbex_vqstr_write [o]
    = Some ("?" ++ name ++ "=" ++ val,
            Z.of_nat (String.length ("?" ++ name ++ "=" ++ val))).

(** The call fails with invalid-argument. *)
Definition rejected (r : result) : Prop :=
  exists o e h', r = Some (LCB_EINVAL, o, e, h').

Definition meets (r : result) (name : string) (x : expectation) : Prop :=
  match x with
  | Emits val => assigned_as r name val
  | Rejects => rejected r
  | Unspecified => True
  end.

(** What [bool_param_handler] stores for [bval]. *)
Definition bool_stored (o1 : lcbex_vopt_st) (bval : Z) : lcbex_vopt_st :=
  let lit := if bval =? 0 then "false" else "true" in
  or_flags (set_noptval (set_optval o1 (Static lit)) (strlen lit))
    LCBEX_VOPT_F_OPTVAL_CONSTANT.

Definition handler_eqb (a b : view_param_handler) : bool :=
  match a, b with
  | bool_param_handler_t, bool_param_handler_t
  | num_param_handler_t, num_param_handler_t
  | string_param_handler_t, string_param_handler_t
  | stale_param_handler_t, stale_param_handler_t
  | onerror_param_handler_t, onerror_param_handler_t => true
  | _, _ => false
  end.

(** The entries of the registry that [hd] handles. *)
Definition options_of (hd : view_param_handler) : list view_param :=
  List.filter (fun p => handler_eqb (handler_of (ptype p)) hd)
    recognized_view_params.

(** A value as [lcbex_vopt_assign] takes it: a C string with its length
    argument, or an [int] with the flag that announces it. *)
Definition value_arg (value : cptr) (nvalue fl : Z) : Prop :=
  match value with
  | PStr v =>
      no_nul v = true /\ len_arg v nvalue /\
      has_flag fl LCBEX_VOPT_F_OPTVAL_NUMERIC = false
  | PInt _ =>
      nvalue <> SIZE_MAX /\ has_flag fl LCBEX_VOPT_F_OPTVAL_NUMERIC = true
  | PNull => False
  end.

(** C3 as it is stated. *)
Definition bool_claim (value : cptr) : expectation :=
  match value with
  | PInt i =>
      if int_wrap i =? 1 then Emits "true"
      else if int_wrap i =? 0 then Emits "false"
      else Unspecified
  | PStr v =>
      if String.eqb (lower_string v) "true" then Emits "true"
      else if String.eqb (lower_string v) "false" then Emits "false"
      else Rejects
  | PNull => Unspecified
  end.

(** The boolean options without the slip: nothing is said of a string that
    is the proper beginning of [true] or of [false]. *)
Definition bool_amended (value : cptr) : expectation :=
  match value with
  | PInt i => if int_wrap i =? 0 then Emits "false" else Emits "true"
  | PStr v =>
      let w := lower_string v in
      if String.eqb w "" then Rejects
      else if String.eqb w "true" then Emits "true"
      else if String.eqb w "false" then Emits "false"
      else if String.prefix w "true" || String.prefix w "false"
      then Unspecified
      else Rejects
  | PNull => Unspecified
  end.

Definition stale_entry : view_param :=
  mk_param LCBEX_VOPT_OPT_STALE "stale" t_stale.

(** C5 as it is stated, the four words taken in any case of their
    letters. *)
Definition stale_claim (value : cptr) : expectation :=
  match value with
  | PInt i =>
      if int_wrap i =? 1 then Emits "ok"
      else if int_wrap i =? 0 then Emits "false"
      else Unspecified
  | PStr v =>
      let w := lower_string v in
      if String.eqb w "false" then Emits "false"
      else if String.eqb w "ok" then Emits "ok"
      else if String.eqb w "update_after" then Emits "update_after"
      else if String.eqb w "true" then Emits "ok"
      else Rejects
  | PNull => Unspecified
  end.

(** [stale] without the slip: the four words whatever the case of their
    letters; a string that is the beginning of none of them is rejected, and
    nothing is said of a string that is the proper beginning of one; an
    [int] is taken as a boolean. *)
Definition stale_amended (value : cptr) : expectation :=
  match value with
  | PInt i => if int_wrap i =? 0 then Emits "false" else Emits "ok"
  | PStr v =>
      let w := lower_string v in
      if String.eqb w "" then Rejects
      else if String.eqb w "false" then Emits "false"
      else if String.eqb w "ok" then Emits "ok"
      else if String.eqb w "update_after" then Emits "update_after"
      else if String.eqb w "true" then Emits "ok"
      else if String.prefix w "true" || String.prefix w "false"
              || String.prefix w "update_after" || String.prefix w "ok"
      then Unspecified
      else Rejects
  | PNull => Unspecified
  end.

(** Every byte of the string is a decimal digit. *)
Fixpoint digits_only (s : string) : bool :=
  match s with
  | EmptyString => true
  | String c r => isdigit c && digits_only r
  end.

(** Not empty: an optional ['-'], then digits only. *)
Definition numeric_form (s : string) : bool :=
  match s with
  | EmptyString => false
  | String c r => (isdigit c || Ascii.eqb c "-") && digits_only r
  end.

(** What [set_user_string] stores for a C string. *)
Definition user_string_stored (o1 : lcbex_vopt_st) (v : string) (fl : Z)
    (h : heap) : lcbex_vopt_st * heap :=
  let o1 := set_noptval o1 (Z.of_nat (String.length v)) in
  if has_flag fl LCBEX_VOPT_F_OPTVAL_CONSTANT
  then (or_flags (set_optval o1 (Caller v)) LCBEX_VOPT_F_OPTVAL_CONSTANT, h)
  else (clear_flags (set_optval o1 (Block (fresh h) v))
          LCBEX_VOPT_F_OPTVAL_CONSTANT,
        {[fresh h]} ∪ h).

(** C4: what a numeric option does with a value. *)
Definition num_spec (value : cptr) : expectation :=
  match value with
  | PInt i => Emits (fmt_d (int_wrap i))
  | PStr v => if numeric_form v then Emits v else Rejects
  | PNull => Unspecified
  end.

(** The bytes that the spec leaves unescaped: letters, digits, ['-'],
    ['_'] and ['.']. *)
Definition unreserved (c : ascii) : bool :=
  ((code "a" <=? code c) && (code c <=? code "z"))
  || ((code "A" <=? code c) && (code c <=? code "Z"))
  || ((code "0" <=? code c) && (code c <=? code "9"))
  || Ascii.eqb c "-" || Ascii.eqb c "_" || Ascii.eqb c ".".

(** The encoding the spec describes: an unescaped byte as it is, any other
    byte as ['%'] and two hexadecimal digits. *)
Fixpoint pct_encode (s : string) : string :=
  match s with
  | EmptyString => EmptyString
  | String c r =>
      (if unreserved c then String c EmptyString else fmt_pct_02X c)
      ++ pct_encode r
  end.

Definition is_upper_hex (c : ascii) : bool :=
  ((code "0" <=? code c) && (code c <=? code "9"))
  || ((code "A" <=? code c) && (code c <=? code "F")).

Definition hex_value (c : ascii) : Z :=
  if code c <=? code "9" then code c - code "0" else code c - code "A" + 10.

(** [fmt_pct_02X c] is ['%'] and the two upper-case digits of [c]. *)
Definition pct_02X_ok (c : ascii) : bool :=
  match fmt_pct_02X c with
  | String p (String d1 (String d2 EmptyString)) =>
      Ascii.eqb p "%" && is_upper_hex d1 && is_upper_hex d2
      && (16 * hex_value d1 + hex_value d2 =? code c)
  | _ => false
  end.

(** What [string_param_handler] stores when it has to encode. *)
Definition encoded_stored (o1 : lcbex_vopt_st) (v : string) (h : heap)
  : lcbex_vopt_st * heap :=
  (set_noptval (set_optval o1 (Block (fresh h) (pct_encode v)))
     (Z.of_nat (String.length (pct_encode v))),
   {[fresh h]} ∪ h).

(** A value small enough for its encoding to be counted in a [size_t]. *)
Definition value_fits (value : cptr) : Prop :=
  match value with
  | PStr v => 3 * Z.of_nat (String.length v) < SIZE_MAX
  | _ => True
  end.

(** What a string option does with a value. *)
Definition string_spec (fl : Z) (value : cptr) : expectation :=
  match value with
  | PStr v =>
      if String.eqb v "" then Rejects
      else if has_flag fl LCBEX_VOPT_F_PCTENCODE then Emits (pct_encode v)
      else Emits v
  | PInt _ => Rejects
  | PNull => Unspecified
  end.

(** [name] is the beginning of the name of some entry of the registry. *)
Definition begins_an_option (name : string) : bool :=
  existsb (fun p => String.prefix name (param p)) recognized_view_params.

(** The record of a passthrough option once its name is copied. *)
Definition passthrough_named (name : string) (h : heap) : lcbex_vopt_st :=
  set_noptname (set_optname vopt_zero (Block (fresh h) name))
    (Z.of_nat (String.length name)).

(** C2 as it is stated, for a name that is not in the registry: refused
    with [Unrecognized option] without the passthrough flag, accepted with
    it. *)
Definition unrecognized_claim (name : string) (value : cptr) (fl : Z)
    (o : lcbex_vopt_st) (e : errcell) (h : heap) : Prop :=
  (exists o' h',
     lcbex_vopt_assign o (PStr name) SIZE_MAX value SIZE_MAX fl e h
     = Some (LCB_EINVAL, o', Some "Unrecognized option", h'))
  /\ (exists val,
        assigned_as
          (lcbex_vopt_assign o (PStr name) SIZE_MAX value SIZE_MAX
             (Z.lor fl LCBEX_VOPT_F_PASSTHROUGH) e h)
          name val).

(** The name and the value of the record can be read over the lengths the
    record gives, and those lengths are lengths. *)
Definition readable (r : lcbex_vopt_st) : Prop :=
  is_Some (memcpy_src (optname r) (noptname r)) /\
  is_Some (memcpy_src (optval r) (noptval r)) /\
  0 <= noptname r /\ 0 <= noptval r.

(** The bytes that [lcbex_vqstr_write] writes after the ['?']. *)
Fixpoint query_size (options : list lcbex_vopt_st) : Z :=
  match options with
  | [] => 0
  | r :: options' => noptname r + noptval r + 2 + query_size options'
  end.

(** [n] times the byte [c]. *)
Fixpoint rep_string (n : nat) (c : ascii) : string :=
  match n with
  | O => EmptyString
  | S n' => String c (rep_string n' c)
  end.

(** A record that borrows a name of [2^32 - 2] bytes and the value [b]:
    written, it takes [2^32 + 1] bytes. *)
Definition long_name : string := rep_string (Z.to_nat 4294967294) "a".

Definition long_record : lcbex_vopt_st :=
  {| optname := Caller long_name; optval := Static "b";
     noptname := 4294967294; noptval := 1;
     flags := Z.lor LCBEX_VOPT_F_OPTNAME_CONSTANT
                LCBEX_VOPT_F_OPTVAL_CONSTANT |}.

(** An array of [2^32 - 1] pointers, all to that record. *)
Definition long_list : list lcbex_vopt_st :=
  repeat long_record (Z.to_nat 4294967295).

(** The path in front of the query string. *)
Definition view_path (design view : string) : string :=
  "_design/" ++ design ++ "/_view/" ++ view.

(** The options [stale=false] and [startkey_docid=a%20space] as the
    assignments leave them. *)
Definition stale_false : lcbex_vopt_st :=
  {| optname := Block 0 "stale"; optval := Static "false"; noptname := 5;
     noptval := 5; flags := LCBEX_VOPT_F_OPTVAL_CONSTANT |}.

Definition docid_a_space : lcbex_vopt_st :=
  {| optname := Block 1 "startkey_docid"; optval := Block 2 "a%20space";
     noptname := 14; noptval := 9; flags := LCBEX_VOPT_F_PCTENCODE |}.

(** The blocks that [lcbex_vopt_cleanup] releases for a record. *)
Definition owned (p : charp) (constant : bool) : list nat :=
  match p with
  | Block b _ => if constant then [] else [b]
  | _ => []
  end.

Definition blocks_of (o : lcbex_vopt_st) : list nat :=
  (owned (optname o) (has_flag (flags o) LCBEX_VOPT_F_OPTNAME_CONSTANT)
   ++ owned (optval o) (has_flag (flags o) LCBEX_VOPT_F_OPTVAL_CONSTANT))%list.

(** Every pointer that the record does not mark constant is null or points
    into the heap. *)
Definition releasable (p : charp) (constant : bool) : Prop :=
  match p with
  | NullP | Block _ _ => True
  | Caller _ | Static _ => constant = true
  end.

Definition cleanable (o : lcbex_vopt_st) : Prop :=
  releasable (optname o) (has_flag (flags o) LCBEX_VOPT_F_OPTNAME_CONSTANT)
  /\ releasable (optval o)
       (has_flag (flags o) LCBEX_VOPT_F_OPTVAL_CONSTANT).

(** The record of a pair once the copy of its name is stored. *)
Definition pair_named (k : string) (h : heap) : lcbex_vopt_st :=
  set_optname (set_noptname (set_flags vopt_zero 0) (strlen k))
    (Block (fresh h) (strncpy k (Z.to_nat (strlen k)))).

(** The status of the pair [(k, v)] and, when it is refused, the message:
    those of its assignment from the empty state. *)
Definition pair_verdict (k v : string) : lcb_error_t * errcell :=
  match
    lcbex_vopt_assign vopt_zero (PStr k) SIZE_MAX (PStr v) SIZE_MAX 0 None ∅
  with
  | Some (LCB_SUCCESS, _, _, _) => (LCB_SUCCESS, None)
  | Some (rc, _, e, _) => (rc, e)
  | None => (LCB_CLIENT_ENOMEM, None)
  end.

Definition pair_accepted (k v : string) : bool :=
  match fst (pair_verdict k v) with
  | LCB_SUCCESS => true
  | _ => false
  end.

(** The arguments read pair by pair, as the spec has it: the status, the
    message of a failure, and the number of pairs assigned, the refused one
    included. *)
Fixpoint scan_pairs (ap : list string) : lcb_error_t * errcell * nat :=
  match ap with
  | [] => (LCB_SUCCESS, None, O)
  | strp :: ap' =>
      match ap' with
      | [] => (LCB_EINVAL, Some "Got odd number of arguments", O)
      | value :: ap'' =>
          if pair_accepted strp value
          then let '(err, msg, n) := scan_pairs ap'' in (err, msg, S n)
          else (LCB_EINVAL, snd (pair_verdict strp value), 1%nat)
      end
  end.

(** The blocks that the call has allocated and not released: the array and
    the blocks of the records in it, all distinct and none of them live
    before the call. *)
Definition createv_inv (h0 : heap) (arr : nat) (slots : list lcbex_vopt_st)
    (h : heap) : Prop :=
  Forall cleanable slots /\
  NoDup (arr :: flat_map blocks_of slots) /\
  (forall b, b ∈ arr :: flat_map blocks_of slots -> b ∉ h0) /\
  h = list_to_set (arr :: flat_map blocks_of slots) ∪ h0.

(** Every pair of [ap] is accepted, and no argument is left over. *)
Fixpoint all_accepted (ap : list string) : bool :=
  match ap with
  | [] => true
  | strp :: ap' =>
      match ap' with
      | [] => false
      | value :: ap'' => pair_accepted strp value && all_accepted ap''
      end
  end.

(** The first entry of the registry whose name begins with [name]. *)
Definition first_beginning (name : string) : option view_param :=
  List.find (fun p => String.prefix name (param p)) recognized_view_params.

(** The entry of the registry that carries the number [i]: the numbers of
    the header run from 1 to 17 in the order of the table. *)
Definition entry_numbered (i : Z) : option view_param :=
  if (1 <=? i) && (i <=? 17)
  then nth_error recognized_view_params (Z.to_nat (i - 1))
  else None.

(** The record that the handler receives when the name is given as a
    string, and the heap at that point: the name is borrowed under
    [LCBEX_VOPT_F_OPTNAME_CONSTANT] and copied otherwise. *)
Definition name_stored (name : string) (fl : Z) (h : heap)
  : lcbex_vopt_st * heap :=
  let o :=
    set_noptname (set_flags vopt_zero fl) (Z.of_nat (String.length name)) in
  if has_flag fl LCBEX_VOPT_F_OPTNAME_CONSTANT
  then (set_optname o (Caller name), h)
  else (set_optname o (Block (fresh h) name), {[fresh h]} ∪ h).

(** The record that the handler receives when the option is given by its
    number: the name is the string of the registry. *)
Definition number_stored (p : view_param) (fl : Z) : lcbex_vopt_st :=
  or_flags
    (set_noptname (set_optname (set_flags vopt_zero fl) (Static (param p)))
       (strlen (param p)))
    LCBEX_VOPT_F_OPTNAME_CONSTANT.

(** The flags that the handlers look at. *)
Definition value_flags (fl : Z) : bool * bool * bool :=
  (has_flag fl LCBEX_VOPT_F_PCTENCODE,
   has_flag fl LCBEX_VOPT_F_OPTVAL_NUMERIC,
   has_flag fl LCBEX_VOPT_F_OPTVAL_CONSTANT).

(** The record is written as [?name=val]. *)
Definition written_as (r : lcbex_vopt_st) (name val : string) : Prop :=
  lcbex_vqstr_write [r]
  = Some ("?" ++ name ++ "=" ++ val,
          Z.of_nat (String.length ("?" ++ name ++ "=" ++ val))).

(** Two calls of a handler from the records [o1] and [o2] agree: each has
    left the name of its record alone, the two give the same message when
    they fail and, when they succeed, values that are written alike. *)
Definition same_value (rc : lcb_error_t) (o1 r1 : lcbex_vopt_st)
    (e1' : errcell) (o2 r2 : lcbex_vopt_st) (e2' : errcell) : Prop :=
  optname r1 = optname o1 /\ noptname r1 = noptname o1 /\
  optname r2 = optname o2 /\ noptname r2 = noptname o2 /\
  (rc <> LCB_SUCCESS -> e2' = e1') /\
  (rc = LCB_SUCCESS ->
   memcpy_src (optval r2) (noptval r2) = memcpy_src (optval r1) (noptval r1)).

Definition onerror_entry : view_param :=
  mk_param LCBEX_VOPT_OPT_ONERROR "on_error" t_onerror.

(** The word that [onerror_param_handler] stores for a string: [stop] is
    tried before [continue], and the comparison ignores the case of
    letters and runs over the bytes of the string only. *)
Definition onerror_value (v : string) : option string :=
  let w := lower_string v in
  if String.prefix w "stop" then Some "stop"
  else if String.prefix w "continue" then Some "continue"
  else None.

(** What is stored under [LCBEX_VOPT_F_PASSTHROUGH]: a string as it is, or
    escaped when [LCBEX_VOPT_F_PCTENCODE] asks for it; an [int] as [%d]
    prints it. *)
Definition passthrough_spec (fl : Z) (value : cptr) : expectation :=
  match value with
  | PStr v =>
      Emits (if has_flag fl LCBEX_VOPT_F_PCTENCODE then pct_encode v else v)
  | PInt i => Emits (fmt_d (int_wrap i))
  | PNull => Unspecified
  end.

(** The record owns blocks that were not live in [h], and [h'] is [h] with
    those blocks: one cleanup then gives [h] back. *)
Definition owns_exactly (o : lcbex_vopt_st) (h h' : heap) : Prop :=
  cleanable o /\ NoDup (blocks_of o) /\
  (forall b, b ∈ blocks_of o -> b ∉ h) /\
  h' = list_to_set (blocks_of o) ∪ h.

(** What a handler leaves in the value field: nothing that the record
    owns and the heap as it was, or a fresh block that the record owns. *)
Definition value_left (o o' : lcbex_vopt_st) (h h' : heap) : Prop :=
  optname o' = optname o /\
  has_flag (flags o') LCBEX_VOPT_F_OPTNAME_CONSTANT
  = has_flag (flags o) LCBEX_VOPT_F_OPTNAME_CONSTANT /\
  ((h' = h /\
    (optval o' = NullP \/
     has_flag (flags o') LCBEX_VOPT_F_OPTVAL_CONSTANT = true)) \/
   (exists s, optval o' = Block (fresh h) s /\
      has_flag (flags o') LCBEX_VOPT_F_OPTVAL_CONSTANT = false /\
      h' = {[fresh h]} ∪ h)).

(** The records of [mem] can be released from [h] one by one: each is
    cleanable, its blocks are distinct and live, and no block belongs to
    two records. *)
Definition separate_records (mem : list lcbex_vopt_st) (h : heap) : Prop :=
  forall i o,
    mem !! i = Some o ->
    cleanable o /\ NoDup (blocks_of o) /\
    (forall b, b ∈ blocks_of o -> b ∈ h) /\
    (forall j o', j <> i -> mem !! j = Some o' ->
                  forall b, b ∈ blocks_of o -> b ∉ blocks_of o').

(** The text of one option in the query string: the bytes of its name,
    ['='], the bytes of its value. *)
Definition option_text (o : lcbex_vopt_st) : option string :=
  name ← memcpy_src (optname o) (noptname o);
  val ← memcpy_src (optval o) (noptval o);
  Some (name ++ "=" ++ val).

(** The texts with ['&'] between them. *)
Fixpoint join_amp (texts : list string) : string :=
  match texts with
  | [] => ""
  | t :: texts' =>
      match texts' with
      | [] => t
      | _ :: _ => t ++ "&" ++ join_amp texts'
      end
  end.

(** The texts, each followed by ['&']. *)
Fixpoint each_amp (texts : list string) : string :=
  match texts with
  | [] => ""
  | t :: texts' => t ++ "&" ++ each_amp texts'
  end.

(** The reading of a percent-encoded string: ['%'] and two upper-case
    hexadecimal digits stand for the byte of that number, any other byte
    for itself. *)
Fixpoint pct_decode (s : string) : option string :=
  match s with
  | EmptyString => Some EmptyString
  | String c r =>
      if Ascii.eqb c "%" then
        match r with
        | String d1 (String d2 r') =>
            if is_upper_hex d1 && is_upper_hex d2 then
              t ← pct_decode r';
              Some (String
                      (ascii_of_N (Z.to_N (16 * hex_value d1 + hex_value d2)))
                      t)
            else None
        | _ => None
        end
      else t ← pct_decode r; Some (String c t)
  end.

(** The bytes that may stand in the value of a query string as they are:
    those that are never escaped, and the ['%'] of an escape. *)
Definition url_safe (c : ascii) : bool := unreserved c || Ascii.eqb c "%".

(** The two records are written alike by [lcbex_vqstr_write]. *)
Definition same_text (r1 r2 : lcbex_vopt_st) : Prop :=
  optname r2 = optname r1 /\ noptname r2 = noptname r1 /\
  noptval r2 = noptval r1 /\
  memcpy_src (optval r2) (noptval r2) = memcpy_src (optval r1) (noptval r1).

(** What [bool_param_handler] stores: for a string, compared over its own
    length and whatever the case of its letters, [true] when it begins
    [true], else [false] when it begins [false]; for an [int], [false] for
    zero and [true] for any other number. *)
Definition bool_value (value : cptr) : option string :=
  match value with
  | PStr v =>
      let w := lower_string v in
      if String.prefix w "true" then Some "true"
      else if String.prefix w "false" then Some "false"
      else None
  | PInt i => Some (if int_wrap i =? 0 then "false" else "true")
  | PNull => None
  end.

(** What [stale_param_handler] stores for a string. *)
Definition stale_value (v : string) : option string :=
  let w := lower_string v in
  if String.prefix w "true" then Some "ok"
  else if String.prefix w "false" then Some "false"
  else if String.prefix w "update_after" then Some "update_after"
  else if String.prefix w "ok" then Some "ok"
  else None.

(** What the handler stores for the string [v] when no flag is given;
    [None] when it refuses the string. *)
Definition handler_value (hd : view_param_handler) (v : string)
  : option string :=
  match hd with
  | bool_param_handler_t => bool_value (PStr v)
  | num_param_handler_t => if numeric_form v then Some v else None
  | string_param_handler_t => Some v
  | stale_param_handler_t => stale_value v
  | onerror_param_handler_t => onerror_value v
  end.

(** The text that the pair [(k, v)] gives in the query string; [None] when
    the pair is refused. *)
Definition pair_text (k v : string) : option string :=
  if String.eqb k "" || String.eqb v "" then None
  else
    p ← first_beginning k;
    w ← handler_value (handler_of (ptype p)) v;
    Some (k ++ "=" ++ w).

(** The texts of the pairs of a list of arguments; [None] when a pair is
    refused or an argument is left over. *)
Fixpoint pair_texts (ap : list string) : option (list string) :=
  match ap with
  | [] => Some []
  | k :: ap' =>
      match ap' with
      | [] => None
      | v :: ap'' =>
          t ← pair_text k v; ts ← pair_texts ap''; Some (t :: ts)
      end
  end.

(** What [stale_param_handler] stores: for a string, the words are tried
    in the order [true], [false], [update_after], [ok], each compared over
    the length of the string and whatever the case of its letters; an
    [int] is taken as a boolean. *)
Definition stale_stored (value : cptr) : option string :=
  match value with
  | PStr v => stale_value v
  | PInt i => Some (if int_wrap i =? 0 then "false" else "ok")
  | PNull => None
  end.

(** * Properties *)

(** ** Strings in memory *)

Lemma code_range c : 0 <= code c < 256.
Proof.
  unfold code. pose proof (N_ascii_bounded c) as H. lia.
Qed.

Lemma code_inj c1 c2 : code c1 = code c2 -> c1 = c2.
Proof.
  unfold code. intros H. apply N2Z.inj in H.
  rewrite <- (ascii_N_embedding c1), <- (ascii_N_embedding c2). now f_equal.
Qed.

Lemma strlen_nonneg s : 0 <= strlen s.
Proof. induction s as [|c r IH]; simpl; [lia|]. destruct (is_nul c); lia. Qed.

Lemma strlen_no_nul s : no_nul s = true -> strlen s = Z.of_nat (String.length s).
Proof.
  induction s as [|c r IH]; simpl; [reflexivity|].
  intros [Hc Hr]%andb_true_iff. apply negb_true_iff in Hc. rewrite Hc.
  rewrite IH by assumption. lia.
Qed.

Lemma strncpy_no_nul s :
  no_nul s = true -> strncpy s (String.length s) = s.
Proof.
  induction s as [|c r IH]; simpl; [reflexivity|].
  intros [Hc Hr]%andb_true_iff. apply negb_true_iff in Hc. rewrite Hc.
  now rewrite IH.
Qed.

Lemma strncpy_length s n : String.length (strncpy s n) = n.
Proof.
  revert s. induction n as [|n IH]; intros s; simpl; [reflexivity|].
  destruct s as [|c r]; simpl; [now rewrite IH|].
  destruct (is_nul c); simpl; now rewrite IH.
Qed.

Lemma read_bytes_full s : read_bytes s (String.length s) = Some s.
Proof.
  induction s as [|c r IH]; simpl; [reflexivity|]. now rewrite IH.
Qed.

Lemma read_bytes_length s n t :
  read_bytes s n = Some t -> String.length t = n.
Proof.
  revert s t. induction n as [|n IH]; intros s t; simpl.
  - intros H. injection H as H. subst t. reflexivity.
  - destruct s as [|c r].
    + destruct n; [|discriminate]. intros H. injection H as H. subst t.
      reflexivity.
    + destruct (read_bytes r n) as [u|] eqn:E; [|discriminate].
      intros H. injection H as H. subst t. simpl. f_equal. eauto.
Qed.

Lemma c_string_no_nul s : no_nul s = true -> c_string s = s.
Proof.
  induction s as [|c r IH]; simpl; [reflexivity|].
  intros [Hc Hr]%andb_true_iff. apply negb_true_iff in Hc. rewrite Hc.
  now rewrite IH.
Qed.

Lemma take_bytes_full s : take_bytes (String.length s) s = s.
Proof. induction s as [|c r IH]; simpl; [reflexivity|]. now rewrite IH. Qed.

Lemma length_append s t :
  String.length (s ++ t) = (String.length s + String.length t)%nat.
Proof. induction s as [|c r IH]; simpl; [reflexivity|]. now rewrite IH. Qed.

Lemma append_assoc (s t u : string) : (s ++ t) ++ u = s ++ (t ++ u).
Proof. induction s as [|c r IH]; simpl; [reflexivity|]. now rewrite IH. Qed.

Lemma append_nil_r s : s ++ "" = s.
Proof. induction s as [|c r IH]; simpl; [reflexivity|]. now rewrite IH. Qed.

Lemma chop_snoc s c : chop (s ++ String c "") = s.
Proof.
  induction s as [|a r IH]; simpl; [reflexivity|].
  rewrite IH. destruct r; reflexivity.
Qed.

(** The effective length after the sentinel is resolved. *)
Lemma len_arg_resolve s n :
  no_nul s = true -> len_arg s n ->
  (if n =? SIZE_MAX then c_strlen (PStr s) else Some n)
  = Some (Z.of_nat (String.length s)).
Proof.
  intros Hs [->|[-> Hn]].
  - rewrite Z.eqb_refl. unfold c_strlen. simpl. now rewrite strlen_no_nul.
  - apply Z.eqb_neq in Hn. now rewrite Hn.
Qed.

(** ** Comparisons *)

(** On a string without NUL, compared over its whole length, [strncmp]
    returns zero exactly on the prefixes of the second string. *)
Lemma strncmp_prefix s p :
  no_nul s = true ->
  strncmp s p (Z.of_nat (String.length s)) = 0 <-> String.prefix s p = true.
Proof.
  revert p. induction s as [|c r IH]; intros p Hs.
  - simpl. destruct p; simpl; tauto.
  - simpl in Hs. apply andb_true_iff in Hs as [Hc Hr].
    apply negb_true_iff in Hc.
    cbn [strncmp String.length].
    replace (Z.of_nat (S (String.length r)) <=? 0) with false
      by (symmetry; apply Z.leb_gt; lia).
    replace (Z.of_nat (S (String.length r)) - 1)
      with (Z.of_nat (String.length r)) by lia.
    rewrite Hc. destruct p as [|c2 p']; cbn [first_byte rest_bytes String.prefix].
    + unfold is_nul in Hc. apply Z.eqb_neq in Hc.
      change (code NUL) with 0.
      destruct (code c =? 0) eqn:E; [apply Z.eqb_eq in E; lia|].
      split; [lia|discriminate].
    + destruct (code c =? code c2) eqn:E.
      * apply Z.eqb_eq, code_inj in E. subst c2.
        destruct (ascii_dec c c); [|congruence]. now apply IH.
      * apply Z.eqb_neq in E.
        destruct (ascii_dec c c2) as [->|]; [congruence|].
        split; [lia|discriminate].
Qed.

Lemma tolower_nul c : is_nul (tolower c) = is_nul c.
Proof.
  unfold tolower, is_nul.
  destruct ((65 <=? code c) && (code c <=? 90)) eqn:E; [|reflexivity].
  apply andb_true_iff in E as [H1 H2].
  apply Z.leb_le in H1, H2.
  assert (Hc : code (ascii_of_N (Z.to_N (code c + 32))) = code c + 32).
  { unfold code at 1. rewrite N_ascii_embedding; lia. }
  rewrite Hc. transitivity false; [|symmetry]; apply Z.eqb_neq; lia.
Qed.

(** Against a lower-case literal, [strncasecmp] over the whole length of a
    string without NUL returns zero exactly when the lowered string is a
    prefix of the literal. *)
Lemma strncasecmp_prefix lit v :
  lower_literal lit = true -> no_nul v = true ->
  strncasecmp lit v (Z.of_nat (String.length v)) = 0
  <-> String.prefix (lower_string v) lit = true.
Proof.
  revert lit. induction v as [|c r IH]; intros lit Hl Hv.
  - simpl. destruct lit; simpl; tauto.
  - simpl in Hv. apply andb_true_iff in Hv as [Hc Hr].
    apply negb_true_iff in Hc.
    assert (Hn : (Z.of_nat (String.length (String c r)) <=? 0) = false)
      by (apply Z.leb_gt; simpl; lia).
    destruct lit as [|l lit'].
    + cbn [strncasecmp]. rewrite Hn. cbn [first_byte lower_string String.prefix].
      pose proof (tolower_nul c) as Ht. rewrite Hc in Ht.
      unfold is_nul in Ht. apply Z.eqb_neq in Ht.
      split; [lia|discriminate].
    + simpl in Hl. apply andb_true_iff in Hl as [Hl Hl'].
      apply andb_true_iff in Hl as [Hl0 Hl1].
      apply negb_true_iff in Hl0. apply Ascii.eqb_eq in Hl1.
      cbn [strncasecmp]. rewrite Hn. cbn [first_byte rest_bytes].
      cbn [lower_string String.prefix]. rewrite Hl1, Hl0.
      replace (Z.of_nat (String.length (String c r)) - 1)
        with (Z.of_nat (String.length r)) by (simpl; lia).
      destruct (code l =? code (tolower c)) eqn:E.
      * apply Z.eqb_eq, code_inj in E. rewrite <- E.
        destruct (ascii_dec l l); [|congruence]. now apply IH.
      * apply Z.eqb_neq in E.
        destruct (ascii_dec (tolower c) l) as [<-|]; [congruence|].
        split; [lia|discriminate].
Qed.

(** ** Flags *)

Lemma has_flag_or_other f A B :
  Z.land A B = 0 -> has_flag (Z.lor f A) B = has_flag f B.
Proof.
  intros H. unfold has_flag.
  now rewrite Z.land_lor_distr_l, H, Z.lor_0_r.
Qed.

Lemma has_flag_clear_other f A B :
  Z.land (Z.lnot A) B = B -> has_flag (Z.land f (Z.lnot A)) B = has_flag f B.
Proof.
  intros H. unfold has_flag. now rewrite <- Z.land_assoc, H.
Qed.

Lemma has_flag_or_same f A : A <> 0 -> has_flag (Z.lor f A) A = true.
Proof.
  intros H. unfold has_flag.
  rewrite Z.land_lor_distr_l, Z.land_diag.
  apply negb_true_iff, Z.eqb_neq. intros E.
  apply Z.lor_eq_0_iff in E. tauto.
Qed.

(** ** The heap only grows during an assignment *)

Lemma malloc_fresh h b h' :
  malloc h = (b, h') -> (b ∉ h) /\ (h' = {[b]} ∪ h).
Proof.
  unfold malloc. intros H. injection H as <- <-. split; [|reflexivity].
  apply is_fresh.
Qed.

Lemma set_user_string_heap o value nvalue fl h o' h' :
  set_user_string o value nvalue fl h = Some (o', h') -> h ⊆ h'.
Proof.
  unfold set_user_string, my_strndup, malloc. intros H.
  repeat case_match; simplify_option_eq; set_solver.
Qed.

Lemma call_handler_heap hd o value nvalue fl e h rc o' e' h' :
  call_handler hd o value nvalue fl e h = Some (rc, o', e', h') -> h ⊆ h'.
Proof.
  destruct hd; simpl;
    unfold bool_param_handler, num_param_handler, string_param_handler,
      stale_param_handler, bool_param_handler, onerror_param_handler, malloc;
    intros H; repeat (case_match || simplify_option_eq);
    try match goal with
        | H : set_user_string _ _ _ _ _ = Some _ |- _ =>
            apply set_user_string_heap in H
        end;
    set_solver.
Qed.

Lemma lcbex_vopt_assign_heap o option noption value nvalue fl e h rc o' e' h' :
  lcbex_vopt_assign o option noption value nvalue fl e h
  = Some (rc, o', e', h') ->
  h ⊆ h'.
Proof.
  unfold lcbex_vopt_assign, my_strndup, malloc. intros H.
  repeat (case_match || simplify_option_eq);
    try match goal with
        | H : call_handler _ _ _ _ _ _ _ = Some _ |- _ =>
            apply call_handler_heap in H
        | H : num_param_handler _ _ _ _ _ _ = Some _ |- _ =>
            apply (call_handler_heap num_param_handler_t) in H
        | H : string_param_handler _ _ _ _ _ _ = Some _ |- _ =>
            apply (call_handler_heap string_param_handler_t) in H
        end;
    set_solver.
Qed.

(** ** What a failed assignment leaves *)

(** A handler that fails has allocated nothing and has left the name and
    the value of the record as they were; of the flags only
    [LCBEX_VOPT_F_OPTVAL_CONSTANT] may have changed. *)
Lemma call_handler_failure hd o value nvalue fl e h rc o' e' h' :
  call_handler hd o value nvalue fl e h = Some (rc, o', e', h') ->
  rc <> LCB_SUCCESS ->
  rc = LCB_EINVAL /\ h' = h /\ is_Some e' /\
  optname o' = optname o /\ optval o' = optval o /\
  noptname o' = noptname o /\ noptval o' = noptval o /\
  has_flag (flags o') LCBEX_VOPT_F_OPTNAME_CONSTANT
  = has_flag (flags o) LCBEX_VOPT_F_OPTNAME_CONSTANT.
Proof.
  destruct hd; simpl;
    unfold bool_param_handler, num_param_handler, string_param_handler,
      stale_param_handler, bool_param_handler, onerror_param_handler, malloc;
    intros H Hrc; repeat (case_match || simplify_option_eq);
    try congruence;
    repeat split; eauto;
    cbn [flags or_flags set_flags];
    now apply has_flag_or_other.
Qed.

Lemma lcbex_vopt_assign_failure o option noption value nvalue fl e h rc o' e' h' :
  lcbex_vopt_assign o option noption value nvalue fl e h
  = Some (rc, o', e', h') ->
  rc <> LCB_SUCCESS ->
  rc = LCB_EINVAL /\ is_Some e' /\ optval o' = NullP /\ noptval o' = 0 /\
  ((optname o' = NullP /\ h' = h) \/
   (has_flag (flags o') LCBEX_VOPT_F_OPTNAME_CONSTANT = true /\ h' = h) \/
   (exists s, optname o' = Block (fresh h) s /\
      has_flag (flags o') LCBEX_VOPT_F_OPTNAME_CONSTANT = false /\
      h' = {[fresh h]} ∪ h)).
Proof.
  unfold lcbex_vopt_assign, my_strndup, malloc. intros H Hrc.
  repeat (case_match || simplify_option_eq);
    try congruence;
    try (repeat split; eauto; left; split; reflexivity);
    try match goal with
        | H : call_handler _ _ _ _ _ _ _ = Some _ |- _ =>
            apply call_handler_failure in H; [|assumption]
        | H : num_param_handler _ _ _ _ _ _ = Some _ |- _ =>
            apply (call_handler_failure num_param_handler_t) in H;
            [|assumption]
        | H : string_param_handler _ _ _ _ _ _ = Some _ |- _ =>
            apply (call_handler_failure string_param_handler_t) in H;
            [|assumption]
        end.
  all: destruct H as (-> & -> & He & Hn & Hv & Hnn & Hnv & Hf).
  all: cbn [optname optval noptname noptval flags set_optname set_noptname
            set_flags or_flags vopt_zero] in *.
  all: repeat split; try assumption.
  all: rewrite ?Hf;
    first
      [ left; split; [assumption|reflexivity]
      | right; left; split;
        [first [assumption | now apply has_flag_or_same]|reflexivity]
      | right; right; eexists; split; [eassumption|];
        split; [first [assumption|reflexivity]|reflexivity] ].
Qed.

Lemma free_fresh h s : free (Block (fresh h) s) ({[fresh h]} ∪ h) = Some h.
Proof.
  unfold free, free_block. pose proof (is_fresh h) as Hf.
  destruct (decide (fresh h ∈ {[fresh h]} ∪ h)) as [_|Hn]; [|set_solver].
  f_equal. set_solver.
Qed.

(** After a failed assignment, one cleanup releases what the call had
    allocated. *)
Lemma cleanup_after_failure o option noption value nvalue fl e h rc o' e' h' :
  lcbex_vopt_assign o option noption value nvalue fl e h
  = Some (rc, o', e', h') ->
  rc <> LCB_SUCCESS ->
  lcbex_vopt_cleanup o' h' = Some (vopt_zero, h).
Proof.
  intros H Hrc.
  destruct (lcbex_vopt_assign_failure _ _ _ _ _ _ _ _ _ _ _ _ H Hrc)
    as (_ & _ & Hv & _ & Hcase).
  unfold lcbex_vopt_cleanup. rewrite Hv. cbn [is_null negb].
  destruct Hcase as [[-> ->]|[[Hf ->]|(s & -> & Hf & ->)]].
  - reflexivity.
  - rewrite Hf. destruct (is_null (optname o')); reflexivity.
  - rewrite Hf. cbn [is_null negb]. now rewrite free_fresh.
Qed.

(** ** Claims on the assignment of one option *)

(** C1, as the code has it: when [lcbex_vopt_assign] returns an error, the
    status is invalid-argument, the error string is set and the record
    holds no value; the record may still hold the option name (a copy made
    before the value handler ran, a borrowed pointer or a registry string).
    One [lcbex_vopt_cleanup] then releases the copy, if any, leaves the
    record empty and the heap as it was before the call. *)
Theorem assign_failure_is_cleanable :
  forall o option noption value nvalue fl e h rc o' e' h',
    lcbex_vopt_assign o option noption value nvalue fl e h
    = Some (rc, o', e', h') ->
    rc <> LCB_SUCCESS ->
    rc = LCB_EINVAL /\ is_Some e' /\
    optval o' = NullP /\ noptval o' = 0 /\
    lcbex_vopt_cleanup o' h' = Some (vopt_zero, h).
Proof.
  intros o option noption value nvalue fl e h rc o' e' h' H Hrc.
  destruct (lcbex_vopt_assign_failure _ _ _ _ _ _ _ _ _ _ _ _ H Hrc)
    as (Hr & He & Hv & Hn & _).
  repeat split; try assumption.
  eapply cleanup_after_failure; eassumption.
Qed.

(** The boolean option [descending] given the value [bad_value]: the call
    fails and one cleanup empties the record and the heap. *)
Lemma assign_failure_is_cleanable_witness :
  let o' :=
    {| optname := Block (fresh (∅ : heap)) "descending"; optval := NullP;
       noptname := 10; noptval := 0; flags := 0 |} in
  LCB_EINVAL = LCB_EINVAL /\
  is_Some (Some "String must be either 'true' or 'false'") /\
  optval o' = NullP /\ noptval o' = 0 /\
  lcbex_vopt_cleanup o' ({[fresh (∅ : heap)]} ∪ ∅) = Some (vopt_zero, ∅).
Proof.
  intros o'.
  apply (assign_failure_is_cleanable vopt_zero (PStr "descending") SIZE_MAX
           (PStr "bad_value") SIZE_MAX 0 None ∅ LCB_EINVAL o'
           (Some "String must be either 'true' or 'false'")
           ({[fresh (∅ : heap)]} ∪ ∅)).
  - reflexivity.
  - discriminate.
Defined.

(** C1 as stated fails: the boolean option [descending] given the value
    [bad_value] is rejected by its handler, and the record keeps the copy of
    the option name in a live block of the heap. *)
Lemma assign_failure_keeps_name_copy :
  exists b h',
    lcbex_vopt_assign vopt_zero (PStr "descending") SIZE_MAX
      (PStr "bad_value") SIZE_MAX 0 None ∅
    = Some (LCB_EINVAL,
            {| optname := Block b "descending"; optval := NullP;
               noptname := 10; noptval := 0; flags := 0 |},
            Some "String must be either 'true' or 'false'", h')
    /\ b ∈ h'
    /\ {| optname := Block b "descending"; optval := NullP;
          noptname := 10; noptval := 0; flags := 0 |} <> vopt_zero.
Proof.
  exists (fresh (∅ : heap)), ({[fresh (∅ : heap)]} ∪ ∅).
  split; [reflexivity|]. split; [set_solver|discriminate].
Qed.

(** C10: the record that [lcbex_vopt_assign] leaves, its status and its
    error string do not depend on the record it was given, which is reset
    at entry; and the call releases nothing, so whatever the prior record
    owned stays live. *)
Theorem assign_ignores_prior_record :
  forall o1 o2 option noption value nvalue fl e h,
    lcbex_vopt_assign o1 option noption value nvalue fl e h
    = lcbex_vopt_assign o2 option noption value nvalue fl e h
    /\ (forall rc o' e' h',
          lcbex_vopt_assign o1 option noption value nvalue fl e h
          = Some (rc, o', e', h') ->
          h ⊆ h').
Proof.
  intros. split; [reflexivity|].
  intros rc o' e' h'. apply lcbex_vopt_assign_heap.
Qed.

(** A record that owns block 7 is assigned [limit=10]: the result is that
    of an empty record, and block 7 is still live. *)
Lemma assign_ignores_prior_record_witness :
  lcbex_vopt_assign
    {| optname := Block 7 "old"; optval := Static "true"; noptname := 3;
       noptval := 4; flags := 8 |}
    (PStr "limit") SIZE_MAX (PStr "10") SIZE_MAX 0 None {[7%nat]}
  = lcbex_vopt_assign vopt_zero
      (PStr "limit") SIZE_MAX (PStr "10") SIZE_MAX 0 None {[7%nat]}
  /\ ({[7%nat]} : heap) ⊆ {[9%nat]} ∪ ({[8%nat]} ∪ {[7%nat]}).
Proof.
  pose proof (assign_ignores_prior_record
                {| optname := Block 7 "old"; optval := Static "true";
                   noptname := 3; noptval := 4; flags := 8 |}
                vopt_zero (PStr "limit") SIZE_MAX (PStr "10") SIZE_MAX 0 None
                {[7%nat]}) as [Heq Hsub].
  split; [exact Heq|].
  apply (Hsub LCB_SUCCESS
           {| optname := Block 8 "limit"; optval := Block 9 "10";
              noptname := 5; noptval := 2; flags := 0 |} None).
  vm_compute. reflexivity.
Defined.

(** ** Looking an option up *)

Lemma find_view_param_from_name table s n fl :
  has_flag fl LCBEX_VOPT_F_OPTNAME_NUMERIC = false -> n <> 0 ->
  find_view_param_from table (PStr s) n fl
  = Some (List.find (fun ret => strncmp s (param ret) n =? 0) table).
Proof.
  intros Hf Hn. induction table as [|ret table IH]; simpl; [reflexivity|].
  rewrite Hf. unfold c_strncmp. apply Z.eqb_neq in Hn. rewrite Hn. simpl.
  destruct (strncmp s (param ret) n =? 0); [reflexivity|exact IH].
Qed.

Lemma find_view_param_from_id table i n fl :
  has_flag fl LCBEX_VOPT_F_OPTNAME_NUMERIC = true ->
  find_view_param_from table (PInt i) n fl
  = Some (List.find (fun ret => int_wrap i =? itype ret) table).
Proof.
  intros Hf. induction table as [|ret table IH]; simpl; [reflexivity|].
  rewrite Hf. simpl.
  destruct (int_wrap i =? itype ret); [reflexivity|exact IH].
Qed.

(** Every entry is found under its own name, or an entry with the same
    handler is ([key] finds [keys]); and under its own number. *)
Lemma registry_lookup :
  Forall (fun p =>
            no_nul (param p) = true /\ param p <> "" /\
            strlen (param p) = Z.of_nat (String.length (param p)) /\
            (exists p',
               List.find (fun ret =>
                            strncmp (param p) (param ret)
                              (Z.of_nat (String.length (param p))) =? 0)
                 recognized_view_params = Some p' /\
               handler_of (ptype p') = handler_of (ptype p)) /\
            List.find (fun ret => int_wrap (itype p) =? itype ret)
              recognized_view_params = Some p)
    recognized_view_params.
Proof.
  repeat constructor; try discriminate; eexists; split; reflexivity.
Qed.

(** A recognized option without passthrough: the assignment comes down to
    the handler of the entry, called on a record that holds the name. *)
Lemma assign_recognized p o option noption value nvalue nv fl e h :
  In p recognized_view_params ->
  name_arg option noption fl p ->
  has_flag fl LCBEX_VOPT_F_PASSTHROUGH = false ->
  (if nvalue =? SIZE_MAX then c_strlen value else Some nvalue) = Some nv ->
  (has_flag fl LCBEX_VOPT_F_OPTVAL_NUMERIC = false -> nv <> 0) ->
  exists o1 h1,
    named o1 p /\
    lcbex_vopt_assign o option noption value nvalue fl e h
    = call_handler (handler_of (ptype p)) o1 value nv fl e h1.
Proof.
  intros Hin Hname Hpass Hnv Hnz.
  pose proof registry_lookup as Hall. rewrite List.Forall_forall in Hall.
  destruct (Hall p Hin) as (Hnul & Hne & Hlen & (p' & Hfind & Hh) & Hid).
  assert (Hl0 : Z.of_nat (String.length (param p)) <> 0).
  { destruct (param p); [congruence|simpl; lia]. }
  unfold lcbex_vopt_assign. rewrite Hnv. cbn [mbind option_bind].
  assert (Hv0 : negb (has_flag fl LCBEX_VOPT_F_OPTVAL_NUMERIC) && (nv =? 0)
                = false).
  { destruct (has_flag fl LCBEX_VOPT_F_OPTVAL_NUMERIC); [reflexivity|].
    simpl. apply Z.eqb_neq. now apply Hnz. }
  destruct Hname as [(-> & Hlarg & Hnum)|(-> & Hno & Hnum)].
  - rewrite (len_arg_resolve _ _ Hnul Hlarg). cbn [mbind option_bind].
    rewrite Hv0, Hnum, Hpass. cbn [negb andb].
    apply Z.eqb_neq in Hl0 as Hl0'. rewrite Hl0'.
    unfold find_view_param.
    rewrite find_view_param_from_name by assumption.
    rewrite Hfind. cbn [mbind option_bind as_chars].
    rewrite Hh.
    destruct (has_flag fl LCBEX_VOPT_F_OPTNAME_CONSTANT).
    + cbn [cast_charp mbind option_bind]. eexists _, _. split; [|reflexivity].
      repeat split.
    + unfold my_strndup, malloc. cbn [mbind option_bind].
      eexists _, _. split; [|reflexivity].
      repeat split. cbn. now rewrite Nat2Z.id, strncpy_no_nul.
  - apply Z.eqb_neq in Hno. rewrite Hno. cbn [mbind option_bind].
    rewrite Hv0, Hnum, Hpass. cbn [negb andb].
    unfold find_view_param. rewrite find_view_param_from_id by assumption.
    rewrite Hid. cbn [mbind option_bind].
    eexists _, _. split; [|reflexivity].
    repeat split. cbn. now rewrite Hlen.
Qed.

(** ** What an assignment is expected to do *)

(** A record that holds [name] and [val] is written as [?name=val]. *)
Lemma write_single o name val :
  chars_at (optname o) = Some name ->
  noptname o = Z.of_nat (String.length name) ->
  chars_at (optval o) = Some val ->
  noptval o = Z.of_nat (String.length val) ->
  lcbex_vqstr_write [o]
  = Some ("?" ++ name ++ "=" ++ val,
          Z.of_nat (String.length ("?" ++ name ++ "=" ++ val))).
Proof.
  intros Hn Hnn Hv Hnv.
  unfold lcbex_vqstr_write, write_loop, memcpy_src.
  rewrite Hn, Hnn, Hv, Hnv. cbn [mbind option_bind].
  rewrite !Nat2Z.id, !read_bytes_full. cbn [mbind option_bind].
  replace ("?" ++ name ++ "=" ++ val ++ "&")
    with (("?" ++ name ++ "=" ++ val) ++ "&").
  - now rewrite chop_snoc.
  - cbn [String.append]. f_equal.
    now rewrite !append_assoc.
Qed.

Lemma assigned_as_serialized r name val :
  assigned_as r name val ->
  exists o e h',
    r = Some (LCB_SUCCESS, o, e, h') /\
    lcbex_vqstr_write [o]
    = Some ("?" ++ name ++ "=" ++ val,
            Z.of_nat (String.length ("?" ++ name ++ "=" ++ val))).
Proof.
  intros (o & e & h' & -> & _ & _ & _ & _ & Hw).
  exists o, e, h'. split; [reflexivity|]. exact Hw.
Qed.

(** The handler left the name in place and stored [val]. *)
Lemma assigned_as_intro p o1 o2 e h' val :
  named o1 p ->
  optname o2 = optname o1 -> noptname o2 = noptname o1 ->
  chars_at (optval o2) = Some val ->
  noptval o2 = Z.of_nat (String.length val) ->
  assigned_as (Some (LCB_SUCCESS, o2, e, h')) (param p) val.
Proof.
  intros (Hn & Hnn & _) E1 E2 Hv Hnv. exists o2, e, h'.
  rewrite <- E1 in Hn. rewrite <- E2 in Hnn.
  split; [reflexivity|]. split; [assumption|]. split; [assumption|].
  split; [assumption|]. split; [assumption|]. now apply write_single.
Qed.

(** ** The handlers on well-formed values *)

Lemma strncasecmp_eqb lit v :
  lower_literal lit = true -> no_nul v = true ->
  (strncasecmp lit v (Z.of_nat (String.length v)) =? 0)
  = String.prefix (lower_string v) lit.
Proof.
  intros Hl Hv. pose proof (strncasecmp_prefix lit v Hl Hv) as H.
  destruct (String.prefix (lower_string v) lit).
  - apply Z.eqb_eq. now apply H.
  - apply Z.eqb_neq. intros E. apply H in E. discriminate.
Qed.

Lemma c_strncasecmp_eqb lit v :
  lower_literal lit = true -> no_nul v = true -> v <> "" ->
  c_strncasecmp lit (PStr v) (Z.of_nat (String.length v))
  = Some (strncasecmp lit v (Z.of_nat (String.length v))).
Proof.
  intros Hl Hv Hne. unfold c_strncasecmp.
  destruct (Z.of_nat (String.length v) =? 0) eqn:E; [|reflexivity].
  apply Z.eqb_eq in E. destruct v; [congruence|simpl in E; lia].
Qed.

Lemma bool_param_handler_string o1 v fl e h :
  has_flag fl LCBEX_VOPT_F_OPTVAL_NUMERIC = false ->
  no_nul v = true -> v <> "" ->
  bool_param_handler o1 (PStr v) (Z.of_nat (String.length v)) fl e h
  = if String.prefix (lower_string v) "true"
    then Some (LCB_SUCCESS, bool_stored o1 1, None, h)
    else if String.prefix (lower_string v) "false"
         then Some (LCB_SUCCESS, bool_stored o1 0, None, h)
         else Some (LCB_EINVAL, o1,
                    Some "String must be either 'true' or 'false'", h).
Proof.
  intros Hf Hv Hne. unfold bool_param_handler. rewrite Hf.
  rewrite !c_strncasecmp_eqb by (assumption || reflexivity).
  cbn [mbind option_bind].
  rewrite !strncasecmp_eqb by (assumption || reflexivity).
  reflexivity.
Qed.

Lemma bool_param_handler_int o1 i nv fl e h :
  has_flag fl LCBEX_VOPT_F_OPTVAL_NUMERIC = true ->
  bool_param_handler o1 (PInt i) nv fl e h
  = Some (LCB_SUCCESS, bool_stored o1 (int_wrap i), None, h).
Proof.
  intros Hf. unfold bool_param_handler. rewrite Hf. reflexivity.
Qed.

(** ** Options by handler *)

Lemma handler_eqb_eq a b : handler_eqb a b = true <-> a = b.
Proof. destruct a, b; simpl; split; congruence. Qed.

Lemma options_of_In hd p :
  In p (options_of hd) ->
  In p recognized_view_params /\ handler_of (ptype p) = hd.
Proof.
  unfold options_of. rewrite List.filter_In, handler_eqb_eq. tauto.
Qed.

Example boolean_options :
  map param (options_of bool_param_handler_t)
  = ["descending"; "full_set"; "group"; "inclusive_end"; "reduce"; "debug"].
Proof. reflexivity. Qed.

Example numeric_options :
  map param (options_of num_param_handler_t) = ["group_level"; "skip"; "limit"].
Proof. reflexivity. Qed.

Example string_options :
  map param (options_of string_param_handler_t)
  = ["endkey"; "endkey_docid"; "keys"; "key"; "startkey"; "startkey_docid"].
Proof. reflexivity. Qed.

(** The empty string is refused before any lookup. *)
Lemma assign_empty_value o option noption nvalue fl e h :
  value_arg (PStr "") nvalue fl ->
  (exists n,
     (if noption =? SIZE_MAX then c_strlen option else Some noption) = Some n) ->
  lcbex_vopt_assign o option noption (PStr "") nvalue fl e h
  = Some (LCB_EINVAL, vopt_zero, Some "Missing value length", h).
Proof.
  intros (Hv & Hl & Hf) [n Hn]. unfold lcbex_vopt_assign.
  rewrite (len_arg_resolve _ _ Hv Hl). cbn [mbind option_bind].
  rewrite Hn. cbn [mbind option_bind]. rewrite Hf. reflexivity.
Qed.

Lemma name_arg_resolves option noption fl p :
  In p recognized_view_params ->
  name_arg option noption fl p ->
  exists n,
    (if noption =? SIZE_MAX then c_strlen option else Some noption) = Some n.
Proof.
  intros Hin [(-> & Hl & _)|(-> & Hn & _)].
  - pose proof registry_lookup as Hall. rewrite List.Forall_forall in Hall.
    destruct (Hall p Hin) as (Hnul & _).
    eexists. now apply len_arg_resolve.
  - apply Z.eqb_neq in Hn. rewrite Hn. eauto.
Qed.

(** A recognized option given a well-formed, non-empty value. *)
Lemma assign_recognized_value p o option noption value nvalue fl e h :
  In p recognized_view_params ->
  name_arg option noption fl p ->
  has_flag fl LCBEX_VOPT_F_PASSTHROUGH = false ->
  value_arg value nvalue fl -> value <> PStr "" ->
  exists o1 h1 nv,
    named o1 p /\
    match value with
    | PStr v => nv = Z.of_nat (String.length v)
    | _ => nv = nvalue
    end /\
    lcbex_vopt_assign o option noption value nvalue fl e h
    = call_handler (handler_of (ptype p)) o1 value nv fl e h1.
Proof.
  intros Hin Hname Hpass Hval Hne.
  destruct value as [|v|i]; [destruct Hval| |].
  - destruct Hval as (Hv & Hl & Hf).
    destruct (assign_recognized p o option noption (PStr v) nvalue
                (Z.of_nat (String.length v)) fl e h Hin Hname Hpass)
      as (o1 & h1 & Hnamed & Heq).
    + now apply len_arg_resolve.
    + intros _. destruct v; [congruence|simpl; lia].
    + exists o1, h1, (Z.of_nat (String.length v)). auto.
  - destruct Hval as (Hn & Hf).
    destruct (assign_recognized p o option noption (PInt i) nvalue nvalue
                fl e h Hin Hname Hpass)
      as (o1 & h1 & Hnamed & Heq).
    + apply Z.eqb_neq in Hn. now rewrite Hn.
    + intros Hf'. congruence.
    + exists o1, h1, nvalue. auto.
Qed.

(** ** Boolean options *)

(** C3 asks that every string other than [true] and [false] be rejected.
    The code does not do so: for each boolean option the one-byte value
    [t] is accepted and stored as [true], because [strncasecmp] is bounded
    by the length of the value and so compares one byte only. *)
Theorem bool_option_accepts_prefix :
  forall o e h,
    bool_claim (PStr "t") = Rejects /\
    List.Forall
      (fun p =>
         assigned_as
           (lcbex_vopt_assign o (PStr (param p)) SIZE_MAX (PStr "t") SIZE_MAX
              0 e h)
           (param p) "true")
      (options_of bool_param_handler_t).
Proof.
  intros o e h. split; [reflexivity|].
  repeat constructor; eexists _, _, _; (split; [reflexivity|]);
    repeat split.
Qed.

Lemma lower_string_nil v : lower_string v = "" -> v = "".
Proof. destruct v; [reflexivity|discriminate]. Qed.

(** The handler has stored a literal next to the name of [p]. *)
Ltac stored p :=
  match goal with
  | H : named ?o1 p |- _ =>
      apply (assigned_as_intro p o1); [exact H|reflexivity..]
  end.

(** What holds of the boolean options: [true] and [false] in any case of
    letters and the numbers are stored as C3 says, and a string that is the
    beginning of neither word is rejected. *)
Lemma bool_option_values p o option noption value nvalue fl e h :
  In p (options_of bool_param_handler_t) ->
  name_arg option noption fl p ->
  value_arg value nvalue fl ->
  has_flag fl LCBEX_VOPT_F_PASSTHROUGH = false ->
  meets (lcbex_vopt_assign o option noption value nvalue fl e h)
    (param p) (bool_amended value).
Proof.
  intros Hp Hname Hval Hpass.
  apply options_of_In in Hp as [Hin Hh].
  destruct (string_dec (match value with PStr v => v | _ => "x" end) "")
    as [Hempty|Hne].
  { destruct value as [|v|i]; try discriminate. subst v.
    rewrite (assign_empty_value o option noption nvalue fl e h Hval
               (name_arg_resolves _ _ _ _ Hin Hname)).
    simpl. eexists _, _, _. reflexivity. }
  destruct (assign_recognized_value p o option noption value nvalue
              fl e h Hin Hname Hpass Hval)
    as (o1 & h1 & nv & Hnamed & Hnv & ->).
  { intros ->. now apply Hne. }
  rewrite Hh. cbn [call_handler].
  destruct value as [|v|i]; [destruct Hval| |].
  - destruct Hval as (Hv & _ & Hf). subst nv.
    rewrite bool_param_handler_string by assumption.
    unfold bool_amended.
    destruct (String.eqb_spec (lower_string v) "") as [E|_].
    { apply lower_string_nil in E. contradiction. }
    destruct (String.eqb_spec (lower_string v) "true") as [->|_].
    { cbn. stored p. }
    destruct (String.eqb_spec (lower_string v) "false") as [->|_].
    { cbn. stored p. }
    destruct (String.prefix (lower_string v) "true"); [exact I|].
    destruct (String.prefix (lower_string v) "false"); [exact I|].
    cbn. eexists _, _, _. reflexivity.
  - destruct Hval as (_ & Hf).
    rewrite bool_param_handler_int by assumption.
    unfold bool_amended, bool_stored.
    destruct (int_wrap i =? 0); cbn; stored p.
Qed.

(** ** The stale option *)

Lemma stale_param_handler_string o1 v fl e h :
  has_flag fl LCBEX_VOPT_F_OPTVAL_NUMERIC = false ->
  no_nul v = true -> v <> "" ->
  let o1' := or_flags o1 LCBEX_VOPT_F_OPTVAL_CONSTANT in
  stale_param_handler o1 (PStr v) (Z.of_nat (String.length v)) fl e h
  = if String.prefix (lower_string v) "true"
    then Some (LCB_SUCCESS,
               set_noptval (set_optval (bool_stored o1' 1) (Static "ok")) 2,
               None, h)
    else if String.prefix (lower_string v) "false"
    then Some (LCB_SUCCESS, bool_stored o1' 0, None, h)
    else if String.prefix (lower_string v) "update_after"
    then Some (LCB_SUCCESS,
               set_noptval (set_optval o1' (Static "update_after")) 12,
               Some "String must be either 'true' or 'false'", h)
    else if String.prefix (lower_string v) "ok"
    then Some (LCB_SUCCESS, set_noptval (set_optval o1' (Static "ok")) 2,
               Some "String must be either 'true' or 'false'", h)
    else Some (LCB_EINVAL, o1',
               Some "stale must be a boolean or the string 'update_after'",
               h).
Proof.
  intros Hf Hv Hne o1'. unfold stale_param_handler. fold o1'.
  rewrite bool_param_handler_string by assumption.
  destruct (String.prefix (lower_string v) "true"); [reflexivity|].
  destruct (String.prefix (lower_string v) "false"); [reflexivity|].
  cbn [mbind option_bind].
  rewrite !c_strncasecmp_eqb by (assumption || reflexivity).
  cbn [mbind option_bind].
  rewrite !strncasecmp_eqb by (assumption || reflexivity).
  reflexivity.
Qed.

Lemma stale_param_handler_int o1 i nv fl e h :
  has_flag fl LCBEX_VOPT_F_OPTVAL_NUMERIC = true ->
  let o1' := or_flags o1 LCBEX_VOPT_F_OPTVAL_CONSTANT in
  stale_param_handler o1 (PInt i) nv fl e h
  = if int_wrap i =? 0
    then Some (LCB_SUCCESS, bool_stored o1' 0, None, h)
    else Some (LCB_SUCCESS,
               set_noptval (set_optval (bool_stored o1' 1) (Static "ok")) 2,
               None, h).
Proof.
  intros Hf o1'. unfold stale_param_handler. fold o1'.
  rewrite bool_param_handler_int by assumption.
  cbn [mbind option_bind]. unfold bool_stored.
  destruct (int_wrap i =? 0); reflexivity.
Qed.

(** What holds of [stale]: [false], [ok], [update_after], in any case of
    letters, are stored as themselves in lower case, [true] as [ok], the
    number 0 as [false] and any other number (1 among them) as [ok], as C5
    says; a string that is the beginning of none of the four words is
    rejected with invalid-argument. *)
Lemma stale_option_mapping :
  forall o option noption value nvalue fl e h,
    name_arg option noption fl stale_entry ->
    value_arg value nvalue fl ->
    has_flag fl LCBEX_VOPT_F_PASSTHROUGH = false ->
    meets (lcbex_vopt_assign o option noption value nvalue fl e h)
      "stale" (stale_amended value).
Proof.
  intros o option noption value nvalue fl e h Hname Hval Hpass.
  assert (Hin : In stale_entry recognized_view_params)
    by (simpl; tauto).
  destruct (string_dec (match value with PStr v => v | _ => "x" end) "")
    as [Hempty|Hne].
  { destruct value as [|v|i]; try discriminate. subst v.
    rewrite (assign_empty_value o option noption nvalue fl e h Hval
               (name_arg_resolves _ _ _ _ Hin Hname)).
    simpl. eexists _, _, _. reflexivity. }
  destruct (assign_recognized_value stale_entry o option noption value nvalue
              fl e h Hin Hname Hpass Hval)
    as (o1 & h1 & nv & Hnamed & Hnv & ->).
  { intros ->. now apply Hne. }
  change (handler_of (ptype stale_entry)) with stale_param_handler_t.
  change (param stale_entry) with "stale" in *.
  destruct value as [|v|i]; [destruct Hval| |].
  - destruct Hval as (Hv & _ & Hf). subst nv. cbn [call_handler].
    rewrite stale_param_handler_string by assumption.
    unfold stale_amended.
    destruct (String.eqb_spec (lower_string v) "") as [E|_].
    { apply lower_string_nil in E. contradiction. }
    destruct (String.eqb_spec (lower_string v) "false") as [->|_].
    { cbn. stored stale_entry. }
    destruct (String.eqb_spec (lower_string v) "ok") as [->|_].
    { cbn. stored stale_entry. }
    destruct (String.eqb_spec (lower_string v) "update_after") as [->|_].
    { cbn. stored stale_entry. }
    destruct (String.eqb_spec (lower_string v) "true") as [->|_].
    { cbn. stored stale_entry. }
    destruct (String.prefix (lower_string v) "true"); [exact I|].
    destruct (String.prefix (lower_string v) "false"); [exact I|].
    destruct (String.prefix (lower_string v) "update_after"); [exact I|].
    destruct (String.prefix (lower_string v) "ok"); [exact I|].
    cbn. eexists _, _, _. reflexivity.
  - destruct Hval as (_ & Hf). cbn [call_handler].
    rewrite stale_param_handler_int by assumption.
    unfold stale_amended.
    destruct (int_wrap i =? 0);
      cbn; stored stale_entry.
Qed.

(** [stale] given [Update_After] by name, with the length computed. *)
Lemma stale_option_mapping_witness :
  meets
    (lcbex_vopt_assign vopt_zero (PStr "stale") SIZE_MAX
       (PStr "Update_After") SIZE_MAX 0 None ∅)
    "stale" (Emits "update_after").
Proof.
  apply (stale_option_mapping vopt_zero (PStr "stale") SIZE_MAX
           (PStr "Update_After") SIZE_MAX 0 None ∅).
  - left. split; [reflexivity|]. split; [left; reflexivity|reflexivity].
  - split; [reflexivity|]. split; [left; reflexivity|reflexivity].
  - reflexivity.
Defined.

(** C5 asks that every string other than [false], [ok], [update_after] and
    [true] be rejected.  The code does not do so: the one-byte values [o],
    [u], [t] and [f], and [Upd], are accepted and stored as [ok],
    [update_after], [ok], [false] and [update_after], because [strncasecmp]
    is bounded by the length of the value and so compares its bytes only. *)
Theorem stale_option_accepts_prefix :
  forall o e h,
    List.Forall
      (fun vw : string * string =>
         stale_claim (PStr (fst vw)) = Rejects /\
         assigned_as
           (lcbex_vopt_assign o (PStr "stale") SIZE_MAX (PStr (fst vw))
              SIZE_MAX 0 e h)
           "stale" (snd vw))
      [("o", "ok"); ("u", "update_after"); ("t", "ok"); ("f", "false");
       ("Upd", "update_after")].
Proof.
  intros o e h.
  repeat constructor; eexists _, _, _; (split; [reflexivity|]);
    repeat split.
Qed.

(** ** Numeric options *)

Lemma all_digits_whole s :
  all_digits s (Z.of_nat (String.length s)) = digits_only s.
Proof.
  induction s as [|c r IH]; [reflexivity|].
  cbn [all_digits digits_only String.length].
  replace (Z.of_nat (S (String.length r)) <=? 0) with false
    by (symmetry; apply Z.leb_gt; lia).
  replace (Z.of_nat (S (String.length r)) - 1)
    with (Z.of_nat (String.length r)) by lia.
  rewrite IH. destruct (isdigit c); reflexivity.
Qed.

Lemma set_user_string_whole o1 v fl h :
  no_nul v = true ->
  set_user_string o1 (PStr v) (Z.of_nat (String.length v)) fl h
  = Some (user_string_stored o1 v fl h).
Proof.
  intros Hv. unfold set_user_string, user_string_stored, my_strndup, malloc.
  destruct (has_flag fl LCBEX_VOPT_F_OPTVAL_CONSTANT); [reflexivity|].
  cbn [as_chars mbind option_bind].
  now rewrite Nat2Z.id, strncpy_no_nul.
Qed.

Lemma user_string_stored_spec o1 v fl h :
  let o2 := fst (user_string_stored o1 v fl h) in
  optname o2 = optname o1 /\ noptname o2 = noptname o1 /\
  chars_at (optval o2) = Some v /\
  noptval o2 = Z.of_nat (String.length v).
Proof.
  unfold user_string_stored.
  destruct (has_flag fl LCBEX_VOPT_F_OPTVAL_CONSTANT); repeat split.
Qed.

Lemma num_param_handler_string o1 v fl e h :
  has_flag fl LCBEX_VOPT_F_OPTVAL_NUMERIC = false ->
  no_nul v = true -> v <> "" ->
  num_param_handler o1 (PStr v) (Z.of_nat (String.length v)) fl e h
  = if numeric_form v
    then Some (LCB_SUCCESS, fst (user_string_stored o1 v fl h), e,
               snd (user_string_stored o1 v fl h))
    else if isdigit (first_byte v) || Ascii.eqb (first_byte v) "-"
    then Some (LCB_EINVAL, o1,
               Some "String must consist entirely of digits", h)
    else Some (LCB_EINVAL, o1,
               Some "String must consist entirely of a signed number", h).
Proof.
  intros Hf Hv Hne. unfold num_param_handler. rewrite Hf.
  assert (Hres : (if Z.of_nat (String.length v) =? SIZE_MAX
                  then c_strlen (PStr v)
                  else Some (Z.of_nat (String.length v)))
                 = Some (Z.of_nat (String.length v))).
  { destruct (Z.of_nat (String.length v) =? SIZE_MAX); [|reflexivity].
    unfold c_strlen. cbn. now rewrite strlen_no_nul. }
  rewrite Hres. cbn [mbind option_bind as_chars].
  destruct v as [|c r]; [congruence|].
  replace (Z.of_nat (String.length (String c r)) =? 0) with false
    by (symmetry; apply Z.eqb_neq; simpl; lia).
  replace (Z.of_nat (String.length (String c r)) - 1)
    with (Z.of_nat (String.length r)) by (simpl; lia).
  cbn [first_byte rest_bytes numeric_form].
  rewrite all_digits_whole, set_user_string_whole by assumption.
  destruct (isdigit c), (Ascii.eqb c "-"), (digits_only r);
    cbn [negb andb orb mbind option_bind];
    try reflexivity;
    destruct (user_string_stored o1 (String c r) fl h); reflexivity.
Qed.

Lemma num_param_handler_int o1 i nv fl e h :
  has_flag fl LCBEX_VOPT_F_OPTVAL_NUMERIC = true ->
  num_param_handler o1 (PInt i) nv fl e h
  = Some (LCB_SUCCESS,
          clear_flags
            (set_optval
               (set_noptval o1
                  (Z.of_nat (String.length (fmt_d (int_wrap i)))))
               (Block (fresh h) (fmt_d (int_wrap i))))
            LCBEX_VOPT_F_OPTVAL_CONSTANT,
          e, {[fresh h]} ∪ h).
Proof.
  intros Hf. unfold num_param_handler. rewrite Hf. reflexivity.
Qed.

(** [%d] prints decimal digits, after a ['-'] for a negative number. *)
Lemma digits_only_uint d : digits_only (NilEmpty.string_of_uint d) = true.
Proof. induction d; simpl; auto. Qed.

Lemma no_nul_digits s : digits_only s = true -> no_nul s = true.
Proof.
  induction s as [|c r IH]; [reflexivity|]. simpl.
  intros [Hc Hr]%andb_true_iff. rewrite (IH Hr), andb_true_r.
  unfold isdigit in Hc. apply andb_true_iff in Hc as [H1 _].
  apply Z.leb_le in H1. unfold is_nul.
  apply negb_true_iff, Z.eqb_neq. lia.
Qed.

Lemma fmt_d_form z :
  numeric_form (fmt_d z) = true /\ no_nul (fmt_d z) = true.
Proof.
  unfold fmt_d. destruct z as [|p|p]; cbn [Z.to_int].
  - split; reflexivity.
  - pose proof (DecimalPos.Unsigned.to_uint_nonnil p) as Hp.
    pose proof (digits_only_uint (Pos.to_uint p)) as Hd.
    cbn [NilZero.string_of_int]. unfold NilZero.string_of_uint.
    destruct (Pos.to_uint p) eqn:E; [congruence|..];
      cbn [NilEmpty.string_of_uint] in *;
      (split; [|now apply no_nul_digits]);
      simpl in Hd |- *; exact Hd.
  - pose proof (DecimalPos.Unsigned.to_uint_nonnil p) as Hp.
    pose proof (digits_only_uint (Pos.to_uint p)) as Hd.
    cbn [NilZero.string_of_int]. unfold NilZero.string_of_uint.
    destruct (Pos.to_uint p) eqn:E; [congruence|..];
      cbn [numeric_form no_nul]; rewrite ?Hd, ?(no_nul_digits _ Hd);
      split; reflexivity.
Qed.

(** Read back as a decimal number, the string [%d] prints is the number. *)
Lemma fmt_d_reads_back z :
  option_map Z.of_int (NilZero.int_of_string (fmt_d z)) = Some z.
Proof.
  unfold fmt_d. rewrite NilZero.isi.
  - simpl. now rewrite DecimalZ.of_to.
  - destruct z; simpl; try discriminate.
    intros [= H]. now apply DecimalPos.Unsigned.to_uint_nonnil in H.
  - destruct z; simpl; try discriminate.
    intros [= H]. now apply DecimalPos.Unsigned.to_uint_nonnil in H.
Qed.

(** C4: for every numeric option, given by name or by number, an [int] is
    stored as [%d] prints it, the signed decimal string that reads back as
    the number; a string is accepted if and only if it is not empty and is
    an optional ['-'] followed by digits only, and is then stored byte for
    byte; any other string is rejected with invalid-argument; and an
    [int] and the string that [%d] prints for it are stored and written
    alike. *)
Theorem numeric_option_values :
  (forall p o option noption value nvalue fl e h,
      In p (options_of num_param_handler_t) ->
      name_arg option noption fl p ->
      value_arg value nvalue fl ->
      has_flag fl LCBEX_VOPT_F_PASSTHROUGH = false ->
      meets (lcbex_vopt_assign o option noption value nvalue fl e h)
        (param p) (num_spec value))
  /\ (forall i,
        num_spec (PStr (fmt_d (int_wrap i))) = num_spec (PInt i) /\
        no_nul (fmt_d (int_wrap i)) = true /\
        option_map Z.of_int (NilZero.int_of_string (fmt_d (int_wrap i)))
        = Some (int_wrap i))
  /\ (forall p i o1 option1 noption1 nvalue1 fl1 e1 h1
             o2 option2 noption2 nvalue2 fl2 e2 h2,
        In p (options_of num_param_handler_t) ->
        name_arg option1 noption1 fl1 p ->
        value_arg (PInt i) nvalue1 fl1 ->
        has_flag fl1 LCBEX_VOPT_F_PASSTHROUGH = false ->
        name_arg option2 noption2 fl2 p ->
        value_arg (PStr (fmt_d (int_wrap i))) nvalue2 fl2 ->
        has_flag fl2 LCBEX_VOPT_F_PASSTHROUGH = false ->
        exists r1 e1' h1' r2 e2' h2',
          lcbex_vopt_assign o1 option1 noption1 (PInt i) nvalue1 fl1 e1 h1
          = Some (LCB_SUCCESS, r1, e1', h1') /\
          lcbex_vopt_assign o2 option2 noption2 (PStr (fmt_d (int_wrap i)))
            nvalue2 fl2 e2 h2
          = Some (LCB_SUCCESS, r2, e2', h2') /\
          lcbex_vqstr_write [r1] = lcbex_vqstr_write [r2]).
Proof.
  assert (Hmeets : forall p o option noption value nvalue fl e h,
      In p (options_of num_param_handler_t) ->
      name_arg option noption fl p ->
      value_arg value nvalue fl ->
      has_flag fl LCBEX_VOPT_F_PASSTHROUGH = false ->
      meets (lcbex_vopt_assign o option noption value nvalue fl e h)
        (param p) (num_spec value)); [|split; [exact Hmeets|split]].
  - intros p o option noption value nvalue fl e h Hp Hname Hval Hpass.
    apply options_of_In in Hp as [Hin Hh].
    destruct (string_dec (match value with PStr v => v | _ => "x" end) "")
      as [Hempty|Hne].
    { destruct value as [|v|i]; try discriminate. subst v.
      rewrite (assign_empty_value o option noption nvalue fl e h Hval
                 (name_arg_resolves _ _ _ _ Hin Hname)).
      simpl. eexists _, _, _. reflexivity. }
    destruct (assign_recognized_value p o option noption value nvalue
                fl e h Hin Hname Hpass Hval)
      as (o1 & h1 & nv & Hnamed & Hnv & ->).
    { intros ->. now apply Hne. }
    rewrite Hh. cbn [call_handler].
    destruct value as [|v|i]; [destruct Hval| |].
    + destruct Hval as (Hv & _ & Hf). subst nv.
      rewrite num_param_handler_string by assumption.
      unfold num_spec. destruct (numeric_form v).
      * destruct (user_string_stored_spec o1 v fl h1) as (E1 & E2 & E3 & E4).
        apply (assigned_as_intro p o1); assumption.
      * destruct (isdigit (first_byte v) || Ascii.eqb (first_byte v) "-");
          eexists _, _, _; reflexivity.
    + destruct Hval as (_ & Hf).
      rewrite num_param_handler_int by assumption.
      apply (assigned_as_intro p o1); [assumption|reflexivity..].
  - intros i. destruct (fmt_d_form (int_wrap i)) as [Hform Hnul].
    split; [|split].
    + unfold num_spec. now rewrite Hform.
    + exact Hnul.
    + apply fmt_d_reads_back.
  - intros p i o1 option1 noption1 nvalue1 fl1 e1 h1
      o2 option2 noption2 nvalue2 fl2 e2 h2 Hp Hn1 Hv1 Hp1 Hn2 Hv2 Hp2.
    pose proof (Hmeets p o1 option1 noption1 (PInt i) nvalue1 fl1 e1 h1
                  Hp Hn1 Hv1 Hp1) as H1.
    pose proof (Hmeets p o2 option2 noption2 (PStr (fmt_d (int_wrap i)))
                  nvalue2 fl2 e2 h2 Hp Hn2 Hv2 Hp2) as H2.
    unfold num_spec in H1, H2.
    rewrite (proj1 (fmt_d_form (int_wrap i))) in H2.
    destruct H1 as (r1 & e1' & h1' & Hr1 & _ & _ & _ & _ & Hw1).
    destruct H2 as (r2 & e2' & h2' & Hr2 & _ & _ & _ & _ & Hw2).
    exists r1, e1', h1', r2, e2', h2'.
    split; [exact Hr1|]. split; [exact Hr2|]. now rewrite Hw1, Hw2.
Qed.

(** [limit] given the string [-1] by name. *)
Lemma numeric_option_values_witness :
  meets
    (lcbex_vopt_assign vopt_zero (PStr "limit") SIZE_MAX (PStr "-1") SIZE_MAX
       0 None ∅)
    "limit" (Emits "-1").
Proof.
  apply (proj1 numeric_option_values
           (mk_param LCBEX_VOPT_OPT_LIMIT "limit" t_num)
           vopt_zero (PStr "limit") SIZE_MAX (PStr "-1") SIZE_MAX 0 None ∅).
  - simpl. tauto.
  - left. split; [reflexivity|]. split; [left; reflexivity|reflexivity].
  - split; [reflexivity|]. split; [left; reflexivity|reflexivity].
  - reflexivity.
Defined.

(** ** Percent-encoding *)

Lemma needs_pct_encoding_unreserved c :
  needs_pct_encoding c = negb (unreserved c).
Proof.
  unfold needs_pct_encoding, unreserved.
  destruct ((code "a" <=? code c) && (code c <=? code "z")); [reflexivity|].
  destruct ((code "A" <=? code c) && (code c <=? code "Z")); [reflexivity|].
  destruct ((code "0" <=? code c) && (code c <=? code "9")); [reflexivity|].
  cbn [orb].
  destruct (Ascii.eqb c "-" || Ascii.eqb c "_" || Ascii.eqb c ".");
    reflexivity.
Qed.

Lemma fmt_pct_02X_ok c : pct_02X_ok c = true.
Proof.
  destruct c as [[] [] [] [] [] [] [] []]; vm_compute; reflexivity.
Qed.

Lemma fmt_pct_02X_length c : String.length (fmt_pct_02X c) = 3%nat.
Proof. reflexivity. Qed.

Lemma pct_encode_length_bounds s :
  (String.length s <= String.length (pct_encode s) <= 3 * String.length s)%nat.
Proof.
  induction s as [|c r IH]; simpl; [lia|].
  rewrite length_append. destruct (unreserved c); simpl; lia.
Qed.

Lemma pct_encode_verbatim s :
  forallb unreserved (list_ascii_of_string s) = true -> pct_encode s = s.
Proof.
  induction s as [|c r IH]; simpl; [reflexivity|].
  intros [Hc Hr]%andb_true_iff. rewrite Hc. simpl. now rewrite IH.
Qed.

Lemma pct_encode_same_length s :
  String.length (pct_encode s) = String.length s ->
  forallb unreserved (list_ascii_of_string s) = true.
Proof.
  induction s as [|c r IH]; simpl; [reflexivity|].
  rewrite length_append. pose proof (pct_encode_length_bounds r) as Hb.
  destruct (unreserved c); simpl; intros H; [apply IH; lia|lia].
Qed.

Lemma size_add_small a b :
  0 <= a -> 0 <= b -> a + b <= SIZE_MAX -> size_add a b = a + b.
Proof.
  intros Ha Hb H. unfold size_add, size_wrap, SIZE_MAX in *.
  apply Z.mod_small. lia.
Qed.

Lemma needed_size_loop_spec s acc :
  0 <= acc -> acc + 3 * Z.of_nat (String.length s) <= SIZE_MAX ->
  needed_size_loop s acc = acc + Z.of_nat (String.length (pct_encode s)).
Proof.
  revert acc. induction s as [|c r IH]; intros acc Ha Hb.
  - simpl. lia.
  - cbn [needed_size_loop pct_encode]. rewrite needs_pct_encoding_unreserved.
    cbn [String.length] in Hb. rewrite length_append.
    destruct (unreserved c); cbn [negb];
      rewrite size_add_small by lia; rewrite IH by lia; simpl; lia.
Qed.

Lemma do_pct_encode_loop_spec s out d_len :
  0 <= d_len -> d_len + 3 * Z.of_nat (String.length s) <= SIZE_MAX ->
  do_pct_encode_loop true s out d_len
  = (out ++ pct_encode s, d_len + Z.of_nat (String.length (pct_encode s))).
Proof.
  revert out d_len. induction s as [|c r IH]; intros out d_len Ha Hb.
  - simpl. rewrite append_nil_r. f_equal. lia.
  - cbn [do_pct_encode_loop pct_encode]. rewrite needs_pct_encoding_unreserved.
    cbn [String.length] in Hb. rewrite length_append.
    destruct (unreserved c); cbn [negb];
      rewrite size_add_small by lia; rewrite IH by lia;
      rewrite append_assoc; f_equal; simpl; lia.
Qed.

Lemma string_param_handler_string o1 v fl e h :
  has_flag fl LCBEX_VOPT_F_OPTVAL_NUMERIC = false ->
  no_nul v = true -> v <> "" ->
  3 * Z.of_nat (String.length v) < SIZE_MAX ->
  string_param_handler o1 (PStr v) (Z.of_nat (String.length v)) fl e h
  = let stored :=
      if has_flag fl LCBEX_VOPT_F_PCTENCODE
      then if forallb unreserved (list_ascii_of_string v)
           then user_string_stored o1 v fl h
           else encoded_stored o1 v h
      else user_string_stored o1 v fl h in
    Some (LCB_SUCCESS, fst stored, e, snd stored).
Proof.
  intros Hf Hv Hne Hsz. unfold string_param_handler. rewrite Hf.
  rewrite set_user_string_whole by assumption.
  destruct (has_flag fl LCBEX_VOPT_F_PCTENCODE); cbn [negb].
  2:{ cbn. now destruct (user_string_stored o1 v fl h). }
  replace (Z.of_nat (String.length v) =? 0) with false
    by (symmetry; apply Z.eqb_neq; destruct v; [congruence|simpl; lia]).
  cbn [as_chars mbind option_bind].
  rewrite Nat2Z.id, read_bytes_full. cbn [mbind option_bind].
  rewrite needed_size_loop_spec by lia. rewrite Z.add_0_l.
  pose proof (pct_encode_length_bounds v) as Hb.
  destruct (forallb unreserved (list_ascii_of_string v)) eqn:Hall.
  - rewrite (pct_encode_verbatim _ Hall), Z.eqb_refl.
    cbn. now destruct (user_string_stored o1 v fl h).
  - destruct (Z.of_nat (String.length (pct_encode v))
              =? Z.of_nat (String.length v)) eqn:E.
    { apply Z.eqb_eq, Nat2Z.inj, pct_encode_same_length in E. congruence. }
    unfold malloc, do_pct_encode.
    rewrite Nat2Z.id, read_bytes_full. cbn [mbind option_bind].
    rewrite do_pct_encode_loop_spec by lia.
    cbn [String.append]. rewrite Z.add_0_l.
    rewrite size_add_small by lia.
    replace (Z.of_nat (String.length (pct_encode v)) + 1
             <=? Z.of_nat (String.length (pct_encode v)) + 1) with true
      by (symmetry; apply Z.leb_le; lia).
    reflexivity.
Qed.

Lemma string_param_handler_int o1 i nv fl e h :
  has_flag fl LCBEX_VOPT_F_OPTVAL_NUMERIC = true ->
  string_param_handler o1 (PInt i) nv fl e h
  = Some (LCB_EINVAL, o1, Some "Option requires a string value", h).
Proof.
  intros Hf. unfold string_param_handler. now rewrite Hf.
Qed.

Lemma string_handler_meets p o1 v fl e h :
  named o1 p ->
  has_flag fl LCBEX_VOPT_F_OPTVAL_NUMERIC = false ->
  no_nul v = true -> v <> "" ->
  3 * Z.of_nat (String.length v) < SIZE_MAX ->
  assigned_as
    (string_param_handler o1 (PStr v) (Z.of_nat (String.length v)) fl e h)
    (param p)
    (if has_flag fl LCBEX_VOPT_F_PCTENCODE then pct_encode v else v).
Proof.
  intros Hnamed Hf Hv Hne Hsz.
  rewrite string_param_handler_string by assumption.
  destruct (user_string_stored_spec o1 v fl h) as (E1 & E2 & E3 & E4).
  destruct (has_flag fl LCBEX_VOPT_F_PCTENCODE); cbn zeta.
  - destruct (forallb unreserved (list_ascii_of_string v)) eqn:Hall.
    + rewrite (pct_encode_verbatim _ Hall).
      apply (assigned_as_intro p o1); assumption.
    + apply (assigned_as_intro p o1); [assumption|reflexivity..].
  - apply (assigned_as_intro p o1); assumption.
Qed.

(** C7: a byte needs escaping exactly when it is not a letter, a digit,
    ['-'], ['_'] or ['.']; an escaped byte is written as ['%'] and its two
    upper-case hexadecimal digits; a string option given with
    [LCBEX_VOPT_F_PCTENCODE] stores the value with every byte that needs it
    escaped and every other byte as it is, and a value no byte of which
    needs escaping is stored unchanged. *)
Theorem percent_encoding_of_string_options :
  (forall c, needs_pct_encoding c = negb (unreserved c))
  /\ (forall c, pct_02X_ok c = true)
  /\ (forall p o option noption value nvalue fl e h,
        In p (options_of string_param_handler_t) ->
        name_arg option noption fl p ->
        value_arg value nvalue fl -> value_fits value ->
        has_flag fl LCBEX_VOPT_F_PASSTHROUGH = false ->
        meets (lcbex_vopt_assign o option noption value nvalue fl e h)
          (param p) (string_spec fl value))
  /\ (forall v,
        forallb unreserved (list_ascii_of_string v) = true ->
        pct_encode v = v).
Proof.
  split; [exact needs_pct_encoding_unreserved|].
  split; [exact fmt_pct_02X_ok|].
  split; [|exact pct_encode_verbatim].
  intros p o option noption value nvalue fl e h Hp Hname Hval Hfit Hpass.
  apply options_of_In in Hp as [Hin Hh].
  destruct (string_dec (match value with PStr v => v | _ => "x" end) "")
    as [Hempty|Hne].
  { destruct value as [|v|i]; try discriminate. subst v.
    rewrite (assign_empty_value o option noption nvalue fl e h Hval
               (name_arg_resolves _ _ _ _ Hin Hname)).
    simpl. eexists _, _, _. reflexivity. }
  destruct (assign_recognized_value p o option noption value nvalue
              fl e h Hin Hname Hpass Hval)
    as (o1 & h1 & nv & Hnamed & Hnv & ->).
  { intros ->. now apply Hne. }
  rewrite Hh. cbn [call_handler].
  destruct value as [|v|i]; [destruct Hval| |].
  - destruct Hval as (Hv & _ & Hf). subst nv. unfold string_spec.
    destruct (String.eqb_spec v "") as [->|_]; [congruence|].
    pose proof (string_handler_meets p o1 v fl e h1 Hnamed Hf Hv Hne Hfit)
      as H.
    destruct (has_flag fl LCBEX_VOPT_F_PCTENCODE); exact H.
  - destruct Hval as (_ & Hf).
    rewrite string_param_handler_int by assumption.
    eexists _, _, _. reflexivity.
Qed.

(** [startkey_docid] given [a space] with the encoding asked for. *)
Lemma percent_encoding_of_string_options_witness :
  meets
    (lcbex_vopt_assign vopt_zero (PStr "startkey_docid") SIZE_MAX
       (PStr "a space") SIZE_MAX LCBEX_VOPT_F_PCTENCODE None ∅)
    "startkey_docid" (Emits "a%20space")
  /\ pct_encode "limit" = "limit".
Proof.
  destruct percent_encoding_of_string_options as (_ & _ & Hmeets & Hverb).
  split.
  - apply (Hmeets
             (mk_param LCBEX_VOPT_OPT_STARTKEY_DOCID "startkey_docid" t_string)
             vopt_zero (PStr "startkey_docid") SIZE_MAX (PStr "a space")
             SIZE_MAX LCBEX_VOPT_F_PCTENCODE None ∅).
    + simpl. tauto.
    + left. split; [reflexivity|]. split; [left; reflexivity|reflexivity].
    + split; [reflexivity|]. split; [left; reflexivity|reflexivity].
    + reflexivity.
    + reflexivity.
  - apply Hverb. reflexivity.
Defined.

(** ** Unrecognized names and passthrough *)

Lemma find_no_prefix name table :
  no_nul name = true ->
  existsb (fun p => String.prefix name (param p)) table = false ->
  List.find (fun ret =>
               strncmp name (param ret) (Z.of_nat (String.length name)) =? 0)
    table = None.
Proof.
  intros Hn. induction table as [|ret table IH]; simpl; [reflexivity|].
  intros [H1 H2]%orb_false_iff.
  destruct (strncmp name (param ret) (Z.of_nat (String.length name)) =? 0)
    eqn:E.
  - apply Z.eqb_eq, strncmp_prefix in E; [congruence|assumption].
  - now apply IH.
Qed.

Lemma has_flag_passthrough_other fl F :
  Z.land LCBEX_VOPT_F_PASSTHROUGH F = 0 ->
  has_flag (Z.lor fl LCBEX_VOPT_F_PASSTHROUGH) F = has_flag fl F.
Proof. apply has_flag_or_other. Qed.

(** C2, amended: a name that is not empty and is not the beginning of the
    name of any entry of the registry, given with a well-formed value that
    is not the empty string, is refused with invalid-argument and
    [Unrecognized option] without the passthrough flag; with the flag the
    assignment succeeds and the record holds the name byte for byte, so
    that it is written as given. *)
Theorem unrecognized_name_needs_passthrough :
  forall o name noption value nvalue fl e h,
    no_nul name = true -> name <> "" -> len_arg name noption ->
    begins_an_option name = false ->
    value_arg value nvalue fl -> value <> PStr "" -> value_fits value ->
    has_flag fl LCBEX_VOPT_F_PASSTHROUGH = false ->
    has_flag fl LCBEX_VOPT_F_OPTNAME_NUMERIC = false ->
    lcbex_vopt_assign o (PStr name) noption value nvalue fl e h
    = Some (LCB_EINVAL, set_flags vopt_zero fl, Some "Unrecognized option", h)
    /\ (exists val o' e' h',
          lcbex_vopt_assign o (PStr name) noption value nvalue
            (Z.lor fl LCBEX_VOPT_F_PASSTHROUGH) e h
          = Some (LCB_SUCCESS, o', e', h') /\
          assigned_as (Some (LCB_SUCCESS, o', e', h')) name val /\
          lcbex_vqstr_write [o']
          = Some ("?" ++ name ++ "=" ++ val,
                  Z.of_nat (String.length ("?" ++ name ++ "=" ++ val)))).
Proof.
  intros o name noption value nvalue fl e h Hn Hne Hl Hpre Hval Hv0 Hfit
    Hpass Hnum.
  assert (Hl0 : (Z.of_nat (String.length name) =? 0) = false).
  { apply Z.eqb_neq. destruct name; [congruence|simpl; lia]. }
  assert (Hres : exists nv,
             (if nvalue =? SIZE_MAX then c_strlen value else Some nvalue)
             = Some nv /\
             (has_flag fl LCBEX_VOPT_F_OPTVAL_NUMERIC = false -> nv <> 0) /\
             match value with
             | PStr v => nv = Z.of_nat (String.length v)
             | _ => True
             end).
  { destruct value as [|v|i]; [destruct Hval| |].
    - destruct Hval as (Hvn & Hvl & Hvf).
      exists (Z.of_nat (String.length v)). split; [|split].
      + now apply len_arg_resolve.
      + intros _. destruct v; [congruence|simpl; lia].
      + reflexivity.
    - destruct Hval as (Hvn & Hvf). exists nvalue. split; [|split].
      + apply Z.eqb_neq in Hvn. now rewrite Hvn.
      + congruence.
      + exact I. }
  destruct Hres as (nv & Hnv & Hnz & Hnvlen).
  assert (Hv0' : forall f, has_flag f LCBEX_VOPT_F_OPTVAL_NUMERIC
                           = has_flag fl LCBEX_VOPT_F_OPTVAL_NUMERIC ->
                 negb (has_flag f LCBEX_VOPT_F_OPTVAL_NUMERIC) && (nv =? 0)
                 = false).
  { intros f ->. destruct (has_flag fl LCBEX_VOPT_F_OPTVAL_NUMERIC);
      [reflexivity|]. simpl. apply Z.eqb_neq. now apply Hnz. }
  split.
  - unfold lcbex_vopt_assign. rewrite Hnv. cbn [mbind option_bind].
    rewrite (len_arg_resolve _ _ Hn Hl). cbn [mbind option_bind].
    rewrite (Hv0' fl eq_refl), Hnum, Hpass, Hl0. cbn [negb andb].
    unfold find_view_param.
    rewrite find_view_param_from_name
      by (assumption || (apply Z.eqb_neq; assumption)).
    rewrite find_no_prefix by assumption. reflexivity.
  - set (fl' := Z.lor fl LCBEX_VOPT_F_PASSTHROUGH).
    assert (Hp' : has_flag fl' LCBEX_VOPT_F_PASSTHROUGH = true)
      by (apply has_flag_or_same; discriminate).
    assert (Hnum' : has_flag fl' LCBEX_VOPT_F_OPTNAME_NUMERIC = false)
      by (unfold fl'; rewrite has_flag_passthrough_other;
          [assumption|reflexivity]).
    assert (Hvn' : has_flag fl' LCBEX_VOPT_F_OPTVAL_NUMERIC
                   = has_flag fl LCBEX_VOPT_F_OPTVAL_NUMERIC)
      by (apply has_flag_passthrough_other; reflexivity).
    assert (Hnamed : named (passthrough_named name h)
                       (mk_param 0 name t_string))
      by (repeat split).
    assert (Hstep :
              lcbex_vopt_assign o (PStr name) noption value nvalue fl' e h
              = if has_flag fl LCBEX_VOPT_F_OPTVAL_NUMERIC
                then num_param_handler (passthrough_named name h) value nv
                       fl' e ({[fresh h]} ∪ h)
                else string_param_handler (passthrough_named name h) value
                       nv fl' e ({[fresh h]} ∪ h)).
    { unfold lcbex_vopt_assign. rewrite Hnv. cbn [mbind option_bind].
      rewrite (len_arg_resolve _ _ Hn Hl). cbn [mbind option_bind].
      rewrite (Hv0' fl' Hvn'), Hnum', Hp', Hl0. cbn [negb andb].
      cbn [as_chars mbind option_bind]. unfold my_strndup, malloc.
      rewrite Nat2Z.id, strncpy_no_nul by assumption.
      rewrite Hvn'. reflexivity. }
    assert (Hres : exists val,
               assigned_as
                 (lcbex_vopt_assign o (PStr name) noption value nvalue fl' e h)
                 name val).
    { rewrite Hstep. destruct value as [|v|i]; [destruct Hval| |].
      - destruct Hval as (Hvn & _ & Hvf). rewrite Hvf. subst nv.
        eexists.
        apply (string_handler_meets (mk_param 0 name t_string));
          try assumption.
        + congruence.
        + intros ->. now apply Hv0.
      - destruct Hval as (_ & Hvf). rewrite Hvf.
        rewrite num_param_handler_int by congruence.
        eexists.
        apply (assigned_as_intro (mk_param 0 name t_string)
                 (passthrough_named name h));
          [assumption|reflexivity..]. }
    destruct Hres as (val & Hassigned).
    destruct (assigned_as_serialized _ _ _ Hassigned)
      as (o' & e' & h' & Heq & Hw).
    exists val, o', e', h'. rewrite <- Heq. auto.
Qed.

(** [dummy_option=dummy_value], the pair of the unit test. *)
Lemma unrecognized_name_needs_passthrough_witness :
  lcbex_vopt_assign vopt_zero (PStr "dummy_option") SIZE_MAX
    (PStr "dummy_value") SIZE_MAX 0 None ∅
  = Some (LCB_EINVAL, set_flags vopt_zero 0, Some "Unrecognized option", ∅)
  /\ (exists val o' e' h',
        lcbex_vopt_assign vopt_zero (PStr "dummy_option") SIZE_MAX
          (PStr "dummy_value") SIZE_MAX
          (Z.lor 0 LCBEX_VOPT_F_PASSTHROUGH) None ∅
        = Some (LCB_SUCCESS, o', e', h') /\
        assigned_as (Some (LCB_SUCCESS, o', e', h')) "dummy_option" val /\
        lcbex_vqstr_write [o']
        = Some ("?" ++ "dummy_option" ++ "=" ++ val,
                Z.of_nat
                  (String.length ("?" ++ "dummy_option" ++ "=" ++ val)))).
Proof.
  apply (unrecognized_name_needs_passthrough vopt_zero "dummy_option"
           SIZE_MAX (PStr "dummy_value") SIZE_MAX 0 None ∅).
  - reflexivity.
  - discriminate.
  - left; reflexivity.
  - reflexivity.
  - split; [reflexivity|]. split; [left; reflexivity|reflexivity].
  - discriminate.
  - reflexivity.
  - reflexivity.
  - reflexivity.
Defined.

(** C2 as stated fails.  The empty name is in no registry: without the
    flag it is refused as a missing length, not as an unrecognized option,
    and with the flag it is refused as well.  And [sta], which is no name
    of the registry but begins [stale], is not refused. *)
Lemma unrecognized_claim_fails :
  ~ unrecognized_claim "" (PStr "x") 0 vopt_zero None ∅
  /\ lcbex_vopt_assign vopt_zero (PStr "") SIZE_MAX (PStr "x") SIZE_MAX 0
       None ∅
     = Some (LCB_EINVAL, vopt_zero, Some "Missing option name length", ∅)
  /\ lcbex_vopt_assign vopt_zero (PStr "") SIZE_MAX (PStr "x") SIZE_MAX
       LCBEX_VOPT_F_PASSTHROUGH None ∅
     = Some (LCB_EINVAL, vopt_zero, Some "Missing option name length", ∅)
  /\ ~ unrecognized_claim "sta" (PStr "false") 0 vopt_zero None ∅.
Proof.
  split; [|split; [reflexivity|split; [reflexivity|]]].
  - intros [(o' & h' & H) _]. discriminate.
  - intros [(o' & h' & H) _]. discriminate.
Qed.

(** ** The size and the text of the query string *)

Lemma query_size_nonneg options :
  Forall readable options -> 0 <= query_size options.
Proof.
  induction 1 as [|r options (_ & _ & H1 & H2) _ IH]; simpl; lia.
Qed.

Lemma size_wrap_add_l a b : size_wrap (size_wrap a + b) = size_wrap (a + b).
Proof. unfold size_wrap. apply Z.add_mod_idemp_l. lia. Qed.

(** Up to the wrap-around, [lcbex_vqstr_calc_len] counts the bytes written
    and two more. *)
Lemma calc_len_loop_wrap options ret k :
  size_wrap (calc_len_loop options ret + k)
  = size_wrap (ret + query_size options + k).
Proof.
  revert ret. induction options as [|r options IH]; intros ret; simpl.
  - f_equal. lia.
  - rewrite IH. unfold size_add.
    repeat (rewrite <- Z.add_assoc || rewrite size_wrap_add_l).
    reflexivity.
Qed.

Lemma lcbex_vqstr_calc_len_wrap options :
  lcbex_vqstr_calc_len options = size_wrap (query_size options + 2).
Proof.
  unfold lcbex_vqstr_calc_len, size_add. rewrite calc_len_loop_wrap.
  f_equal. lia.
Qed.

Lemma chop_length s :
  String.length (chop s) = (String.length s - 1)%nat.
Proof.
  induction s as [|c r IH]; [reflexivity|].
  destruct r as [|c' r']; [reflexivity|].
  change (chop (String c (String c' r')))
    with (String c (chop (String c' r'))).
  cbn [String.length] in *. lia.
Qed.

Lemma memcpy_src_length p n t :
  0 <= n -> memcpy_src p n = Some t -> Z.of_nat (String.length t) = n.
Proof.
  intros Hn. unfold memcpy_src. destruct (chars_at p) as [s|]; [|discriminate].
  cbn [mbind option_bind]. intros H%read_bytes_length. lia.
Qed.

Lemma write_loop_length options buf :
  Forall readable options ->
  exists out,
    write_loop options buf = Some out /\
    Z.of_nat (String.length out)
    = Z.of_nat (String.length buf) + query_size options.
Proof.
  intros H. revert buf.
  induction H as [|r options ([name Hn] & [val Hv] & H1 & H2) _ IH];
    intros buf.
  - exists buf. split; [reflexivity|]. simpl. lia.
  - cbn [write_loop]. rewrite Hn, Hv. cbn [mbind option_bind].
    destruct (IH (buf ++ name ++ "=" ++ val ++ "&")) as (out & -> & Hlen).
    exists out. split; [reflexivity|]. rewrite Hlen.
    apply (memcpy_src_length _ _ _ H1) in Hn.
    apply (memcpy_src_length _ _ _ H2) in Hv.
    rewrite !length_append. cbn [String.length query_size]. lia.
Qed.

(** On readable records [lcbex_vqstr_write] returns, and returns the
    number of bytes it left before the terminator. *)
Lemma lcbex_vqstr_write_length options :
  Forall readable options ->
  exists q,
    lcbex_vqstr_write options = Some (q, Z.of_nat (String.length q)) /\
    Z.of_nat (String.length q) = query_size options.
Proof.
  intros H. unfold lcbex_vqstr_write.
  destruct (write_loop_length options "?" H) as (out & -> & Hlen).
  cbn [mbind option_bind]. exists (chop out). split; [reflexivity|].
  rewrite chop_length. pose proof (query_size_nonneg _ H).
  cbn [String.length] in Hlen. lia.
Qed.

(** C8, amended: for every list of readable option records, of any length,
    whose query string with its ['?'] and its terminator is no longer than
    [SIZE_MAX] bytes, [lcbex_vqstr_write] returns a length that is at most
    what [lcbex_vqstr_calc_len] returns minus one; it is that value minus
    two. *)
Theorem write_fits_calc_len :
  forall options,
    Forall readable options ->
    query_size options + 2 <= SIZE_MAX ->
    exists q n,
      lcbex_vqstr_write options = Some (q, n) /\
      n = Z.of_nat (String.length q) /\
      n = lcbex_vqstr_calc_len options - 2 /\
      n <= lcbex_vqstr_calc_len options - 1.
Proof.
  intros options Hr Hsz.
  destruct (lcbex_vqstr_write_length options Hr) as (q & Hw & Hlen).
  exists q, (Z.of_nat (String.length q)).
  pose proof (query_size_nonneg _ Hr) as H0.
  assert (Hc : lcbex_vqstr_calc_len options = query_size options + 2).
  { rewrite lcbex_vqstr_calc_len_wrap. unfold size_wrap, SIZE_MAX in *.
    apply Z.mod_small. lia. }
  repeat split; [assumption|lia..].
Qed.

(** Two records, [stale=false] and [startkey_docid=a%20space]: 37 bytes
    are written and [calc_len] gives 39. *)
Lemma write_fits_calc_len_witness :
  exists q n,
    lcbex_vqstr_write [stale_false; docid_a_space] = Some (q, n) /\
    n = Z.of_nat (String.length q) /\
    n = lcbex_vqstr_calc_len [stale_false; docid_a_space] - 2 /\
    n <= lcbex_vqstr_calc_len [stale_false; docid_a_space] - 1.
Proof.
  apply (write_fits_calc_len [stale_false; docid_a_space]).
  - repeat constructor; try (eexists; reflexivity); discriminate.
  - vm_compute. discriminate.
Defined.

Lemma rep_string_length n c : String.length (rep_string n c) = n.
Proof. induction n as [|n IH]; simpl; [reflexivity|]. now rewrite IH. Qed.

Lemma read_bytes_rep n c :
  read_bytes (rep_string n c) n = Some (rep_string n c).
Proof.
  pose proof (read_bytes_full (rep_string n c)) as H.
  now rewrite rep_string_length in H.
Qed.

Lemma query_size_repeat r n :
  query_size (repeat r n) = Z.of_nat n * (noptname r + noptval r + 2).
Proof.
  induction n as [|n IH]; [reflexivity|].
  cbn [repeat query_size]. rewrite IH. lia.
Qed.

Lemma long_record_readable : readable long_record.
Proof.
  unfold readable, long_record, memcpy_src, long_name.
  cbn [optname optval noptname noptval chars_at mbind option_bind].
  rewrite read_bytes_rep.
  split; [eexists; reflexivity|].
  split; [eexists; reflexivity|]. lia.
Qed.

Lemma long_list_size : query_size long_list = SIZE_MAX.
Proof.
  unfold long_list. rewrite query_size_repeat.
  rewrite Z2Nat.id by lia. reflexivity.
Qed.

(** C8 as stated fails: the query string of [long_list] takes [2^64 - 1]
    bytes after the ['?'], the sum in [lcbex_vqstr_calc_len] wraps around
    to 1, and [lcbex_vqstr_write] returns [SIZE_MAX]. *)
Lemma calc_len_wraps_around :
  Forall readable long_list /\
  lcbex_vqstr_calc_len long_list = 1 /\
  exists q,
    lcbex_vqstr_write long_list = Some (q, SIZE_MAX) /\
    ~ SIZE_MAX <= lcbex_vqstr_calc_len long_list - 1.
Proof.
  assert (Hr : Forall readable long_list).
  { unfold long_list. apply Forall_forall. intros r Hin.
    apply list_elem_of_In, repeat_spec in Hin. subst r.
    apply long_record_readable. }
  assert (Hc : lcbex_vqstr_calc_len long_list = 1).
  { rewrite lcbex_vqstr_calc_len_wrap, long_list_size. reflexivity. }
  split; [exact Hr|]. split; [exact Hc|].
  destruct (lcbex_vqstr_write_length long_list Hr) as (q & Hw & Hlen).
  rewrite long_list_size in Hlen. rewrite Hlen in Hw.
  exists q. split; [exact Hw|]. rewrite Hc. unfold SIZE_MAX. lia.
Qed.

(** ** The URI *)

Lemma int_wrap_small n : 0 <= n < 2 ^ 31 -> int_wrap n = n.
Proof.
  intros H. unfold int_wrap.
  rewrite Z.mod_small; lia.
Qed.

Lemma fmt_prec_s_whole s :
  no_nul s = true ->
  fmt_prec_s (Z.of_nat (String.length s)) s = s.
Proof.
  intros Hs. unfold fmt_prec_s.
  replace (Z.of_nat (String.length s) <? 0) with false
    by (symmetry; apply Z.ltb_ge; lia).
  now rewrite c_string_no_nul, Nat2Z.id, take_bytes_full.
Qed.

Lemma view_path_length design view :
  Z.of_nat (String.length (view_path design view))
  = Z.of_nat (String.length design) + Z.of_nat (String.length view) + 15.
Proof.
  unfold view_path.
  change ("_design/" ++ design ++ "/_view/" ++ view)
    with ("_design/" ++ (design ++ "/_view/" ++ view)).
  rewrite (length_append "_design/"), (length_append design).
  rewrite (length_append "/_view/"). simpl String.length. lia.
Qed.

(** On names and options that are as the function expects them, and of a
    size that the sums of [lcbex_vqstr_make_uri] hold, the result is the
    path followed by what [lcbex_vqstr_write] writes. *)
Lemma lcbex_vqstr_make_uri_spec design ndesign view nview options h q n :
  no_nul design = true -> len_arg design ndesign ->
  no_nul view = true -> len_arg view nview ->
  Z.of_nat (String.length (view_path design view)) < 2 ^ 31 ->
  Forall readable options ->
  query_size options
  + Z.of_nat (String.length (view_path design view)) + 3 <= SIZE_MAX ->
  lcbex_vqstr_write options = Some (q, n) ->
  lcbex_vqstr_make_uri (PStr design) ndesign (PStr view) nview options h
  = Some (Block (fresh h) (view_path design view ++ q), {[fresh h]} ∪ h).
Proof.
  intros Hd Hld Hv Hlv Hp Hr Hsz Hw.
  pose proof (view_path_length design view) as Hpl.
  unfold lcbex_vqstr_make_uri.
  rewrite (len_arg_resolve _ _ Hd Hld), (len_arg_resolve _ _ Hv Hlv).
  cbn [mbind option_bind as_chars].
  rewrite !int_wrap_small by lia.
  rewrite !fmt_prec_s_whole by assumption.
  fold (view_path design view).
  replace (2 ^ 31 <=? Z.of_nat (String.length (view_path design view)))
    with false by (symmetry; apply Z.leb_gt; lia).
  unfold malloc. rewrite Hw. cbn [mbind option_bind].
  destruct (lcbex_vqstr_write_length options Hr) as (q' & Hw' & Hlen).
  rewrite Hw in Hw'. injection Hw' as -> ->.
  pose proof (query_size_nonneg _ Hr) as H0.
  rewrite lcbex_vqstr_calc_len_wrap.
  unfold size_add.
  rewrite (Z.add_comm (size_wrap (query_size options + 2))), size_wrap_add_l.
  rewrite (Z.add_comm _ (size_wrap (query_size options + 2))).
  rewrite size_wrap_add_l.
  unfold size_wrap. rewrite Z.mod_small by (unfold SIZE_MAX in Hsz; lia).
  rewrite Hlen.
  replace (Z.of_nat (String.length (view_path design view))
           + query_size options + 1
           <=? query_size options + 2
               + (Z.of_nat (String.length (view_path design view)) + 1))
    with true by (symmetry; apply Z.leb_le; lia).
  reflexivity.
Qed.

(** C6: the two options of the unit test, assigned from any state and put
    behind [ddoc] and [vdoc], give the URI of the spec; and in general the
    URI is [_design/<design>/_view/<view>] followed by what
    [lcbex_vqstr_write] writes for the options. *)
Theorem make_uri_writes_path_and_query :
  (forall e h,
     exists stale_opt docid_opt e1 e2 h1 h2 b h3,
       lcbex_vopt_assign vopt_zero (PStr "stale") SIZE_MAX (PStr "false")
         SIZE_MAX 0 e h
       = Some (LCB_SUCCESS, stale_opt, e1, h1) /\
       lcbex_vopt_assign vopt_zero (PStr "startkey_docid") SIZE_MAX
         (PStr "a space") SIZE_MAX LCBEX_VOPT_F_PCTENCODE e1 h1
       = Some (LCB_SUCCESS, docid_opt, e2, h2) /\
       lcbex_vqstr_make_uri (PStr "ddoc") SIZE_MAX (PStr "vdoc") SIZE_MAX
         [stale_opt; docid_opt] h2
       = Some
           (Block b
              "_design/ddoc/_view/vdoc?stale=false&startkey_docid=a%20space",
            h3))
  /\ (forall design ndesign view nview options h q n,
        no_nul design = true -> len_arg design ndesign ->
        no_nul view = true -> len_arg view nview ->
        Z.of_nat (String.length (view_path design view)) < 2 ^ 31 ->
        Forall readable options ->
        query_size options
        + Z.of_nat (String.length (view_path design view)) + 3 <= SIZE_MAX ->
        lcbex_vqstr_write options = Some (q, n) ->
        lcbex_vqstr_make_uri (PStr design) ndesign (PStr view) nview options h
        = Some (Block (fresh h)
                  ("_design/" ++ design ++ "/_view/" ++ view ++ q),
                {[fresh h]} ∪ h)).
Proof.
  split.
  - intros e h. eexists _, _, _, _, _, _, _, _.
    split; [reflexivity|]. split; reflexivity.
  - intros design ndesign view nview options h q n Hd Hld Hv Hlv Hp Hr Hsz Hw.
    rewrite (lcbex_vqstr_make_uri_spec design ndesign view nview options h q n)
      by assumption.
    unfold view_path. now rewrite !append_assoc.
Qed.

Lemma make_uri_writes_path_and_query_witness :
  lcbex_vqstr_make_uri (PStr "ddoc") SIZE_MAX (PStr "vdoc") SIZE_MAX
    [stale_false; docid_a_space] {[0%nat; 1%nat; 2%nat]}
  = Some
      (Block (fresh ({[0%nat; 1%nat; 2%nat]} : heap))
         ("_design/" ++ "ddoc" ++ "/_view/" ++ "vdoc"
          ++ "?stale=false&startkey_docid=a%20space"),
       {[fresh ({[0%nat; 1%nat; 2%nat]} : heap)]} ∪ {[0%nat; 1%nat; 2%nat]}).
Proof.
  apply (proj2 make_uri_writes_path_and_query "ddoc" SIZE_MAX "vdoc" SIZE_MAX
           [stale_false; docid_a_space] {[0%nat; 1%nat; 2%nat]}
           "?stale=false&startkey_docid=a%20space" 37).
  - reflexivity.
  - left; reflexivity.
  - reflexivity.
  - left; reflexivity.
  - reflexivity.
  - repeat constructor; try (eexists; reflexivity); vm_compute; discriminate.
  - vm_compute. discriminate.
  - reflexivity.
Defined.

(** ** Bulk creation *)

Lemma fresh_twice (h : heap) : fresh h <> fresh ({[fresh h]} ∪ h).
Proof.
  pose proof (is_fresh ({[fresh h]} ∪ h)) as H. intros E.
  rewrite <- E in H. set_solver.
Qed.

(** A handler called as [lcbex_vopt_createv] has it called, with no flag
    and a string: the name stays; the value is left alone on failure, and
    on success it is a literal marked constant or a fresh block not marked
    so. *)
Lemma call_handler_pair hd o v nv e h rc o' e' h' :
  flags o = 0 ->
  call_handler hd o (PStr v) nv 0 e h = Some (rc, o', e', h') ->
  optname o' = optname o /\
  has_flag (flags o') LCBEX_VOPT_F_OPTNAME_CONSTANT = false /\
  ((rc = LCB_EINVAL /\ h' = h /\ optval o' = optval o) \/
   (rc = LCB_SUCCESS /\ h' = h /\ (exists s, optval o' = Static s) /\
    has_flag (flags o') LCBEX_VOPT_F_OPTVAL_CONSTANT = true) \/
   (rc = LCB_SUCCESS /\ (exists s, optval o' = Block (fresh h) s) /\
    has_flag (flags o') LCBEX_VOPT_F_OPTVAL_CONSTANT = false /\
    h' = {[fresh h]} ∪ h)).
Proof.
  intros Hfl.
  destruct hd; simpl;
    unfold bool_param_handler, num_param_handler, string_param_handler,
      stale_param_handler, bool_param_handler, onerror_param_handler,
      set_user_string, my_strndup, malloc;
    change (has_flag 0 LCBEX_VOPT_F_OPTVAL_NUMERIC) with false;
    change (has_flag 0 LCBEX_VOPT_F_PCTENCODE) with false;
    change (has_flag 0 LCBEX_VOPT_F_OPTVAL_CONSTANT) with false;
    cbn [negb]; intros H;
    repeat (case_match || simplify_option_eq);
    cbn [optname optval flags set_optname set_optval set_noptval set_flags
         or_flags clear_flags];
    rewrite ?Hfl;
    (split; [reflexivity|]); (split; [reflexivity|]);
    first [ left; repeat split; reflexivity
          | right; left; repeat split; try reflexivity; eexists; reflexivity
          | right; right; repeat split; try reflexivity; eexists;
            reflexivity ].
Qed.

(** With a string of non-zero length every handler returns. *)
Lemma call_handler_pair_total hd o v nv e h :
  nv <> 0 ->
  is_Some (call_handler hd o (PStr v) nv 0 e h).
Proof.
  intros Hnv. apply Z.eqb_neq in Hnv.
  destruct hd; simpl;
    unfold bool_param_handler, num_param_handler, string_param_handler,
      stale_param_handler, bool_param_handler, onerror_param_handler,
      set_user_string, my_strndup, malloc, c_strncasecmp, c_strlen;
    change (has_flag 0 LCBEX_VOPT_F_OPTVAL_NUMERIC) with false;
    change (has_flag 0 LCBEX_VOPT_F_PCTENCODE) with false;
    change (has_flag 0 LCBEX_VOPT_F_OPTVAL_CONSTANT) with false;
    rewrite ?Hnv;
    repeat first
      [ progress cbn [negb as_chars mbind option_bind chars_at optval
                      set_optval set_noptval or_flags set_flags]
      | match goal with
        | |- context [if ?c then _ else _] => destruct c eqn:?
        end ];
    eauto.
Qed.

(** The status of a handler, and its message when it fails, depend on the
    value only. *)
Lemma call_handler_pair_verdict hd v nv o1 e1 h1 o2 e2 h2 rc1 o1' e1' h1'
    rc2 o2' e2' h2' :
  call_handler hd o1 (PStr v) nv 0 e1 h1 = Some (rc1, o1', e1', h1') ->
  call_handler hd o2 (PStr v) nv 0 e2 h2 = Some (rc2, o2', e2', h2') ->
  rc1 = rc2 /\ (rc1 <> LCB_SUCCESS -> e1' = e2').
Proof.
  destruct hd; simpl;
    unfold bool_param_handler, num_param_handler, string_param_handler,
      stale_param_handler, bool_param_handler, onerror_param_handler,
      set_user_string, my_strndup, malloc;
    change (has_flag 0 LCBEX_VOPT_F_OPTVAL_NUMERIC) with false;
    change (has_flag 0 LCBEX_VOPT_F_PCTENCODE) with false;
    change (has_flag 0 LCBEX_VOPT_F_OPTVAL_CONSTANT) with false;
    cbn [negb]; intros H1 H2;
    repeat (case_match || simplify_option_eq);
    split; congruence.
Qed.

(** The assignment of a pair of strings as [lcbex_vopt_createv] calls it:
    lengths computed, no flag. *)
Lemma assign_pair_step junk k v e h :
  lcbex_vopt_assign junk (PStr k) SIZE_MAX (PStr v) SIZE_MAX 0 e h
  = if strlen v =? 0
    then Some (LCB_EINVAL, vopt_zero, Some "Missing value length", h)
    else if strlen k =? 0
    then Some (LCB_EINVAL, vopt_zero, Some "Missing option name length", h)
    else
      match
        List.find (fun ret => strncmp k (param ret) (strlen k) =? 0)
          recognized_view_params
      with
      | None =>
          Some (LCB_EINVAL, set_flags vopt_zero 0,
                Some "Unrecognized option", h)
      | Some vparam =>
          call_handler (handler_of (ptype vparam)) (pair_named k h) (PStr v)
            (strlen v) 0 e ({[fresh h]} ∪ h)
      end.
Proof.
  unfold lcbex_vopt_assign.
  cbn [c_strlen as_chars mbind option_bind].
  rewrite Z.eqb_refl. cbn [c_strlen as_chars mbind option_bind].
  change (has_flag 0 LCBEX_VOPT_F_OPTVAL_NUMERIC) with false.
  change (has_flag 0 LCBEX_VOPT_F_OPTNAME_NUMERIC) with false.
  change (has_flag 0 LCBEX_VOPT_F_PASSTHROUGH) with false.
  change (has_flag 0 LCBEX_VOPT_F_OPTNAME_CONSTANT) with false.
  cbn [negb andb].
  destruct (strlen v =? 0); [reflexivity|].
  destruct (strlen k =? 0) eqn:Ek; [reflexivity|].
  unfold find_view_param.
  rewrite find_view_param_from_name
    by (reflexivity || (apply Z.eqb_neq; assumption)).
  cbn [mbind option_bind].
  destruct (List.find _ recognized_view_params); reflexivity.
Qed.

(** A pair assigned from any state: the call returns; the blocks it
    allocated are those that a cleanup of the record releases; its status
    is that of the pair. *)
Lemma assign_pair k v junk e h :
  exists rc o e',
    lcbex_vopt_assign junk (PStr k) SIZE_MAX (PStr v) SIZE_MAX 0 e h
    = Some (rc, o, e', list_to_set (blocks_of o) ∪ h) /\
    cleanable o /\ NoDup (blocks_of o) /\
    (forall b, b ∈ blocks_of o -> b ∉ h) /\
    (rc = LCB_SUCCESS \/ rc = LCB_EINVAL) /\
    pair_verdict k v = (rc, match rc with LCB_SUCCESS => None | _ => e' end).
Proof.
  pose proof (is_fresh h) as Hfr.
  pose proof (is_fresh ({[fresh h]} ∪ h)) as Hfr2.
  pose proof (fresh_twice h) as Hfr3.
  unfold pair_verdict. rewrite !assign_pair_step.
  assert (Hempty : forall (rc : lcb_error_t) o (e' : errcell),
             blocks_of o = [] -> cleanable o -> rc = LCB_EINVAL ->
             exists rc0 o0 e0,
               Some (rc, o, e', h)
               = Some (rc0, o0, e0, list_to_set (blocks_of o0) ∪ h) /\
               cleanable o0 /\ NoDup (blocks_of o0) /\
               (forall b, b ∈ blocks_of o0 -> b ∉ h) /\
               (rc0 = LCB_SUCCESS \/ rc0 = LCB_EINVAL) /\
               (rc, e') = (rc0, match rc0 with
                                | LCB_SUCCESS => None
                                | _ => e0
                                end)).
  { intros rc o e' Hb Hc ->. exists LCB_EINVAL, o, e'. rewrite Hb.
    split; [f_equal; f_equal; set_solver|].
    split; [exact Hc|]. split; [apply NoDup_nil_2|].
    split; [set_solver|]. split; [auto|reflexivity]. }
  destruct (strlen v =? 0) eqn:Ev.
  { apply Hempty; [reflexivity|split; exact I|reflexivity]. }
  destruct (strlen k =? 0) eqn:Ek.
  { apply Hempty; [reflexivity|split; exact I|reflexivity]. }
  destruct (List.find _ recognized_view_params) as [vparam|].
  2:{ apply Hempty; [reflexivity|split; exact I|reflexivity]. }
  apply Z.eqb_neq in Ev.
  destruct (call_handler_pair_total (handler_of (ptype vparam))
              (pair_named k h) v (strlen v) e ({[fresh h]} ∪ h) Ev)
    as [[[[rc o] e'] h'] Hrun].
  destruct (call_handler_pair_total (handler_of (ptype vparam))
              (pair_named k ∅) v (strlen v) None ({[fresh (∅ : heap)]} ∪ ∅) Ev)
    as [[[[rc0 o0] e0] h0] Hrun0].
  rewrite Hrun, Hrun0.
  destruct (call_handler_pair_verdict _ _ _ _ _ _ _ _ _ _ _ _ _ _ _ _ _
              Hrun Hrun0) as [<- Hmsg].
  destruct (call_handler_pair (handler_of (ptype vparam)) (pair_named k h)
              v (strlen v) e ({[fresh h]} ∪ h) rc o e' h' eq_refl Hrun)
    as (Hn & Hnf & Hcase).
  exists rc, o, e'. unfold blocks_of, cleanable. rewrite Hn, Hnf.
  cbn [pair_named optname set_optname owned releasable].
  destruct Hcase as [(-> & -> & Hv)|[(-> & -> & [s Hv] & Hvf)
                                    |(-> & [s Hv] & Hvf & ->)]];
    rewrite Hv; rewrite ?Hvf;
    cbn [pair_named optval set_optname set_noptname set_flags vopt_zero
         owned releasable app].
  - split; [f_equal; f_equal; set_solver|].
    repeat split; auto.
    + apply NoDup_singleton.
    + set_solver.
    + rewrite Hmsg by discriminate. reflexivity.
  - split; [f_equal; f_equal; set_solver|].
    repeat split; auto.
    + apply NoDup_singleton.
    + set_solver.
  - split; [f_equal; f_equal; set_solver|].
    repeat split; auto.
    + apply NoDup_cons_2; [set_solver|apply NoDup_singleton].
    + set_solver.
Qed.

(** [lcbex_vopt_cleanup] releases the blocks of a cleanable record. *)
Lemma lcbex_vopt_cleanup_spec o (h : heap) :
  cleanable o -> NoDup (blocks_of o) ->
  (forall b, b ∈ blocks_of o -> b ∈ h) ->
  lcbex_vopt_cleanup o h = Some (vopt_zero, h ∖ list_to_set (blocks_of o)).
Proof.
  unfold cleanable, blocks_of, lcbex_vopt_cleanup.
  intros [Hn Hv] Hnd Hin.
  destruct (optname o) as [|sn|sn|bn sn], (optval o) as [|sv|sv|bv sv];
    cbn [releasable is_null negb owned free] in *;
    rewrite ?Hn, ?Hv in *; cbn [negb owned app mbind option_bind] in *;
    destruct (has_flag (flags o) LCBEX_VOPT_F_OPTNAME_CONSTANT),
             (has_flag (flags o) LCBEX_VOPT_F_OPTVAL_CONSTANT);
    cbn [negb owned app mbind option_bind free] in *;
    unfold free_block;
    repeat match goal with
           | |- context [decide (?b ∈ ?s)] =>
               destruct (decide (b ∈ s)); cbn [mbind option_bind]
           end;
    try (f_equal; f_equal; set_solver);
    try (exfalso; apply NoDup_cons in Hnd as [Hnd _]; set_solver);
    try (exfalso; set_solver).
Qed.

Lemma lcbex_vopt_cleanup_list_spec slots (h : heap) :
  Forall cleanable slots ->
  NoDup (flat_map blocks_of slots) ->
  (forall b, b ∈ flat_map blocks_of slots -> b ∈ h) ->
  exists zs,
    lcbex_vopt_cleanup_list slots (Z.of_nat (length slots)) h
    = Some (zs, h ∖ list_to_set (flat_map blocks_of slots)).
Proof.
  intros Hc. revert h. induction Hc as [|o slots Ho _ IH]; intros h Hnd Hin.
  - exists []. cbn. f_equal. f_equal. set_solver.
  - cbn [flat_map] in *. apply NoDup_app in Hnd as (Hnd1 & Hdisj & Hnd2).
    cbn [lcbex_vopt_cleanup_list length].
    replace (Z.of_nat (S (length slots)) <=? 0) with false
      by (symmetry; apply Z.leb_gt; lia).
    replace (Z.of_nat (S (length slots)) - 1) with (Z.of_nat (length slots))
      by lia.
    rewrite lcbex_vopt_cleanup_spec; [|assumption..|set_solver].
    cbn [mbind option_bind].
    destruct (IH (h ∖ list_to_set (blocks_of o)) Hnd2) as [zs Hzs].
    { intros b Hb. apply elem_of_difference. split; [set_solver|].
      intros Hb'%elem_of_list_to_set. now apply (Hdisj b). }
    rewrite Hzs. cbn [mbind option_bind].
    eexists. f_equal. f_equal. set_solver.
Qed.

Lemma realloc_inv h0 arr slots h :
  createv_inv h0 arr slots h ->
  exists arr' h',
    realloc arr h = Some (arr', h') /\ createv_inv h0 arr' slots h'.
Proof.
  intros (Hc & Hnd & Hfresh & ->).
  apply NoDup_cons in Hnd as [Harr Hnd].
  assert (Harr0 : arr ∉ h0) by (apply Hfresh; apply elem_of_cons; auto).
  assert (Hbl : forall b, b ∈ flat_map blocks_of slots -> b ∉ h0)
    by (intros b Hb; apply Hfresh; apply elem_of_cons; auto).
  clear Hfresh.
  set (bl := flat_map blocks_of slots) in *.
  assert (Hh1 : (list_to_set (arr :: bl) ∪ h0) ∖ {[arr]}
                = (list_to_set bl ∪ h0 : heap)).
  { rewrite list_to_set_cons. clear Hbl Hnd Hc.
    assert (Harr' : arr ∉ (list_to_set bl : heap))
      by (now rewrite elem_of_list_to_set).
    clear Harr. set_solver. }
  unfold realloc, free_block, malloc.
  destruct (decide (arr ∈ list_to_set (arr :: bl) ∪ h0)) as [_|Hn].
  2:{ exfalso. apply Hn. rewrite list_to_set_cons. clear. set_solver. }
  cbn [mbind option_bind]. rewrite Hh1.
  pose proof (is_fresh (list_to_set bl ∪ h0 : heap)) as Hf.
  set (arr' := fresh (list_to_set bl ∪ h0 : heap)) in *.
  apply not_elem_of_union in Hf as [Hf1 Hf2].
  rewrite elem_of_list_to_set in Hf1.
  exists arr', ({[arr']} ∪ (list_to_set bl ∪ h0)). split; [reflexivity|].
  split; [exact Hc|]. split; [|split].
  - apply NoDup_cons. split; assumption.
  - intros b [->|Hb]%elem_of_cons; [assumption|now apply Hbl].
  - rewrite list_to_set_cons. now rewrite (assoc_L (∪)).
Qed.

Lemma createv_loop_spec junk h0 ap :
  forall arr slots n_alloc errstr h,
    createv_inv h0 arr slots h ->
    Z.of_nat (length slots) + Z.of_nat (length ap) <= SIZE_MAX ->
    exists arr' slots' errstr' h',
      createv_loop junk ap arr slots (Z.of_nat (length slots)) n_alloc
        errstr h
      = Some (fst (fst (scan_pairs ap)), arr', slots',
              Z.of_nat (length slots'), errstr', h') /\
      createv_inv h0 arr' slots' h' /\
      length slots' = (length slots + snd (scan_pairs ap))%nat /\
      (fst (fst (scan_pairs ap)) <> LCB_SUCCESS ->
       errstr' = snd (fst (scan_pairs ap))).
Proof.
  induction ap as [ap IH] using (induction_ltof1 _ (@length string)).
  unfold ltof in IH.
  intros arr slots n_alloc errstr h Hinv Hsz.
  destruct ap as [|strp ap].
  { exists arr, slots, errstr, h. cbn.
    split; [reflexivity|]. split; [assumption|]. split; [lia|congruence]. }
  cbn [createv_loop].
  assert (Hre : exists arr1 n_alloc1 h1,
             (if n_alloc <? size_add (Z.of_nat (length slots)) 1
              then '(arr, h) ← realloc arr h;
                   Some (arr, size_wrap (n_alloc * 2), h)
              else Some (arr, n_alloc, h))
             = Some (arr1, n_alloc1, h1) /\
             createv_inv h0 arr1 slots h1).
  { destruct (n_alloc <? size_add (Z.of_nat (length slots)) 1).
    - destruct (realloc_inv _ _ _ _ Hinv) as (arr' & h' & -> & Hinv').
      cbn [mbind option_bind]. eauto.
    - eauto. }
  destruct Hre as (arr1 & n_alloc1 & h1 & -> & Hinv1).
  cbn [mbind option_bind].
  destruct ap as [|value ap].
  { exists arr1, slots, (Some "Got odd number of arguments"), h1. cbn.
    split; [reflexivity|]. split; [assumption|]. split; [lia|reflexivity]. }
  cbn [length] in Hsz.
  rewrite size_add_small by lia.
  destruct (assign_pair strp value junk errstr h1)
    as (rc & o & e' & Hrun & Hclean & Hnd & Hfresh & Hrc & Hverdict).
  rewrite Hrun. cbn [mbind option_bind].
  assert (Hinv2 : createv_inv h0 arr1 (slots ++ [o])
                    (list_to_set (blocks_of o) ∪ h1)).
  { destruct Hinv1 as (Hc1 & Hnd1 & Hfr1 & ->). unfold createv_inv.
    rewrite flat_map_app. cbn [flat_map]. rewrite app_nil_r.
    set (bl := flat_map blocks_of slots) in *.
    split; [apply Forall_app; split; [assumption|now constructor]|].
    rewrite app_comm_cons.
    split; [|split].
    - apply NoDup_app. split; [assumption|].
      split; [|assumption]. intros b Hb Hb'. apply (Hfresh b Hb').
      apply elem_of_union_l. now rewrite elem_of_list_to_set.
    - intros b Hb.
      apply elem_of_app in Hb as [Hb|Hb]; [now apply Hfr1|].
      apply Hfresh in Hb. now apply not_elem_of_union in Hb as [_ Hb].
    - rewrite list_to_set_app_L. clear. set_solver. }
  assert (Hlen : Z.of_nat (length slots) + 1
                 = Z.of_nat (length (slots ++ [o])))
    by (rewrite length_app; simpl; lia).
  rewrite Hlen.
  cbn [scan_pairs]. unfold pair_accepted. rewrite Hverdict. cbn [fst snd].
  destruct Hrc as [-> | ->].
  - destruct (IH ap ltac:(simpl; lia) arr1 (slots ++ [o])%list n_alloc1 e'
                (list_to_set (blocks_of o) ∪ h1) Hinv2)
      as (arr' & slots' & errstr' & h' & Hloop & Hinv' & Hl' & Hmsg).
    { rewrite length_app. simpl. lia. }
    rewrite Hloop. exists arr', slots', errstr', h'.
    destruct (scan_pairs ap) as [[err msg] n]. cbn [fst snd] in *.
    split; [reflexivity|]. split; [assumption|]. split; [|assumption].
    rewrite Hl', length_app. simpl. lia.
  - exists arr1, (slots ++ [o])%list, e', (list_to_set (blocks_of o) ∪ h1).
    cbn [fst snd].
    split; [reflexivity|]. split; [assumption|]. split; [|reflexivity].
    rewrite length_app. simpl. lia.
Qed.

Lemma pair_ind (P : list string -> Prop) :
  P [] -> (forall k, P [k]) ->
  (forall k v ap, P ap -> P (k :: v :: ap)) ->
  forall ap, P ap.
Proof.
  intros H0 H1 H2 ap.
  assert (H : P ap /\ forall k, P (k :: ap)).
  { induction ap as [|a ap [IH1 IH2]]; [auto|].
    split; [apply IH2|]. intros k. now apply H2. }
  apply H.
Qed.

Lemma scan_pairs_status ap :
  fst (fst (scan_pairs ap)) = LCB_SUCCESS \/
  fst (fst (scan_pairs ap)) = LCB_EINVAL.
Proof.
  induction ap as [|k|k v ap IH] using pair_ind; cbn [scan_pairs]; auto.
  destruct (pair_accepted k v); [|auto].
  destruct (scan_pairs ap) as [[err msg] n]. exact IH.
Qed.

Lemma scan_pairs_odd ap :
  Nat.odd (length ap) = true -> fst (fst (scan_pairs ap)) = LCB_EINVAL.
Proof.
  induction ap as [|k|k v ap IH] using pair_ind; cbn [scan_pairs].
  - discriminate.
  - reflexivity.
  - intros H. destruct (pair_accepted k v); [|reflexivity].
    destruct (scan_pairs ap) as [[err msg] n]. apply IH. exact H.
Qed.

Lemma scan_pairs_refused pre strp value post :
  Nat.even (length pre) = true ->
  pair_accepted strp value = false ->
  fst (fst (scan_pairs (pre ++ strp :: value :: post))) = LCB_EINVAL /\
  snd (scan_pairs (pre ++ strp :: value :: post)) <> O /\
  (all_accepted pre = true ->
   snd (fst (scan_pairs (pre ++ strp :: value :: post)))
   = snd (pair_verdict strp value)).
Proof.
  intros Hev Hpair. revert Hev.
  induction pre as [|k|k v pre IH] using pair_ind; intros Hev.
  - cbn [app scan_pairs]. rewrite Hpair. cbn. auto.
  - discriminate.
  - specialize (IH Hev). cbn [app scan_pairs all_accepted].
    destruct (pair_accepted k v).
    + destruct (scan_pairs (pre ++ strp :: value :: post)) as [[err msg] n].
      cbn [fst snd andb] in *. destruct IH as (-> & Hn & Hmsg).
      split; [reflexivity|]. split; [discriminate|exact Hmsg].
    + cbn. split; [reflexivity|]. split; [discriminate|discriminate].
Qed.

Lemma scan_pairs_left_over pre strp :
  pre <> [] -> all_accepted pre = true ->
  scan_pairs (pre ++ [strp])
  = (LCB_EINVAL, Some "Got odd number of arguments",
     snd (scan_pairs (pre ++ [strp])))
  /\ snd (scan_pairs (pre ++ [strp])) <> O.
Proof.
  induction pre as [|k|k v pre IH] using pair_ind; intros Hne Hall.
  - congruence.
  - discriminate.
  - cbn [all_accepted] in Hall. apply andb_true_iff in Hall as [Hkv Hall].
    cbn [app scan_pairs]. rewrite Hkv.
    destruct pre as [|k' pre'].
    + cbn. split; [reflexivity|discriminate].
    + destruct (IH ltac:(discriminate) Hall) as [Heq Hn].
      destruct (scan_pairs ((k' :: pre') ++ [strp])) as [[err msg] n].
      cbn [fst snd] in *. injection Heq as -> ->.
      split; [reflexivity|discriminate].
Qed.

Lemma scan_pairs_none ap :
  snd (scan_pairs ap) = O -> ap = [] \/ exists k, ap = [k].
Proof.
  destruct ap as [|k [|v ap]]; cbn [scan_pairs]; eauto.
  destruct (pair_accepted k v); [|discriminate].
  destruct (scan_pairs ap) as [[err msg] n]. discriminate.
Qed.

(** [lcbex_vopt_createv] in terms of the scan of its arguments. *)
Lemma lcbex_vopt_createv_spec junk ap (h : heap) :
  Z.of_nat (length ap) <= SIZE_MAX ->
  exists arr slots e h',
    lcbex_vopt_createv junk ap h
    = Some
        (match snd (scan_pairs ap), fst (fst (scan_pairs ap)) with
         | O, _ => (LCB_EINVAL, None, 0, Some "Got no arguments", h)
         | S n, LCB_SUCCESS =>
             (LCB_SUCCESS, Some (arr, slots), Z.of_nat (S n), e, h')
         | S n, rc =>
             (rc, None, Z.of_nat (S n), snd (fst (scan_pairs ap)), h)
         end).
Proof.
  intros Hsz. unfold lcbex_vopt_createv, malloc.
  pose proof (is_fresh h) as Hfr.
  assert (Hinv0 : createv_inv h (fresh h) [] ({[fresh h]} ∪ h)).
  { split; [constructor|]. cbn [flat_map]. split; [|split].
    - apply NoDup_singleton.
    - intros b Hb%list_elem_of_singleton. now subst b.
    - rewrite list_to_set_cons, list_to_set_nil. clear. set_solver. }
  destruct (createv_loop_spec junk h ap (fresh h) [] 8 (Some "")
              ({[fresh h]} ∪ h) Hinv0 ltac:(simpl; lia))
    as (arr & slots & e & h' & Hloop & Hinv & Hlen & Hmsg).
  change (Z.of_nat (@length lcbex_vopt_st [])) with 0 in Hloop.
  cbv beta iota zeta. rewrite Hloop.
  cbn [mbind option_bind].
  cbn [length Nat.add] in Hlen.
  exists arr, slots, e, h'.
  assert (Hrelease : exists zs,
             lcbex_vopt_cleanup_list slots (Z.of_nat (length slots)) h'
             = Some (zs, {[arr]} ∪ h) /\
             free_block arr ({[arr]} ∪ h) = Some h).
  { destruct Hinv as (Hc & Hnd & Hfresh & ->).
    apply NoDup_cons in Hnd as [Harr Hnd].
    set (bl := flat_map blocks_of slots) in *.
    assert (Harr0 : arr ∉ h) by (apply Hfresh; apply elem_of_cons; auto).
    assert (Hbl : forall b, b ∈ bl -> b ∉ h)
      by (intros b Hb; apply Hfresh; apply elem_of_cons; auto).
    destruct (lcbex_vopt_cleanup_list_spec slots
                (list_to_set (arr :: bl) ∪ h) Hc Hnd) as [zs Hzs].
    { intros b Hb. apply elem_of_union_l, elem_of_list_to_set.
      apply elem_of_cons. auto. }
    exists zs. split.
    - rewrite Hzs. f_equal. f_equal. fold bl.
      apply set_eq. intros x.
      rewrite elem_of_difference, !elem_of_union, !elem_of_list_to_set,
        elem_of_cons, elem_of_singleton.
      split.
      + intros [[[->|Hx]|Hx] Hn]; tauto.
      + intros [->|Hx]; [tauto|]. split; [tauto|]. intros Hx'.
        now apply (Hbl x).
    - unfold free_block.
      destruct (decide (arr ∈ {[arr]} ∪ h)) as [_|Hn]; [|set_solver].
      f_equal. clear -Harr0. set_solver. }
  destruct Hrelease as (zs & Hclean & Hfree).
  rewrite Hlen.
  destruct (snd (scan_pairs ap)) as [|n] eqn:En.
  - cbn [Z.of_nat]. rewrite Z.eqb_refl.
    rewrite Hlen in Hclean. cbn [Z.of_nat] in Hclean.
    rewrite Hclean. cbn [mbind option_bind]. rewrite Hfree. reflexivity.
  - replace (Z.of_nat (S n) =? 0) with false
      by (symmetry; apply Z.eqb_neq; lia).
    destruct (fst (fst (scan_pairs ap))) eqn:Erc.
    + reflexivity.
    + rewrite Hlen in Hclean. rewrite Hclean. cbn [mbind option_bind].
      rewrite Hfree. rewrite Hmsg by discriminate. reflexivity.
    + rewrite Hlen in Hclean. rewrite Hclean. cbn [mbind option_bind].
      rewrite Hfree. rewrite Hmsg by discriminate. reflexivity.
Qed.

Example unrecognized_key :
  pair_verdict "bob" "loblaw" = (LCB_EINVAL, Some "Unrecognized option").
Proof. reflexivity. Qed.

(** Bulk creation is all or nothing.  [lcbex_vopt_createv] returns success
    or invalid-argument; it fails with invalid-argument on an empty list,
    with the message [Got no arguments], on a list of odd length, and on a
    list that holds a pair of which the assignment fails (an unrecognized
    key is such a pair), with the message of the first such pair; the
    message is [Got odd number of arguments] when pairs come before the
    argument left over and all of them are accepted.  Whenever it fails,
    every block it has allocated, for the records and for the array, is
    released and the output array is [NULL]. *)
Lemma createv_all_or_nothing :
  forall junk ap (h : heap),
    Z.of_nat (length ap) <= SIZE_MAX ->
    exists err optarray noptions errstr h',
      lcbex_vopt_createv junk ap h
      = Some (err, optarray, noptions, errstr, h') /\
      (err = LCB_SUCCESS \/ err = LCB_EINVAL) /\
      (err <> LCB_SUCCESS -> optarray = None /\ h' = h) /\
      (ap = [] -> err = LCB_EINVAL /\ errstr = Some "Got no arguments") /\
      (Nat.odd (length ap) = true -> err = LCB_EINVAL) /\
      (forall pre strp value post,
          ap = (pre ++ strp :: value :: post)%list ->
          Nat.even (length pre) = true ->
          pair_accepted strp value = false ->
          err = LCB_EINVAL /\
          (all_accepted pre = true ->
           errstr = snd (pair_verdict strp value))) /\
      (forall pre strp,
          ap = (pre ++ [strp])%list -> pre <> [] ->
          all_accepted pre = true ->
          errstr = Some "Got odd number of arguments").
Proof.
  intros junk ap h Hsz.
  destruct (lcbex_vopt_createv_spec junk ap h Hsz)
    as (arr & slots & e & h' & Hrun).
  pose proof (scan_pairs_status ap) as Hst.
  pose proof (scan_pairs_odd ap) as Hodd.
  pose proof (scan_pairs_none ap) as Hnone.
  destruct (scan_pairs ap) as [[rc msg] n] eqn:Escan.
  cbn [fst snd] in *.
  destruct n as [|n].
  - (* no pair was assigned *)
    eexists _, _, _, _, _. split; [exact Hrun|].
    split; [auto|]. split; [auto|]. split; [auto|]. split; [auto|].
    split.
    + intros pre strp value post -> Hev Hpair.
      destruct (scan_pairs_refused pre strp value post Hev Hpair)
        as (_ & Hn & _).
      rewrite Escan in Hn. now cbn in Hn.
    + intros pre strp -> Hne Hall.
      destruct (scan_pairs_left_over pre strp Hne Hall) as [_ Hn].
      rewrite Escan in Hn. now cbn in Hn.
  - assert (Hne : ap <> []) by (intros ->; discriminate).
    assert (Hfail : rc <> LCB_SUCCESS ->
              lcbex_vopt_createv junk ap h
              = Some (LCB_EINVAL, None, Z.of_nat (S n), msg, h) /\
              rc = LCB_EINVAL).
    { intros Hrc. destruct Hst as [->| ->]; [congruence|]. auto. }
    destruct rc.
    + eexists _, _, _, _, _. split; [exact Hrun|].
      split; [auto|]. split; [congruence|]. split; [congruence|].
      split; [intros H; specialize (Hodd H); discriminate|].
      split.
      * intros pre strp value post -> Hev Hpair.
        destruct (scan_pairs_refused pre strp value post Hev Hpair)
          as (Hrc & _). rewrite Escan in Hrc. discriminate.
      * intros pre strp -> Hne' Hall.
        destruct (scan_pairs_left_over pre strp Hne' Hall) as [Heq _].
        rewrite Escan in Heq. discriminate.
    + destruct (Hfail ltac:(discriminate)) as [Hrun' _].
      eexists _, _, _, _, _. split; [exact Hrun'|].
      split; [auto|]. split; [auto|]. split; [congruence|].
      split; [auto|]. split.
      * intros pre strp value post -> Hev Hpair.
        destruct (scan_pairs_refused pre strp value post Hev Hpair)
          as (_ & _ & Hmsg). rewrite Escan in Hmsg. cbn in Hmsg. auto.
      * intros pre strp -> Hne' Hall.
        destruct (scan_pairs_left_over pre strp Hne' Hall) as [Heq _].
        rewrite Escan in Heq. congruence.
    + destruct Hst; discriminate.
Qed.

(** The arguments [stale, false, bob, loblaw] of the unit test. *)
Example createv_unrecognized_key :
  exists err optarray noptions errstr h',
    lcbex_vopt_createv vopt_zero ["stale"; "false"; "bob"; "loblaw"] ∅
    = Some (err, optarray, noptions, errstr, h') /\
    err = LCB_EINVAL /\ optarray = None /\ h' = ∅ /\
    errstr = Some "Unrecognized option".
Proof.
  destruct (createv_all_or_nothing vopt_zero
              ["stale"; "false"; "bob"; "loblaw"] ∅)
    as (err & optarray & noptions & errstr & h' & Hrun & _ & Hfail & _ & _
        & Hpair & _).
  { vm_compute. discriminate. }
  destruct (Hpair ["stale"; "false"] "bob" "loblaw" [] eq_refl eq_refl eq_refl)
    as [Herr Hmsg].
  destruct (Hfail ltac:(rewrite Herr; discriminate)) as [Harr Hh].
  exists err, optarray, noptions, errstr, h'.
  split; [exact Hrun|]. split; [exact Herr|]. split; [exact Harr|].
  split; [exact Hh|]. apply Hmsg. reflexivity.
Qed.

(** C9 asks that a list of odd length be refused with the message of the
    odd number of arguments.  For the list of the single argument
    [on_error] the loop of [lcbex_vopt_createv] does set that message, and
    the test on [*noptions] that follows the loop replaces it by the
    message of the empty list; the status is invalid-argument, the array is
    released and [NULL] is returned. *)
Theorem createv_single_argument_message :
  forall junk (h : heap),
    Nat.odd (length ["on_error"]) = true /\
    createv_loop junk ["on_error"] (fresh h) [] 0 8 (Some "")
      ({[fresh h]} ∪ h)
    = Some (LCB_EINVAL, fresh h, [], 0, Some "Got odd number of arguments",
            {[fresh h]} ∪ h) /\
    lcbex_vopt_createv junk ["on_error"] h
    = Some (LCB_EINVAL, None, 0, Some "Got no arguments", h).
Proof.
  intros junk h. split; [reflexivity|]. split; [reflexivity|].
  destruct (lcbex_vopt_createv_spec junk ["on_error"] h)
    as (arr & slots & e & h' & Hrun).
  { vm_compute. discriminate. }
  exact Hrun.
Qed.

(** ** The registry scan, by name and by number *)

Lemma find_ext {A} (f g : A -> bool) l :
  (forall x, f x = g x) -> List.find f l = List.find g l.
Proof.
  intros H. induction l as [|x l IH]; simpl; [reflexivity|].
  now rewrite H, IH.
Qed.

Lemma strncmp_prefix_eqb s p :
  no_nul s = true ->
  (strncmp s p (Z.of_nat (String.length s)) =? 0) = String.prefix s p.
Proof.
  intros Hs. pose proof (strncmp_prefix s p Hs) as H.
  destruct (String.prefix s p).
  - apply Z.eqb_eq. now apply H.
  - apply Z.eqb_neq. intros E. apply H in E. discriminate.
Qed.

Lemma find_by_name name :
  no_nul name = true ->
  List.find (fun ret =>
               strncmp name (param ret) (Z.of_nat (String.length name)) =? 0)
    recognized_view_params
  = first_beginning name.
Proof.
  intros Hn. apply find_ext. intros p. now apply strncmp_prefix_eqb.
Qed.

Lemma find_by_number i :
  List.find (fun ret => i =? itype ret) recognized_view_params
  = entry_numbered i.
Proof.
  unfold entry_numbered.
  destruct ((1 <=? i) && (i <=? 17)) eqn:E.
  - apply andb_true_iff in E as [H1 H2]. apply Z.leb_le in H1, H2.
    assert (Hi : i = 1 \/ i = 2 \/ i = 3 \/ i = 4 \/ i = 5 \/ i = 6 \/ i = 7
                 \/ i = 8 \/ i = 9 \/ i = 10 \/ i = 11 \/ i = 12 \/ i = 13
                 \/ i = 14 \/ i = 15 \/ i = 16 \/ i = 17) by lia.
    repeat (destruct Hi as [->|Hi]; [reflexivity|]). subst i. reflexivity.
  - assert (Hi : i < 1 \/ 17 < i).
    { apply andb_false_iff in E as [E|E]; apply Z.leb_gt in E; lia. }
    unfold recognized_view_params. cbn [List.find itype].
    unfold LCBEX_VOPT_OPT_DESCENDING, LCBEX_VOPT_OPT_ENDKEY,
      LCBEX_VOPT_OPT_ENDKEY_DOCID, LCBEX_VOPT_OPT_FULLSET,
      LCBEX_VOPT_OPT_GROUP, LCBEX_VOPT_OPT_GROUP_LEVEL,
      LCBEX_VOPT_OPT_INCLUSIVE_END, LCBEX_VOPT_OPT_KEYS,
      LCBEX_VOPT_OPT_SINGLE_KEY, LCBEX_VOPT_OPT_ONERROR,
      LCBEX_VOPT_OPT_REDUCE, LCBEX_VOPT_OPT_STALE, LCBEX_VOPT_OPT_SKIP,
      LCBEX_VOPT_OPT_LIMIT, LCBEX_VOPT_OPT_STARTKEY,
      LCBEX_VOPT_OPT_STARTKEY_DOCID, LCBEX_VOPT_OPT_DEBUG.
    repeat match goal with
           | |- context [i =? ?k] =>
               replace (i =? k) with false by (symmetry; apply Z.eqb_neq; lia)
           end.
    reflexivity.
Qed.

(** X1: the scan of [find_view_param] by name compares as many bytes as the
    name given has, so it returns the first entry of the table whose name
    begins with the name given, and [NULL] when no entry does. Every name of
    the table finds in this way an entry with the handler of its own ([key]
    finds the entry of [keys], which stands before it). *)
Theorem lookup_by_name_finds_first_beginning :
  forall name fl,
    no_nul name = true -> name <> "" ->
    has_flag fl LCBEX_VOPT_F_OPTNAME_NUMERIC = false ->
    find_view_param (PStr name) (Z.of_nat (String.length name)) fl
    = Some (first_beginning name)
    /\ List.Forall
         (fun p =>
            exists p',
              first_beginning (param p) = Some p' /\
              handler_of (ptype p') = handler_of (ptype p))
         recognized_view_params.
Proof.
  intros name fl Hn Hne Hfl. split.
  - unfold find_view_param.
    rewrite find_view_param_from_name.
    + now rewrite find_by_name.
    + assumption.
    + destruct name; [congruence|simpl; lia].
  - repeat constructor; eexists; split; reflexivity.
Qed.

(** [grou] begins [group] and [group_level]: the scan stops at [group]. *)
Lemma lookup_by_name_finds_first_beginning_witness :
  find_view_param (PStr "grou") (Z.of_nat (String.length "grou")) 0
  = Some (first_beginning "grou")
  /\ List.Forall
       (fun p =>
          exists p',
            first_beginning (param p) = Some p' /\
            handler_of (ptype p') = handler_of (ptype p))
       recognized_view_params.
Proof.
  apply (lookup_by_name_finds_first_beginning "grou" 0).
  - reflexivity.
  - discriminate.
  - reflexivity.
Defined.

(** X2: the scan of [find_view_param] by number returns the entry that carries
    the number, for the numbers 1 to 17 of the header, and [NULL] for every
    other [int]; the length argument plays no part. A number finds only the
    entry that carries it, and every entry of the table is found under its own
    number. *)
Theorem lookup_by_number_finds_its_entry :
  forall i noption fl,
    has_flag fl LCBEX_VOPT_F_OPTNAME_NUMERIC = true ->
    find_view_param (PInt i) noption fl = Some (entry_numbered (int_wrap i))
    /\ (forall p, entry_numbered (int_wrap i) = Some p ->
                  itype p = int_wrap i /\ In p recognized_view_params)
    /\ List.Forall
         (fun p =>
            find_view_param (PInt (itype p)) noption fl = Some (Some p))
         recognized_view_params.
Proof.
  intros i noption fl Hfl.
  assert (Hfind : forall j,
             find_view_param (PInt j) noption fl
             = Some (entry_numbered (int_wrap j))).
  { intros j. unfold find_view_param.
    rewrite find_view_param_from_id by assumption.
    now rewrite find_by_number. }
  split; [apply Hfind|]. split.
  - intros p Hp. rewrite <- find_by_number in Hp.
    apply List.find_some in Hp as [Hin Heq].
    apply Z.eqb_eq in Heq. auto.
  - repeat constructor; rewrite Hfind; reflexivity.
Qed.

(** The number of [limit]. *)
Lemma lookup_by_number_finds_its_entry_witness :
  find_view_param (PInt LCBEX_VOPT_OPT_LIMIT) 0 LCBEX_VOPT_F_OPTNAME_NUMERIC
  = Some (entry_numbered (int_wrap LCBEX_VOPT_OPT_LIMIT))
  /\ (forall p, entry_numbered (int_wrap LCBEX_VOPT_OPT_LIMIT) = Some p ->
                itype p = int_wrap LCBEX_VOPT_OPT_LIMIT
                /\ In p recognized_view_params)
  /\ List.Forall
       (fun p =>
          find_view_param (PInt (itype p)) 0 LCBEX_VOPT_F_OPTNAME_NUMERIC
          = Some (Some p))
       recognized_view_params.
Proof.
  apply (lookup_by_number_finds_its_entry LCBEX_VOPT_OPT_LIMIT 0
           LCBEX_VOPT_F_OPTNAME_NUMERIC).
  reflexivity.
Defined.

(** ** The assignment of a recognized option, step by step *)

Lemma assign_name_step o name noption value nvalue nv fl e h :
  no_nul name = true -> name <> "" -> len_arg name noption ->
  (if nvalue =? SIZE_MAX then c_strlen value else Some nvalue) = Some nv ->
  (has_flag fl LCBEX_VOPT_F_OPTVAL_NUMERIC = false -> nv <> 0) ->
  has_flag fl LCBEX_VOPT_F_PASSTHROUGH = false ->
  has_flag fl LCBEX_VOPT_F_OPTNAME_NUMERIC = false ->
  lcbex_vopt_assign o (PStr name) noption value nvalue fl e h
  = match first_beginning name with
    | None =>
        Some (LCB_EINVAL, set_flags vopt_zero fl, Some "Unrecognized option",
              h)
    | Some p =>
        call_handler (handler_of (ptype p)) (fst (name_stored name fl h))
          value nv fl e (snd (name_stored name fl h))
    end.
Proof.
  intros Hn Hne Hl Hnv Hnz Hpass Hnum.
  assert (Hl0 : (Z.of_nat (String.length name) =? 0) = false).
  { apply Z.eqb_neq. destruct name; [congruence|simpl; lia]. }
  unfold lcbex_vopt_assign. rewrite Hnv. cbn [mbind option_bind].
  rewrite (len_arg_resolve _ _ Hn Hl). cbn [mbind option_bind].
  assert (Hv0 : negb (has_flag fl LCBEX_VOPT_F_OPTVAL_NUMERIC) && (nv =? 0)
                = false).
  { destruct (has_flag fl LCBEX_VOPT_F_OPTVAL_NUMERIC); [reflexivity|].
    simpl. apply Z.eqb_neq. now apply Hnz. }
  rewrite Hv0, Hnum, Hpass, Hl0. cbn [negb andb].
  unfold find_view_param.
  rewrite find_view_param_from_name
    by (assumption || (apply Z.eqb_neq; assumption)).
  rewrite find_by_name by assumption.
  cbn [mbind option_bind].
  destruct (first_beginning name) as [p|]; [|reflexivity].
  unfold name_stored.
  destruct (has_flag fl LCBEX_VOPT_F_OPTNAME_CONSTANT).
  - reflexivity.
  - unfold my_strndup, malloc. cbn [as_chars mbind option_bind fst snd].
    now rewrite Nat2Z.id, strncpy_no_nul.
Qed.

Lemma assign_number_step o i noption value nvalue nv fl e h :
  noption <> SIZE_MAX ->
  (if nvalue =? SIZE_MAX then c_strlen value else Some nvalue) = Some nv ->
  (has_flag fl LCBEX_VOPT_F_OPTVAL_NUMERIC = false -> nv <> 0) ->
  has_flag fl LCBEX_VOPT_F_PASSTHROUGH = false ->
  has_flag fl LCBEX_VOPT_F_OPTNAME_NUMERIC = true ->
  lcbex_vopt_assign o (PInt i) noption value nvalue fl e h
  = match entry_numbered (int_wrap i) with
    | None =>
        Some (LCB_EINVAL, set_flags vopt_zero fl, Some "Unrecognized option",
              h)
    | Some p =>
        call_handler (handler_of (ptype p)) (number_stored p fl) value nv fl e
          h
    end.
Proof.
  intros Hno Hnv Hnz Hpass Hnum.
  unfold lcbex_vopt_assign. rewrite Hnv. cbn [mbind option_bind].
  apply Z.eqb_neq in Hno. rewrite Hno. cbn [mbind option_bind].
  assert (Hv0 : negb (has_flag fl LCBEX_VOPT_F_OPTVAL_NUMERIC) && (nv =? 0)
                = false).
  { destruct (has_flag fl LCBEX_VOPT_F_OPTVAL_NUMERIC); [reflexivity|].
    simpl. apply Z.eqb_neq. now apply Hnz. }
  rewrite Hv0, Hnum, Hpass. cbn [negb andb].
  unfold find_view_param. rewrite find_view_param_from_id by assumption.
  rewrite find_by_number. cbn [mbind option_bind].
  destruct (entry_numbered (int_wrap i)) as [p|]; reflexivity.
Qed.

Lemma set_user_string_value value nv fl1 fl2 o1 o2 h1 h2 r1 h1' :
  has_flag fl2 LCBEX_VOPT_F_OPTVAL_CONSTANT
  = has_flag fl1 LCBEX_VOPT_F_OPTVAL_CONSTANT ->
  set_user_string o1 value nv fl1 h1 = Some (r1, h1') ->
  exists r2 h2',
    set_user_string o2 value nv fl2 h2 = Some (r2, h2') /\
    optname r1 = optname o1 /\ noptname r1 = noptname o1 /\
    optname r2 = optname o2 /\ noptname r2 = noptname o2 /\
    memcpy_src (optval r2) (noptval r2) = memcpy_src (optval r1) (noptval r1).
Proof.
  intros Hc. unfold set_user_string, my_strndup, malloc. rewrite Hc.
  destruct (has_flag fl1 LCBEX_VOPT_F_OPTVAL_CONSTANT).
  - destruct (cast_charp value) as [p|]; [|discriminate].
    cbn [mbind option_bind]. intros H. injection H as <- <-.
    eexists _, _. split; [reflexivity|]. repeat split.
  - destruct (as_chars value) as [s|]; [|discriminate].
    cbn [mbind option_bind]. intros H. injection H as <- <-.
    eexists _, _. split; [reflexivity|]. repeat split.
Qed.

Lemma bool_param_handler_value value nv fl1 fl2 o1 o2 e1 e2 h1 h2 rc r1 e1'
    h1' :
  value_flags fl1 = value_flags fl2 ->
  bool_param_handler o1 value nv fl1 e1 h1 = Some (rc, r1, e1', h1') ->
  exists r2 e2' h2',
    bool_param_handler o2 value nv fl2 e2 h2 = Some (rc, r2, e2', h2') /\
    same_value rc o1 r1 e1' o2 r2 e2'.
Proof.
  unfold value_flags. intros Hfl. injection Hfl as _ Hn _.
  unfold bool_param_handler, same_value. rewrite <- Hn.
  destruct (has_flag fl1 LCBEX_VOPT_F_OPTVAL_NUMERIC).
  - destruct (as_int value) as [b|]; [|discriminate].
    cbn [mbind option_bind]. intros H. injection H as <- <- <- <-.
    eexists _, _, _. split; [reflexivity|]. repeat split.
  - destruct (c_strncasecmp "true" value nv) as [c|]; [|discriminate].
    cbn [mbind option_bind]. destruct (c =? 0).
    { intros H. injection H as <- <- <- <-.
      eexists _, _, _. split; [reflexivity|]. repeat split. }
    destruct (c_strncasecmp "false" value nv) as [c'|]; [|discriminate].
    cbn [mbind option_bind]. destruct (c' =? 0).
    { intros H. injection H as <- <- <- <-.
      eexists _, _, _. split; [reflexivity|]. repeat split. }
    intros H. injection H as <- <- <- <-.
    eexists _, _, _. split; [reflexivity|]. repeat split. congruence.
Qed.

Lemma num_param_handler_value value nv fl1 fl2 o1 o2 e1 e2 h1 h2 rc r1 e1'
    h1' :
  value_flags fl1 = value_flags fl2 ->
  num_param_handler o1 value nv fl1 e1 h1 = Some (rc, r1, e1', h1') ->
  exists r2 e2' h2',
    num_param_handler o2 value nv fl2 e2 h2 = Some (rc, r2, e2', h2') /\
    same_value rc o1 r1 e1' o2 r2 e2'.
Proof.
  unfold value_flags. intros Hfl. injection Hfl as _ Hn Hc.
  unfold num_param_handler, same_value, malloc. rewrite <- Hn.
  destruct (has_flag fl1 LCBEX_VOPT_F_OPTVAL_NUMERIC).
  - destruct (as_int value) as [b|]; [|discriminate].
    cbn [mbind option_bind]. intros H. injection H as <- <- <- <-.
    eexists _, _, _. split; [reflexivity|]. repeat split. congruence.
  - destruct (if nv =? SIZE_MAX then c_strlen value else Some nv) as [n|];
      [|discriminate].
    cbn [mbind option_bind]. destruct (n =? 0).
    { intros H. injection H as <- <- <- <-.
      eexists _, _, _. split; [reflexivity|]. repeat split. congruence. }
    destruct (as_chars value) as [istr|]; [|discriminate].
    cbn [mbind option_bind].
    destruct (negb (isdigit (first_byte istr))
              && negb (Ascii.eqb (first_byte istr) "-")).
    { intros H. injection H as <- <- <- <-.
      eexists _, _, _. split; [reflexivity|]. repeat split. congruence. }
    destruct (negb (all_digits (rest_bytes istr) (n - 1))).
    { intros H. injection H as <- <- <- <-.
      eexists _, _, _. split; [reflexivity|]. repeat split. congruence. }
    destruct (set_user_string o1 value n fl1 h1) as [[r h]|] eqn:E;
      [|discriminate].
    cbn [mbind option_bind]. intros H. injection H as <- <- <- <-.
    destruct (set_user_string_value value n fl1 fl2 o1 o2 h1 h2 r h
                (eq_sym Hc) E)
      as (r2 & h2' & -> & ? & ? & ? & ? & ?).
    cbn [mbind option_bind].
    eexists _, _, _. split; [reflexivity|]. repeat split; congruence.
Qed.

Lemma string_param_handler_value value nv fl1 fl2 o1 o2 e1 e2 h1 h2 rc r1
    e1' h1' :
  value_flags fl1 = value_flags fl2 ->
  string_param_handler o1 value nv fl1 e1 h1 = Some (rc, r1, e1', h1') ->
  exists r2 e2' h2',
    string_param_handler o2 value nv fl2 e2 h2 = Some (rc, r2, e2', h2') /\
    same_value rc o1 r1 e1' o2 r2 e2'.
Proof.
  unfold value_flags. intros Hfl. injection Hfl as Hp Hn Hc.
  unfold string_param_handler, same_value, malloc. rewrite <- Hn, <- Hp.
  destruct (has_flag fl1 LCBEX_VOPT_F_OPTVAL_NUMERIC).
  { intros H. injection H as <- <- <- <-.
    eexists _, _, _. split; [reflexivity|]. repeat split. congruence. }
  assert (Huser : forall r h,
             set_user_string o1 value nv fl1 h1 = Some (r, h) ->
             exists r2 e2' h2',
               (set_user_string o2 value nv fl2 h2
                ≫= λ '(optobj, h), Some (LCB_SUCCESS, optobj, e2, h))
               = Some (LCB_SUCCESS, r2, e2', h2') /\
               optname r = optname o1 /\ noptname r = noptname o1 /\
               optname r2 = optname o2 /\ noptname r2 = noptname o2 /\
               (LCB_SUCCESS <> LCB_SUCCESS -> e2' = e1) /\
               (LCB_SUCCESS = LCB_SUCCESS ->
                memcpy_src (optval r2) (noptval r2)
                = memcpy_src (optval r) (noptval r))).
  { intros r h E.
    destruct (set_user_string_value value nv fl1 fl2 o1 o2 h1 h2 r h
                (eq_sym Hc) E)
      as (r2 & h2' & -> & ? & ? & ? & ? & ?).
    cbn [mbind option_bind].
    eexists _, _, _. split; [reflexivity|]. repeat split; congruence. }
  destruct (has_flag fl1 LCBEX_VOPT_F_PCTENCODE); cbn [negb].
  - destruct (if nv =? 0 then Some "" else as_chars value) as [str|];
      [|discriminate].
    cbn [mbind option_bind].
    destruct (read_bytes str (Z.to_nat nv)) as [bytes|]; [|discriminate].
    cbn [mbind option_bind].
    destruct (needed_size_loop bytes 0 =? nv).
    + destruct (set_user_string o1 value nv fl1 h1) as [[r h]|] eqn:E;
        [|discriminate].
      cbn [mbind option_bind]. intros H. injection H as <- <- <- <-.
      now apply (Huser r h).
    + destruct (do_pct_encode true str nv) as [[out d_len]|]; [|discriminate].
      cbn [mbind option_bind].
      destruct (Z.of_nat (String.length out) + 1
                <=? size_add (needed_size_loop bytes 0) 1); [|discriminate].
      intros H. injection H as <- <- <- <-.
      eexists _, _, _. split; [reflexivity|]. repeat split. congruence.
  - destruct (set_user_string o1 value nv fl1 h1) as [[r h]|] eqn:E;
      [|discriminate].
    cbn [mbind option_bind]. intros H. injection H as <- <- <- <-.
    now apply (Huser r h).
Qed.

Lemma onerror_param_handler_value value nv fl1 fl2 o1 o2 e1 e2 h1 h2 rc r1
    e1' h1' :
  onerror_param_handler o1 value nv fl1 e1 h1 = Some (rc, r1, e1', h1') ->
  exists r2 e2' h2',
    onerror_param_handler o2 value nv fl2 e2 h2 = Some (rc, r2, e2', h2') /\
    same_value rc o1 r1 e1' o2 r2 e2'.
Proof.
  unfold onerror_param_handler, same_value.
  destruct (c_strncasecmp "stop" value nv) as [c|]; [|discriminate].
  cbn [mbind option_bind]. destruct (c =? 0).
  { intros H. injection H as <- <- <- <-.
    eexists _, _, _. split; [reflexivity|]. repeat split. }
  destruct (c_strncasecmp "continue" value nv) as [c'|]; [|discriminate].
  cbn [mbind option_bind]. destruct (c' =? 0).
  { intros H. injection H as <- <- <- <-.
    eexists _, _, _. split; [reflexivity|]. repeat split. }
  intros H. injection H as <- <- <- <-.
  eexists _, _, _. split; [reflexivity|]. repeat split. congruence.
Qed.

Lemma stale_param_handler_value value nv fl1 fl2 o1 o2 e1 e2 h1 h2 rc r1
    e1' h1' :
  value_flags fl1 = value_flags fl2 ->
  stale_param_handler o1 value nv fl1 e1 h1 = Some (rc, r1, e1', h1') ->
  exists r2 e2' h2',
    stale_param_handler o2 value nv fl2 e2 h2 = Some (rc, r2, e2', h2') /\
    same_value rc o1 r1 e1' o2 r2 e2'.
Proof.
  unfold value_flags. intros Hfl. injection Hfl as _ Hn _.
  unfold stale_param_handler, bool_param_handler, same_value. rewrite <- Hn.
  destruct (has_flag fl1 LCBEX_VOPT_F_OPTVAL_NUMERIC).
  - destruct (as_int value) as [b|]; [|discriminate].
    cbn [mbind option_bind]. destruct (b =? 0); simpl;
      intros H; injection H as <- <- <- <-;
      eexists _, _, _; (split; [reflexivity|]); repeat split.
  - destruct (c_strncasecmp "true" value nv) as [c|]; [|discriminate].
    cbn [mbind option_bind]. destruct (c =? 0).
    { simpl. intros H. injection H as <- <- <- <-.
      eexists _, _, _. split; [reflexivity|]. repeat split. }
    destruct (c_strncasecmp "false" value nv) as [c'|]; [|discriminate].
    cbn [mbind option_bind]. destruct (c' =? 0).
    { simpl. intros H. injection H as <- <- <- <-.
      eexists _, _, _. split; [reflexivity|]. repeat split. }
    cbn [mbind option_bind].
    destruct (c_strncasecmp "update_after" value nv) as [c2|]; [|discriminate].
    cbn [mbind option_bind]. destruct (c2 =? 0).
    { intros H. injection H as <- <- <- <-.
      eexists _, _, _. split; [reflexivity|]. repeat split. }
    destruct (c_strncasecmp "ok" value nv) as [c3|]; [|discriminate].
    cbn [mbind option_bind]. destruct (c3 =? 0).
    { intros H. injection H as <- <- <- <-.
      eexists _, _, _. split; [reflexivity|]. repeat split. }
    intros H. injection H as <- <- <- <-.
    eexists _, _, _. split; [reflexivity|]. repeat split. congruence.
Qed.

Lemma call_handler_value hd value nv fl1 fl2 o1 o2 e1 e2 h1 h2 rc r1 e1' h1' :
  value_flags fl1 = value_flags fl2 ->
  call_handler hd o1 value nv fl1 e1 h1 = Some (rc, r1, e1', h1') ->
  exists r2 e2' h2',
    call_handler hd o2 value nv fl2 e2 h2 = Some (rc, r2, e2', h2') /\
    same_value rc o1 r1 e1' o2 r2 e2'.
Proof.
  intros Hfl. destruct hd; cbn [call_handler].
  - now apply bool_param_handler_value.
  - now apply num_param_handler_value.
  - now apply string_param_handler_value.
  - now apply stale_param_handler_value.
  - now apply onerror_param_handler_value.
Qed.

(** ** One option, named in three ways *)

Lemma write_one r :
  lcbex_vqstr_write [r]
  = name ← memcpy_src (optname r) (noptname r);
    val ← memcpy_src (optval r) (noptval r);
    Some ("?" ++ name ++ "=" ++ val,
          Z.of_nat (String.length ("?" ++ name ++ "=" ++ val))).
Proof.
  unfold lcbex_vqstr_write, write_loop.
  destruct (memcpy_src (optname r) (noptname r)) as [name|]; [|reflexivity].
  destruct (memcpy_src (optval r) (noptval r)) as [val|]; [|reflexivity].
  cbn [mbind option_bind].
  replace ("?" ++ name ++ "=" ++ val ++ "&")
    with (("?" ++ name ++ "=" ++ val) ++ "&").
  - now rewrite chop_snoc.
  - cbn [String.append]. f_equal. now rewrite !append_assoc.
Qed.

Lemma append_cancel_l (s a b : string) : s ++ a = s ++ b -> a = b.
Proof.
  induction s as [|c s IH]; simpl; [auto|].
  intros H. injection H as H. auto.
Qed.

Lemma memcpy_src_whole p s :
  chars_at p = Some s -> memcpy_src p (Z.of_nat (String.length s)) = Some s.
Proof.
  intros H. unfold memcpy_src. rewrite H. cbn [mbind option_bind].
  now rewrite Nat2Z.id, read_bytes_full.
Qed.

Lemma name_stored_name name fl h :
  memcpy_src (optname (fst (name_stored name fl h)))
    (noptname (fst (name_stored name fl h)))
  = Some name.
Proof.
  unfold name_stored.
  destruct (has_flag fl LCBEX_VOPT_F_OPTNAME_CONSTANT);
    cbn [fst optname noptname set_optname set_noptname set_flags];
    now apply memcpy_src_whole.
Qed.

Lemma number_stored_name p fl :
  In p recognized_view_params ->
  memcpy_src (optname (number_stored p fl)) (noptname (number_stored p fl))
  = Some (param p).
Proof.
  intros Hin.
  pose proof registry_lookup as Hall. rewrite List.Forall_forall in Hall.
  destruct (Hall p Hin) as (_ & _ & Hlen & _).
  unfold number_stored.
  cbn [optname noptname or_flags set_optname set_noptname set_flags].
  rewrite Hlen. now apply memcpy_src_whole.
Qed.

(** Every name of the table finds an entry with the handler of its own. *)
Lemma full_name_handler p :
  In p recognized_view_params ->
  no_nul (param p) = true /\ param p <> "" /\
  (exists p',
     first_beginning (param p) = Some p' /\
     handler_of (ptype p') = handler_of (ptype p)) /\
  entry_numbered (itype p) = Some p /\ int_wrap (itype p) = itype p.
Proof.
  revert p. apply List.Forall_forall.
  repeat constructor; try discriminate; eexists; split; reflexivity.
Qed.

Lemma has_flag_name_numeric_other fl F :
  Z.land LCBEX_VOPT_F_OPTNAME_NUMERIC F = 0 ->
  has_flag (Z.lor fl LCBEX_VOPT_F_OPTNAME_NUMERIC) F = has_flag fl F.
Proof. apply has_flag_or_other. Qed.

Lemma value_flags_name_numeric fl :
  value_flags fl = value_flags (Z.lor fl LCBEX_VOPT_F_OPTNAME_NUMERIC).
Proof.
  unfold value_flags.
  now rewrite !has_flag_name_numeric_other by reflexivity.
Qed.

(** The value length once the sentinel is resolved, when the call is
    defined. *)
Lemma assign_defined_length o option noption value nvalue fl e h r :
  lcbex_vopt_assign o option noption value nvalue fl e h = Some r ->
  exists nv,
    (if nvalue =? SIZE_MAX then c_strlen value else Some nvalue) = Some nv.
Proof.
  unfold lcbex_vopt_assign.
  destruct (if nvalue =? SIZE_MAX then c_strlen value else Some nvalue)
    as [nv|]; [eauto|discriminate].
Qed.

(** An empty value is refused before the name is looked at. *)
Lemma assign_missing_value o option noption no value nvalue nv fl e h :
  (if nvalue =? SIZE_MAX then c_strlen value else Some nvalue) = Some nv ->
  (if noption =? SIZE_MAX then c_strlen option else Some noption) = Some no ->
  negb (has_flag fl LCBEX_VOPT_F_OPTVAL_NUMERIC) && (nv =? 0) = true ->
  lcbex_vopt_assign o option noption value nvalue fl e h
  = Some (LCB_EINVAL, vopt_zero, Some "Missing value length", h).
Proof.
  intros Hnv Hno Hg. unfold lcbex_vopt_assign.
  rewrite Hnv. cbn [mbind option_bind]. rewrite Hno. cbn [mbind option_bind].
  now rewrite Hg.
Qed.

Lemma guard_passed fl nv :
  negb (has_flag fl LCBEX_VOPT_F_OPTVAL_NUMERIC) && (nv =? 0) = false ->
  has_flag fl LCBEX_VOPT_F_OPTVAL_NUMERIC = false -> nv <> 0.
Proof.
  intros Hg Hf. rewrite Hf in Hg. simpl in Hg. now apply Z.eqb_neq.
Qed.

(** X3: an option given by its number is handled as the same option given
    by its name: the two calls return the same status, the same message
    when they fail, and records that [lcbex_vqstr_write] writes alike when
    they succeed. *)
Theorem option_by_number_as_by_name :
  forall p value nvalue fl noption1 noption2 o1 o2 e1 e2 h1 h2 rc r1 e1' h1',
    In p recognized_view_params ->
    len_arg (param p) noption1 -> noption2 <> SIZE_MAX ->
    has_flag fl LCBEX_VOPT_F_PASSTHROUGH = false ->
    has_flag fl LCBEX_VOPT_F_OPTNAME_NUMERIC = false ->
    lcbex_vopt_assign o1 (PStr (param p)) noption1 value nvalue fl e1 h1
    = Some (rc, r1, e1', h1') ->
    exists r2 e2' h2',
      lcbex_vopt_assign o2 (PInt (itype p)) noption2 value nvalue
        (Z.lor fl LCBEX_VOPT_F_OPTNAME_NUMERIC) e2 h2
      = Some (rc, r2, e2', h2') /\
      (rc <> LCB_SUCCESS -> e2' = e1') /\
      (rc = LCB_SUCCESS -> lcbex_vqstr_write [r2] = lcbex_vqstr_write [r1]).
Proof.
  intros p value nvalue fl noption1 noption2 o1 o2 e1 e2 h1 h2 rc r1 e1' h1'
    Hin Hl1 Hno2 Hpass Hnum Hrun.
  destruct (full_name_handler p Hin)
    as (Hnul & Hne & (p' & Hfind & Hh) & Hid & Hwrap).
  destruct (assign_defined_length _ _ _ _ _ _ _ _ _ Hrun) as [nv Hnv].
  assert (Hvn : has_flag (Z.lor fl LCBEX_VOPT_F_OPTNAME_NUMERIC)
                  LCBEX_VOPT_F_OPTVAL_NUMERIC
                = has_flag fl LCBEX_VOPT_F_OPTVAL_NUMERIC)
    by now apply has_flag_name_numeric_other.
  destruct (negb (has_flag fl LCBEX_VOPT_F_OPTVAL_NUMERIC) && (nv =? 0))
    eqn:Hg.
  - rewrite (assign_missing_value o1 _ noption1
               (Z.of_nat (String.length (param p))) value nvalue nv fl e1 h1)
      in Hrun by (assumption || now apply len_arg_resolve).
    injection Hrun as <- <- <- <-.
    rewrite (assign_missing_value o2 (PInt (itype p)) noption2 noption2 value
               nvalue nv _ e2 h2).
    + eexists _, _, _. split; [reflexivity|]. split; congruence.
    + assumption.
    + apply Z.eqb_neq in Hno2. now rewrite Hno2.
    + now rewrite Hvn.
  - pose proof (guard_passed _ _ Hg) as Hnz.
    rewrite (assign_name_step o1 (param p) noption1 value nvalue nv fl e1 h1)
      in Hrun by assumption.
    rewrite Hfind, Hh in Hrun.
    rewrite (assign_number_step o2 (itype p) noption2 value nvalue nv _ e2 h2);
      [|assumption|assumption|now rewrite Hvn
       |now rewrite has_flag_name_numeric_other
       |now apply has_flag_or_same].
    rewrite Hwrap, Hid.
    destruct (call_handler_value (handler_of (ptype p)) value nv fl
                (Z.lor fl LCBEX_VOPT_F_OPTNAME_NUMERIC)
                (fst (name_stored (param p) fl h1))
                (number_stored p (Z.lor fl LCBEX_VOPT_F_OPTNAME_NUMERIC))
                e1 e2 (snd (name_stored (param p) fl h1)) h2 rc r1 e1' h1'
                (value_flags_name_numeric fl) Hrun)
      as (r2 & e2' & h2' & Hrun2 & Hn1 & Hnn1 & Hn2 & Hnn2 & Herr & Hval).
    exists r2, e2', h2'. split; [exact Hrun2|]. split; [exact Herr|].
    intros Hrc. rewrite !write_one, (Hval Hrc).
    rewrite Hn1, Hnn1, Hn2, Hnn2.
    now rewrite name_stored_name, number_stored_name.
Qed.

(** [limit] given [100] by its name and then by its number, as the two
    first examples of the repository do. *)
Lemma option_by_number_as_by_name_witness :
  exists r2 e2' h2',
    lcbex_vopt_assign vopt_zero (PInt LCBEX_VOPT_OPT_LIMIT) 0 (PStr "100")
      SIZE_MAX (Z.lor 0 LCBEX_VOPT_F_OPTNAME_NUMERIC) None ∅
    = Some (LCB_SUCCESS, r2, e2', h2') /\
    (LCB_SUCCESS <> LCB_SUCCESS -> e2' = None) /\
    (LCB_SUCCESS = LCB_SUCCESS ->
     lcbex_vqstr_write [r2]
     = lcbex_vqstr_write
         [ {| optname := Block (fresh (∅ : heap)) "limit";
              optval := Block (fresh ({[fresh (∅ : heap)]} ∪ (∅ : heap))) "100";
              noptname := 5; noptval := 3; flags := 0 |} ]).
Proof.
  apply (option_by_number_as_by_name
           (mk_param LCBEX_VOPT_OPT_LIMIT "limit" t_num) (PStr "100")
           SIZE_MAX 0 SIZE_MAX 0 vopt_zero vopt_zero None None ∅ ∅
           LCB_SUCCESS _ None
           ({[fresh ({[fresh (∅ : heap)]} ∪ (∅ : heap))]}
            ∪ ({[fresh (∅ : heap)]} ∪ ∅))).
  - simpl. tauto.
  - left. reflexivity.
  - discriminate.
  - reflexivity.
  - reflexivity.
  - reflexivity.
Defined.

(** X4: a name that is only the beginning of a name of the table is not
    refused: it is handled as the full name of the first entry that it begins,
    with the same status and the same message on failure, and on success the
    same value is stored; what is written is the name as it was given. *)
Theorem abbreviated_name_as_full_name :
  forall name p noption noptionp value nvalue fl o1 o2 e1 e2 h1 h2 rc r2 e2'
         h2',
    no_nul name = true -> name <> "" -> len_arg name noption ->
    first_beginning name = Some p -> len_arg (param p) noptionp ->
    has_flag fl LCBEX_VOPT_F_PASSTHROUGH = false ->
    has_flag fl LCBEX_VOPT_F_OPTNAME_NUMERIC = false ->
    lcbex_vopt_assign o2 (PStr (param p)) noptionp value nvalue fl e2 h2
    = Some (rc, r2, e2', h2') ->
    exists r1 e1' h1',
      lcbex_vopt_assign o1 (PStr name) noption value nvalue fl e1 h1
      = Some (rc, r1, e1', h1') /\
      (rc <> LCB_SUCCESS -> e1' = e2') /\
      (rc = LCB_SUCCESS ->
       forall val, written_as r2 (param p) val -> written_as r1 name val).
Proof.
  intros name p noption noptionp value nvalue fl o1 o2 e1 e2 h1 h2 rc r2 e2'
    h2' Hn Hne Hl Hfirst Hlp Hpass Hnum Hrun.
  assert (Hin : In p recognized_view_params).
  { unfold first_beginning in Hfirst.
    now apply List.find_some in Hfirst as [Hin _]. }
  destruct (full_name_handler p Hin)
    as (Hnul & Hnep & (p' & Hfind & Hh) & _ & _).
  destruct (assign_defined_length _ _ _ _ _ _ _ _ _ Hrun) as [nv Hnv].
  destruct (negb (has_flag fl LCBEX_VOPT_F_OPTVAL_NUMERIC) && (nv =? 0))
    eqn:Hg.
  - rewrite (assign_missing_value o2 _ noptionp
               (Z.of_nat (String.length (param p))) value nvalue nv fl e2 h2)
      in Hrun by (assumption || now apply len_arg_resolve).
    injection Hrun as <- <- <- <-.
    rewrite (assign_missing_value o1 _ noption
               (Z.of_nat (String.length name)) value nvalue nv fl e1 h1)
      by (assumption || now apply len_arg_resolve).
    eexists _, _, _. split; [reflexivity|]. split; congruence.
  - pose proof (guard_passed _ _ Hg) as Hnz.
    rewrite (assign_name_step o2 (param p) noptionp value nvalue nv fl e2 h2)
      in Hrun by assumption.
    rewrite Hfind, Hh in Hrun.
    rewrite (assign_name_step o1 name noption value nvalue nv fl e1 h1)
      by assumption.
    rewrite Hfirst.
    destruct (call_handler_value (handler_of (ptype p)) value nv fl fl
                (fst (name_stored (param p) fl h2))
                (fst (name_stored name fl h1))
                e2 e1 (snd (name_stored (param p) fl h2))
                (snd (name_stored name fl h1)) rc r2 e2' h2'
                eq_refl Hrun)
      as (r1 & e1' & h1' & Hrun1 & Hn2 & Hnn2 & Hn1 & Hnn1 & Herr & Hval).
    exists r1, e1', h1'. split; [exact Hrun1|]. split; [exact Herr|].
    intros Hrc val. unfold written_as. rewrite !write_one, (Hval Hrc).
    rewrite Hn1, Hnn1, Hn2, Hnn2, !name_stored_name.
    cbn [mbind option_bind].
    destruct (memcpy_src (optval r2) (noptval r2)) as [v2|]; [|discriminate].
    cbn [mbind option_bind]. intros H. injection H as H _.
    apply append_cancel_l in H. injection H as ->. reflexivity.
Qed.

(** [desc] begins [descending] and nothing before it in the table: given
    [true], it is stored as [descending] would be and written [?desc=true]. *)
Lemma abbreviated_name_as_full_name_witness :
  exists r1 e1' h1',
    lcbex_vopt_assign vopt_zero (PStr "desc") SIZE_MAX (PStr "true") SIZE_MAX
      0 None ∅
    = Some (LCB_SUCCESS, r1, e1', h1') /\
    (LCB_SUCCESS <> LCB_SUCCESS -> e1' = None) /\
    (LCB_SUCCESS = LCB_SUCCESS ->
     forall val,
       written_as
         {| optname := Block (fresh (∅ : heap)) "descending";
            optval := Static "true"; noptname := 10; noptval := 4;
            flags := LCBEX_VOPT_F_OPTVAL_CONSTANT |}
         "descending" val ->
       written_as r1 "desc" val).
Proof.
  apply (abbreviated_name_as_full_name "desc"
           (mk_param LCBEX_VOPT_OPT_DESCENDING "descending" t_bool)
           SIZE_MAX SIZE_MAX (PStr "true") SIZE_MAX 0 vopt_zero vopt_zero
           None None ∅ ∅ LCB_SUCCESS _ None ({[fresh (∅ : heap)]} ∪ ∅)).
  - reflexivity.
  - discriminate.
  - left. reflexivity.
  - reflexivity.
  - left. reflexivity.
  - reflexivity.
  - reflexivity.
  - reflexivity.
Defined.

(** ** The option [on_error] *)

Lemma onerror_param_handler_string o1 v fl e h :
  no_nul v = true -> v <> "" ->
  let o1' := or_flags o1 LCBEX_VOPT_F_OPTVAL_CONSTANT in
  let msg := Some "on_error must be one of 'continue' or 'stop'" in
  onerror_param_handler o1 (PStr v) (Z.of_nat (String.length v)) fl e h
  = if String.prefix (lower_string v) "stop"
    then Some (LCB_SUCCESS, set_noptval (set_optval o1' (Static "stop")) 4,
               msg, h)
    else if String.prefix (lower_string v) "continue"
    then Some (LCB_SUCCESS,
               set_noptval (set_optval o1' (Static "continue")) 8, msg, h)
    else Some (LCB_EINVAL, o1', msg, h).
Proof.
  intros Hv Hne. unfold onerror_param_handler.
  rewrite !c_strncasecmp_eqb by (reflexivity || assumption).
  cbn [mbind option_bind].
  rewrite !strncasecmp_eqb by (reflexivity || assumption).
  destruct (String.prefix (lower_string v) "stop"); [reflexivity|].
  destruct (String.prefix (lower_string v) "continue"); reflexivity.
Qed.

(** X5: [on_error], given by name or by number with a string that is not
    empty: the string is accepted when, the case of letters apart, it is
    [stop], [continue] or the beginning of one of them, and the full word is
    stored in lower case; any other string is refused with invalid-argument
    and the message of the handler. *)
Theorem on_error_values :
  forall o option noption v nvalue fl e h,
    name_arg option noption fl onerror_entry ->
    value_arg (PStr v) nvalue fl -> v <> "" ->
    has_flag fl LCBEX_VOPT_F_PASSTHROUGH = false ->
    match onerror_value v with
    | Some w =>
        assigned_as (lcbex_vopt_assign o option noption (PStr v) nvalue fl e h)
          "on_error" w
    | None =>
        exists o' h',
          lcbex_vopt_assign o option noption (PStr v) nvalue fl e h
          = Some (LCB_EINVAL, o',
                  Some "on_error must be one of 'continue' or 'stop'", h')
    end.
Proof.
  intros o option noption v nvalue fl e h Hname Hval Hne Hpass.
  assert (Hin : In onerror_entry recognized_view_params) by (simpl; tauto).
  destruct (assign_recognized_value onerror_entry o option noption (PStr v)
              nvalue fl e h Hin Hname Hpass Hval)
    as (o1 & h1 & nv & Hnamed & Hnv & ->).
  { congruence. }
  destruct Hval as (Hv & _ & _). subst nv.
  change (handler_of (ptype onerror_entry)) with onerror_param_handler_t.
  change (param onerror_entry) with "on_error" in *.
  cbn [call_handler].
  rewrite onerror_param_handler_string by assumption.
  unfold onerror_value.
  destruct (String.prefix (lower_string v) "stop").
  { apply (assigned_as_intro onerror_entry o1); [exact Hnamed|reflexivity..]. }
  destruct (String.prefix (lower_string v) "continue").
  { apply (assigned_as_intro onerror_entry o1); [exact Hnamed|reflexivity..]. }
  eexists _, _. reflexivity.
Qed.

(** [on_error] given [Continue]. *)
Lemma on_error_values_witness :
  assigned_as
    (lcbex_vopt_assign vopt_zero (PStr "on_error") SIZE_MAX (PStr "Continue")
       SIZE_MAX 0 None ∅)
    "on_error" "continue".
Proof.
  apply (on_error_values vopt_zero (PStr "on_error") SIZE_MAX "Continue"
           SIZE_MAX 0 None ∅).
  - left. split; [reflexivity|]. split; [left|]; reflexivity.
  - split; [reflexivity|]. split; [left|]; reflexivity.
  - discriminate.
  - reflexivity.
Defined.

(** X6: [on_error] given an [int], the way the examples pass numbers (the flag
    [LCBEX_VOPT_F_OPTVAL_NUMERIC] and the length 0): the handler does not look
    at the flag, its comparison over 0 bytes succeeds, and [stop] is stored
    whatever the number. *)
Theorem on_error_number_is_stop :
  forall o option noption i fl e h,
    name_arg option noption fl onerror_entry ->
    has_flag fl LCBEX_VOPT_F_OPTVAL_NUMERIC = true ->
    has_flag fl LCBEX_VOPT_F_PASSTHROUGH = false ->
    assigned_as (lcbex_vopt_assign o option noption (PInt i) 0 fl e h)
      "on_error" "stop".
Proof.
  intros o option noption i fl e h Hname Hnum Hpass.
  assert (Hin : In onerror_entry recognized_view_params) by (simpl; tauto).
  destruct (assign_recognized onerror_entry o option noption (PInt i) 0 0 fl
              e h Hin Hname Hpass)
    as (o1 & h1 & Hnamed & ->).
  { reflexivity. }
  { congruence. }
  change (handler_of (ptype onerror_entry)) with onerror_param_handler_t.
  cbn [call_handler]. unfold onerror_param_handler, c_strncasecmp.
  cbn [Z.eqb mbind option_bind].
  apply (assigned_as_intro onerror_entry o1); [exact Hnamed|reflexivity..].
Qed.

(** [on_error] by its number, given the number 1. *)
Lemma on_error_number_is_stop_witness :
  assigned_as
    (lcbex_vopt_assign vopt_zero (PInt LCBEX_VOPT_OPT_ONERROR) 0 (PInt 1) 0
       (Z.lor LCBEX_VOPT_F_OPTNAME_NUMERIC LCBEX_VOPT_F_OPTVAL_NUMERIC)
       None ∅)
    "on_error" "stop".
Proof.
  apply (on_error_number_is_stop vopt_zero (PInt LCBEX_VOPT_OPT_ONERROR) 0 1
           (Z.lor LCBEX_VOPT_F_OPTNAME_NUMERIC LCBEX_VOPT_F_OPTVAL_NUMERIC)
           None ∅).
  - right. split; [reflexivity|]. split; [discriminate|reflexivity].
  - reflexivity.
  - reflexivity.
Defined.

(** ** Passthrough *)

(** X7: with [LCBEX_VOPT_F_PASSTHROUGH] the registry is not consulted at all:
    any name that is not empty, a name of the registry included, is accepted
    with any string that is not empty, whatever the type of the option of that
    name, and is written as given; an [int] is written in decimal. *)
Theorem passthrough_skips_validation :
  forall o name noption value nvalue fl e h,
    no_nul name = true -> name <> "" -> len_arg name noption ->
    value_arg value nvalue fl -> value <> PStr "" -> value_fits value ->
    has_flag fl LCBEX_VOPT_F_PASSTHROUGH = true ->
    has_flag fl LCBEX_VOPT_F_OPTNAME_NUMERIC = false ->
    meets (lcbex_vopt_assign o (PStr name) noption value nvalue fl e h)
      name (passthrough_spec fl value).
Proof.
  intros o name noption value nvalue fl e h Hn Hne Hl Hval Hv0 Hfit Hpass
    Hnum.
  assert (Hl0 : (Z.of_nat (String.length name) =? 0) = false).
  { apply Z.eqb_neq. destruct name; [congruence|simpl; lia]. }
  assert (Hnamed : named (passthrough_named name h)
                     (mk_param 0 name t_string))
    by (repeat split).
  destruct value as [|v|i]; [destruct Hval| |].
  - destruct Hval as (Hvn & Hvl & Hvf).
    assert (Hvne : v <> "") by congruence.
    assert (Hstep :
              lcbex_vopt_assign o (PStr name) noption (PStr v) nvalue fl e h
              = string_param_handler (passthrough_named name h) (PStr v)
                  (Z.of_nat (String.length v)) fl e ({[fresh h]} ∪ h)).
    { unfold lcbex_vopt_assign.
      rewrite (len_arg_resolve _ _ Hvn Hvl). cbn [mbind option_bind].
      rewrite (len_arg_resolve _ _ Hn Hl). cbn [mbind option_bind].
      rewrite Hvf, Hnum, Hpass, Hl0.
      replace (Z.of_nat (String.length v) =? 0) with false
        by (symmetry; apply Z.eqb_neq; destruct v; [congruence|simpl; lia]).
      cbn [negb andb as_chars mbind option_bind]. unfold my_strndup, malloc.
      now rewrite Nat2Z.id, strncpy_no_nul by assumption. }
    rewrite Hstep. cbn [meets passthrough_spec].
    now apply (string_handler_meets (mk_param 0 name t_string)).
  - destruct Hval as (Hvn & Hvf).
    assert (Hstep :
              lcbex_vopt_assign o (PStr name) noption (PInt i) nvalue fl e h
              = num_param_handler (passthrough_named name h) (PInt i) nvalue
                  fl e ({[fresh h]} ∪ h)).
    { unfold lcbex_vopt_assign.
      apply Z.eqb_neq in Hvn. rewrite Hvn. cbn [mbind option_bind].
      rewrite (len_arg_resolve _ _ Hn Hl). cbn [mbind option_bind].
      rewrite Hvf, Hnum, Hpass, Hl0.
      cbn [negb andb as_chars mbind option_bind]. unfold my_strndup, malloc.
      now rewrite Nat2Z.id, strncpy_no_nul by assumption. }
    rewrite Hstep, num_param_handler_int by assumption.
    cbn [meets passthrough_spec].
    apply (assigned_as_intro (mk_param 0 name t_string)
             (passthrough_named name h));
      [assumption|reflexivity..].
Qed.

(** [stale] is an option of the registry that refuses [whenever]; with the
    flag the pair is accepted. *)
Lemma passthrough_skips_validation_witness :
  meets
    (lcbex_vopt_assign vopt_zero (PStr "stale") SIZE_MAX (PStr "whenever")
       SIZE_MAX LCBEX_VOPT_F_PASSTHROUGH None ∅)
    "stale" (Emits "whenever").
Proof.
  apply (passthrough_skips_validation vopt_zero "stale" SIZE_MAX
           (PStr "whenever") SIZE_MAX LCBEX_VOPT_F_PASSTHROUGH None ∅).
  - reflexivity.
  - discriminate.
  - left. reflexivity.
  - split; [reflexivity|]. split; [left|]; reflexivity.
  - discriminate.
  - simpl. unfold SIZE_MAX. lia.
  - reflexivity.
  - reflexivity.
Defined.

(** ** Who owns the blocks of an assigned record *)

Lemma has_flag_clear_same f A : has_flag (Z.land f (Z.lnot A)) A = false.
Proof.
  unfold has_flag. rewrite <- Z.land_assoc, (Z.land_comm (Z.lnot A)).
  now rewrite Z.land_lnot_diag, Z.land_0_r.
Qed.

Lemma set_user_string_left o value nv fl h o' h' :
  set_user_string o value nv fl h = Some (o', h') -> value_left o o' h h'.
Proof.
  unfold set_user_string, my_strndup, malloc, value_left.
  destruct (has_flag fl LCBEX_VOPT_F_OPTVAL_CONSTANT).
  - destruct (cast_charp value) as [p|]; [|discriminate].
    cbn [mbind option_bind]. intros H. injection H as <- <-.
    cbn [optname optval flags or_flags set_flags set_optval set_noptval].
    split; [reflexivity|]. split; [now apply has_flag_or_other|].
    left. split; [reflexivity|]. right. now apply has_flag_or_same.
  - destruct (as_chars value) as [s|]; [|discriminate].
    cbn [mbind option_bind]. intros H. injection H as <- <-.
    cbn [optname optval flags clear_flags set_flags set_optval set_noptval].
    split; [reflexivity|]. split; [now apply has_flag_clear_other|].
    right. eexists. split; [reflexivity|].
    split; [apply has_flag_clear_same|reflexivity].
Qed.

Lemma value_left_unchanged o h :
  optval o = NullP -> value_left o o h h.
Proof. intros H. repeat split. left. auto. Qed.

Lemma value_left_literal o o' h :
  optname o' = optname o ->
  flags o' = Z.lor (flags o) LCBEX_VOPT_F_OPTVAL_CONSTANT ->
  value_left o o' h h.
Proof.
  intros Hn Hf. split; [exact Hn|]. rewrite Hf.
  split; [now apply has_flag_or_other|].
  left. split; [reflexivity|]. right. now apply has_flag_or_same.
Qed.

Lemma bool_param_handler_left o value nv fl e h rc o' e' h' :
  optval o = NullP ->
  bool_param_handler o value nv fl e h = Some (rc, o', e', h') ->
  value_left o o' h h'.
Proof.
  intros Hv. unfold bool_param_handler.
  destruct (has_flag fl LCBEX_VOPT_F_OPTVAL_NUMERIC).
  - destruct (as_int value) as [b|]; [|discriminate].
    cbn [mbind option_bind]. intros H. injection H as <- <- <- <-.
    now apply value_left_literal.
  - destruct (c_strncasecmp "true" value nv) as [c|]; [|discriminate].
    cbn [mbind option_bind]. destruct (c =? 0).
    { intros H. injection H as <- <- <- <-. now apply value_left_literal. }
    destruct (c_strncasecmp "false" value nv) as [c'|]; [|discriminate].
    cbn [mbind option_bind]. destruct (c' =? 0).
    { intros H. injection H as <- <- <- <-. now apply value_left_literal. }
    intros H. injection H as <- <- <- <-. now apply value_left_unchanged.
Qed.

Lemma num_param_handler_left o value nv fl e h rc o' e' h' :
  optval o = NullP ->
  num_param_handler o value nv fl e h = Some (rc, o', e', h') ->
  value_left o o' h h'.
Proof.
  intros Hv. unfold num_param_handler, malloc.
  destruct (has_flag fl LCBEX_VOPT_F_OPTVAL_NUMERIC).
  - destruct (as_int value) as [b|]; [|discriminate].
    cbn [mbind option_bind]. intros H. injection H as <- <- <- <-.
    unfold value_left.
    cbn [optname optval flags clear_flags set_flags set_optval set_noptval].
    split; [reflexivity|]. split; [now apply has_flag_clear_other|].
    right. eexists. split; [reflexivity|].
    split; [apply has_flag_clear_same|reflexivity].
  - destruct (if nv =? SIZE_MAX then c_strlen value else Some nv) as [n|];
      [|discriminate].
    cbn [mbind option_bind]. destruct (n =? 0).
    { intros H. injection H as <- <- <- <-. now apply value_left_unchanged. }
    destruct (as_chars value) as [istr|]; [|discriminate].
    cbn [mbind option_bind].
    destruct (negb (isdigit (first_byte istr))
              && negb (Ascii.eqb (first_byte istr) "-")).
    { intros H. injection H as <- <- <- <-. now apply value_left_unchanged. }
    destruct (negb (all_digits (rest_bytes istr) (n - 1))).
    { intros H. injection H as <- <- <- <-. now apply value_left_unchanged. }
    destruct (set_user_string o value n fl h) as [[r hr]|] eqn:E;
      [|discriminate].
    cbn [mbind option_bind]. intros H. injection H as <- <- <- <-.
    now apply set_user_string_left in E.
Qed.

Lemma string_param_handler_left o value nv fl e h rc o' e' h' :
  optval o = NullP ->
  has_flag (flags o) LCBEX_VOPT_F_OPTVAL_CONSTANT
  && has_flag fl LCBEX_VOPT_F_PCTENCODE = false ->
  string_param_handler o value nv fl e h = Some (rc, o', e', h') ->
  value_left o o' h h'.
Proof.
  intros Hv Hfl. unfold string_param_handler, malloc.
  destruct (has_flag fl LCBEX_VOPT_F_OPTVAL_NUMERIC).
  { intros H. injection H as <- <- <- <-. now apply value_left_unchanged. }
  destruct (has_flag fl LCBEX_VOPT_F_PCTENCODE); cbn [negb].
  - destruct (if nv =? 0 then Some "" else as_chars value) as [str|];
      [|discriminate].
    cbn [mbind option_bind].
    destruct (read_bytes str (Z.to_nat nv)) as [bytes|]; [|discriminate].
    cbn [mbind option_bind].
    destruct (needed_size_loop bytes 0 =? nv).
    + destruct (set_user_string o value nv fl h) as [[r hr]|] eqn:E;
        [|discriminate].
      cbn [mbind option_bind]. intros H. injection H as <- <- <- <-.
      now apply set_user_string_left in E.
    + destruct (do_pct_encode true str nv) as [[out d_len]|]; [|discriminate].
      cbn [mbind option_bind].
      destruct (Z.of_nat (String.length out) + 1
                <=? size_add (needed_size_loop bytes 0) 1); [|discriminate].
      intros H. injection H as <- <- <- <-.
      unfold value_left.
      cbn [optname optval flags set_optval set_noptval].
      split; [reflexivity|]. split; [reflexivity|].
      right. eexists. split; [reflexivity|]. split; [|reflexivity].
      now rewrite andb_true_r in Hfl.
  - destruct (set_user_string o value nv fl h) as [[r hr]|] eqn:E;
      [|discriminate].
    cbn [mbind option_bind]. intros H. injection H as <- <- <- <-.
    now apply set_user_string_left in E.
Qed.

Lemma stale_param_handler_left o value nv fl e h rc o' e' h' :
  stale_param_handler o value nv fl e h = Some (rc, o', e', h') ->
  value_left o o' h h'.
Proof.
  unfold stale_param_handler, bool_param_handler.
  destruct (has_flag fl LCBEX_VOPT_F_OPTVAL_NUMERIC).
  - destruct (as_int value) as [b|]; [|discriminate].
    cbn [mbind option_bind]. destruct (b =? 0); simpl;
      intros H; injection H as <- <- <- <-;
      (apply value_left_literal; [reflexivity|]);
      cbn [flags or_flags set_flags set_optval set_noptval];
      now rewrite <- Z.lor_assoc, Z.lor_diag.
  - destruct (c_strncasecmp "true" value nv) as [c|]; [|discriminate].
    cbn [mbind option_bind]. destruct (c =? 0).
    { simpl. intros H. injection H as <- <- <- <-.
      apply value_left_literal; [reflexivity|].
      cbn [flags or_flags set_flags set_optval set_noptval].
      now rewrite <- Z.lor_assoc, Z.lor_diag. }
    destruct (c_strncasecmp "false" value nv) as [c'|]; [|discriminate].
    cbn [mbind option_bind]. destruct (c' =? 0).
    { simpl. intros H. injection H as <- <- <- <-.
      apply value_left_literal; [reflexivity|].
      cbn [flags or_flags set_flags set_optval set_noptval].
      now rewrite <- Z.lor_assoc, Z.lor_diag. }
    cbn [mbind option_bind].
    destruct (c_strncasecmp "update_after" value nv) as [c2|]; [|discriminate].
    cbn [mbind option_bind]. destruct (c2 =? 0).
    { intros H. injection H as <- <- <- <-.
      now apply value_left_literal. }
    destruct (c_strncasecmp "ok" value nv) as [c3|]; [|discriminate].
    cbn [mbind option_bind]. destruct (c3 =? 0).
    { intros H. injection H as <- <- <- <-.
      now apply value_left_literal. }
    intros H. injection H as <- <- <- <-.
    now apply value_left_literal.
Qed.

Lemma onerror_param_handler_left o value nv fl e h rc o' e' h' :
  onerror_param_handler o value nv fl e h = Some (rc, o', e', h') ->
  value_left o o' h h'.
Proof.
  unfold onerror_param_handler.
  destruct (c_strncasecmp "stop" value nv) as [c|]; [|discriminate].
  cbn [mbind option_bind]. destruct (c =? 0).
  { intros H. injection H as <- <- <- <-. now apply value_left_literal. }
  destruct (c_strncasecmp "continue" value nv) as [c'|]; [|discriminate].
  cbn [mbind option_bind]. destruct (c' =? 0).
  { intros H. injection H as <- <- <- <-. now apply value_left_literal. }
  intros H. injection H as <- <- <- <-. now apply value_left_literal.
Qed.

Lemma call_handler_left hd o value nv fl e h rc o' e' h' :
  optval o = NullP ->
  has_flag (flags o) LCBEX_VOPT_F_OPTVAL_CONSTANT
  && has_flag fl LCBEX_VOPT_F_PCTENCODE = false ->
  call_handler hd o value nv fl e h = Some (rc, o', e', h') ->
  value_left o o' h h'.
Proof.
  intros Hv Hfl. destruct hd; cbn [call_handler].
  - now apply bool_param_handler_left.
  - now apply num_param_handler_left.
  - now apply string_param_handler_left.
  - now apply stale_param_handler_left.
  - now apply onerror_param_handler_left.
Qed.

Lemma owned_constant p : owned p true = [].
Proof. destruct p; reflexivity. Qed.

Lemma releasable_constant p : releasable p true.
Proof. destruct p; reflexivity. Qed.

Lemma owns_nothing o (h : heap) :
  blocks_of o = [] -> cleanable o -> owns_exactly o h h.
Proof.
  intros Hb Hc. unfold owns_exactly. rewrite Hb.
  split; [exact Hc|]. split; [apply NoDup_nil_2|].
  split; [set_solver|]. rewrite list_to_set_nil. set_solver.
Qed.

Lemma owns_name_block o (h : heap) s :
  optname o = Block (fresh h) s -> optval o = NullP ->
  has_flag (flags o) LCBEX_VOPT_F_OPTNAME_CONSTANT = false ->
  owns_exactly o h ({[fresh h]} ∪ h).
Proof.
  intros Hn Hv Hf. unfold owns_exactly, cleanable, blocks_of.
  rewrite Hn, Hv, Hf. cbn [owned releasable app].
  pose proof (is_fresh h) as Hfr.
  split; [split; exact I|]. split; [apply NoDup_singleton|].
  split; [set_solver|].
  rewrite list_to_set_cons, list_to_set_nil. set_solver.
Qed.

(** The handler keeps the ownership of the name and adds that of the
    value. *)
Lemma value_left_owns o1 o' (h h1 h' : heap) :
  owns_exactly o1 h h1 -> optval o1 = NullP -> value_left o1 o' h1 h' ->
  owns_exactly o' h h'.
Proof.
  intros (Hc & Hnd & Hnew & Hh1) Hv (Hn & Hf & Hcase).
  unfold cleanable, blocks_of in *. rewrite Hv in *.
  cbn [owned releasable] in *. rewrite app_nil_r in *.
  destruct Hc as [Hc _]. rewrite <- Hn, <- Hf in *.
  set (l := owned (optname o') (has_flag (flags o') LCBEX_VOPT_F_OPTNAME_CONSTANT))
    in *.
  unfold owns_exactly, cleanable, blocks_of. fold l.
  destruct Hcase as [[-> Hval]|(s & Hval & Hvf & ->)].
  - assert (Ho : owned (optval o')
                   (has_flag (flags o') LCBEX_VOPT_F_OPTVAL_CONSTANT) = []
                 /\ releasable (optval o')
                      (has_flag (flags o') LCBEX_VOPT_F_OPTVAL_CONSTANT)).
    { destruct Hval as [->| ->].
      - split; [reflexivity|exact I].
      - split; [apply owned_constant|apply releasable_constant]. }
    destruct Ho as [-> Hr]. rewrite app_nil_r. auto.
  - rewrite Hval, Hvf. cbn [owned releasable].
    pose proof (is_fresh h1) as Hfr.
    assert (Hl : forall b, b ∈ l -> b ∈ h1).
    { intros b Hb. rewrite Hh1. apply elem_of_union. left.
      now apply elem_of_list_to_set. }
    assert (Hsub : forall b, b ∈ h -> b ∈ h1).
    { intros b Hb. rewrite Hh1. apply elem_of_union. now right. }
    split; [auto|]. split.
    + apply NoDup_app. split; [exact Hnd|]. split; [|apply NoDup_singleton].
      intros b Hb Hb'. apply list_elem_of_singleton in Hb'. subst b.
      apply Hfr. now apply Hl.
    + split.
      * intros b Hb. apply elem_of_app in Hb as [Hb|Hb]; [now apply Hnew|].
        apply list_elem_of_singleton in Hb. subst b.
        intros Hin. apply Hfr. now apply Hsub.
      * apply set_eq. intros b.
        rewrite !elem_of_union, elem_of_list_to_set, elem_of_app,
          elem_of_singleton, list_elem_of_singleton.
        split.
        -- intros [->|Hb]; [left; right; reflexivity|].
           rewrite Hh1 in Hb. apply elem_of_union in Hb as [Hb|Hb];
             [|now right].
           left. left. now apply elem_of_list_to_set in Hb.
        -- intros [[Hb| ->]|Hb];
             [right; now apply Hl|left; reflexivity|right; now apply Hsub].
Qed.

(** The blocks that a call of [lcbex_vopt_assign] allocates are those that
    the record it leaves owns, unless a value that has to be escaped is
    given with [LCBEX_VOPT_F_OPTVAL_CONSTANT] to an option of the
    registry. *)
Lemma lcbex_vopt_assign_owns o option noption value nvalue fl e h rc o' e'
    h' :
  lcbex_vopt_assign o option noption value nvalue fl e h
  = Some (rc, o', e', h') ->
  has_flag fl LCBEX_VOPT_F_PASSTHROUGH = true \/
  has_flag fl LCBEX_VOPT_F_OPTVAL_CONSTANT = false \/
  has_flag fl LCBEX_VOPT_F_PCTENCODE = false ->
  owns_exactly o' h h'.
Proof.
  unfold lcbex_vopt_assign. intros H Hfl.
  destruct (if nvalue =? SIZE_MAX then c_strlen value else Some nvalue)
    as [nv|]; [|discriminate].
  cbn [mbind option_bind] in H.
  destruct (if noption =? SIZE_MAX then c_strlen option else Some noption)
    as [no|]; [|discriminate].
  cbn [mbind option_bind] in H.
  destruct (negb (has_flag fl LCBEX_VOPT_F_OPTVAL_NUMERIC) && (nv =? 0)).
  { injection H as <- <- <- <-.
    apply owns_nothing; [reflexivity|split; exact I]. }
  destruct (negb (has_flag fl LCBEX_VOPT_F_OPTNAME_NUMERIC) && (no =? 0)).
  { injection H as <- <- <- <-.
    apply owns_nothing; [reflexivity|split; exact I]. }
  destruct (has_flag fl LCBEX_VOPT_F_PASSTHROUGH) eqn:Hpass.
  - destruct (has_flag fl LCBEX_VOPT_F_OPTNAME_NUMERIC).
    { injection H as <- <- <- <-.
      apply owns_nothing; [reflexivity|split; exact I]. }
    destruct (as_chars option) as [name|]; [|discriminate].
    cbn [mbind option_bind] in H. unfold my_strndup, malloc in H.
    destruct (has_flag fl LCBEX_VOPT_F_OPTVAL_NUMERIC).
    + eapply value_left_owns;
        [| |eapply num_param_handler_left; [|exact H]];
        [eapply owns_name_block; reflexivity|reflexivity..].
    + eapply value_left_owns;
        [| |eapply string_param_handler_left; [| |exact H]];
        [eapply owns_name_block; reflexivity|reflexivity..].
  - assert (Hvc : has_flag fl LCBEX_VOPT_F_OPTVAL_CONSTANT
                  && has_flag fl LCBEX_VOPT_F_PCTENCODE = false).
    { destruct Hfl as [Hfl|[-> | ->]];
        [discriminate|reflexivity|apply andb_false_r]. }
    destruct (find_view_param option no fl) as [[vparam|]|]; [| |discriminate].
    2:{ injection H as <- <- <- <-.
        apply owns_nothing; [reflexivity|split; exact I]. }
    cbn [mbind option_bind] in H.
    destruct (has_flag fl LCBEX_VOPT_F_OPTNAME_NUMERIC).
    + cbn [mbind option_bind] in H.
      eapply value_left_owns; [| |eapply call_handler_left; [| |exact H]].
      * apply owns_nothing.
        -- unfold blocks_of.
           cbn [optname optval flags or_flags set_flags set_optname
                set_noptname vopt_zero].
           rewrite has_flag_or_same by discriminate. reflexivity.
        -- unfold cleanable.
           cbn [optname optval flags or_flags set_flags set_optname
                set_noptname vopt_zero].
           rewrite has_flag_or_same by discriminate. split; reflexivity.
      * reflexivity.
      * reflexivity.
      * cbn [flags or_flags set_flags set_optname set_noptname vopt_zero].
        now rewrite has_flag_or_other by reflexivity.
    + destruct (has_flag fl LCBEX_VOPT_F_OPTNAME_CONSTANT) eqn:Hnc.
      * destruct (cast_charp option) as [p|]; [|discriminate].
        cbn [mbind option_bind] in H.
        eapply value_left_owns; [| |eapply call_handler_left; [| |exact H]].
        -- apply owns_nothing.
           ++ unfold blocks_of.
              cbn [optname optval flags set_flags set_optname set_noptname
                   vopt_zero].
              rewrite Hnc. now rewrite owned_constant.
           ++ unfold cleanable.
              cbn [optname optval flags set_flags set_optname set_noptname
                   vopt_zero].
              rewrite Hnc. split; [apply releasable_constant|exact I].
        -- reflexivity.
        -- reflexivity.
        -- exact Hvc.
      * destruct (as_chars option) as [name|]; [|discriminate].
        cbn [mbind option_bind] in H. unfold my_strndup, malloc in H.
        eapply value_left_owns; [| |eapply call_handler_left; [| |exact H]].
        -- eapply owns_name_block; [reflexivity|reflexivity|exact Hnc].
        -- reflexivity.
        -- reflexivity.
        -- exact Hvc.
Qed.

(** X8: whatever the arguments, when a call of [lcbex_vopt_assign] returns,
    with success or not, one call of [lcbex_vopt_cleanup] on the record
    releases every block that the assignment has allocated, releases nothing
    else and leaves the record zeroed. The one case left out is a value given
    with both [LCBEX_VOPT_F_OPTVAL_CONSTANT] and [LCBEX_VOPT_F_PCTENCODE] to
    an option of the registry. *)
Theorem assign_then_cleanup_restores_heap :
  forall o option noption value nvalue fl e h rc o' e' h',
    lcbex_vopt_assign o option noption value nvalue fl e h
    = Some (rc, o', e', h') ->
    has_flag fl LCBEX_VOPT_F_PASSTHROUGH = true \/
    has_flag fl LCBEX_VOPT_F_OPTVAL_CONSTANT = false \/
    has_flag fl LCBEX_VOPT_F_PCTENCODE = false ->
    lcbex_vopt_cleanup o' h' = Some (vopt_zero, h).
Proof.
  intros o option noption value nvalue fl e h rc o' e' h' Hrun Hfl.
  destruct (lcbex_vopt_assign_owns _ _ _ _ _ _ _ _ _ _ _ _ Hrun Hfl)
    as (Hc & Hnd & Hnew & ->).
  rewrite lcbex_vopt_cleanup_spec.
  - f_equal. f_equal.
    assert (Hd : forall b, b ∈ (list_to_set (blocks_of o') : heap) -> b ∉ h).
    { intros b Hb. apply Hnew. now apply elem_of_list_to_set in Hb. }
    clear -Hd. set_solver.
  - exact Hc.
  - exact Hnd.
  - intros b Hb. apply elem_of_union. left. now apply elem_of_list_to_set.
Qed.

(** [startkey] given a value that is escaped: the name and the value are
    two blocks, and the cleanup releases both. *)
Lemma assign_then_cleanup_restores_heap_witness :
  lcbex_vopt_cleanup
    {| optname := Block (fresh (∅ : heap)) "startkey";
       optval := Block (fresh ({[fresh (∅ : heap)]} ∪ (∅ : heap))) "%5B1%5D";
       noptname := 8; noptval := 7; flags := LCBEX_VOPT_F_PCTENCODE |}
    ({[fresh ({[fresh (∅ : heap)]} ∪ (∅ : heap))]}
     ∪ ({[fresh (∅ : heap)]} ∪ ∅))
  = Some (vopt_zero, ∅).
Proof.
  apply (assign_then_cleanup_restores_heap vopt_zero (PStr "startkey")
           SIZE_MAX (PStr "[1]") SIZE_MAX LCBEX_VOPT_F_PCTENCODE None ∅
           LCB_SUCCESS _ None).
  - reflexivity.
  - right. left. reflexivity.
Defined.

(** ** A value marked constant that has to be escaped *)

(** A recognized option without passthrough, with what the record holds
    and owns when the handler is called. *)
Lemma assign_entry_step p o option noption value nvalue nv fl e h :
  In p recognized_view_params ->
  name_arg option noption fl p ->
  has_flag fl LCBEX_VOPT_F_PASSTHROUGH = false ->
  (if nvalue =? SIZE_MAX then c_strlen value else Some nvalue) = Some nv ->
  (has_flag fl LCBEX_VOPT_F_OPTVAL_NUMERIC = false -> nv <> 0) ->
  exists o1 h1,
    named o1 p /\ owns_exactly o1 h h1 /\
    has_flag (flags o1) LCBEX_VOPT_F_OPTVAL_CONSTANT
    = has_flag fl LCBEX_VOPT_F_OPTVAL_CONSTANT /\
    lcbex_vopt_assign o option noption value nvalue fl e h
    = call_handler (handler_of (ptype p)) o1 value nv fl e h1.
Proof.
  intros Hin Hname Hpass Hnv Hnz.
  destruct (full_name_handler p Hin)
    as (Hnul & Hne & (p' & Hfind & Hh) & Hid & Hwrap).
  pose proof registry_lookup as Hall. rewrite List.Forall_forall in Hall.
  destruct (Hall p Hin) as (_ & _ & Hlen & _).
  destruct Hname as [(-> & Hl & Hnum)|(-> & Hno & Hnum)].
  - rewrite (assign_name_step o (param p) noption value nvalue nv fl e h)
      by assumption.
    rewrite Hfind, Hh. eexists _, _. split; [|split; [|split; [|reflexivity]]].
    + unfold name_stored.
      destruct (has_flag fl LCBEX_VOPT_F_OPTNAME_CONSTANT); repeat split.
    + unfold name_stored.
      destruct (has_flag fl LCBEX_VOPT_F_OPTNAME_CONSTANT) eqn:Hnc;
        cbn [fst snd].
      * apply owns_nothing.
        -- unfold blocks_of.
           cbn [optname optval flags set_flags set_optname set_noptname
                vopt_zero].
           now rewrite Hnc.
        -- unfold cleanable.
           cbn [optname optval flags set_flags set_optname set_noptname
                vopt_zero].
           rewrite Hnc. split; reflexivity.
      * eapply owns_name_block; [reflexivity|reflexivity|exact Hnc].
    + unfold name_stored.
      destruct (has_flag fl LCBEX_VOPT_F_OPTNAME_CONSTANT); reflexivity.
  - rewrite (assign_number_step o (itype p) noption value nvalue nv fl e h)
      by assumption.
    rewrite Hwrap, Hid. eexists _, _.
    split; [|split; [|split; [|reflexivity]]].
    + repeat split. cbn. now rewrite Hlen.
    + apply owns_nothing.
      * unfold blocks_of, number_stored.
        cbn [optname optval flags or_flags set_flags set_optname
             set_noptname vopt_zero].
        rewrite has_flag_or_same by discriminate. reflexivity.
      * unfold cleanable, number_stored.
        cbn [optname optval flags or_flags set_flags set_optname
             set_noptname vopt_zero].
        rewrite has_flag_or_same by discriminate. split; reflexivity.
    + unfold number_stored.
      cbn [flags or_flags set_flags set_optname set_noptname vopt_zero].
      now apply has_flag_or_other.
Qed.

(** X9: when a string option of the registry is given a value that has to be
    escaped with both [LCBEX_VOPT_F_PCTENCODE] and
    [LCBEX_VOPT_F_OPTVAL_CONSTANT], the escaped copy is stored in a fresh
    block while the record stays marked as holding a constant value:
    [lcbex_vopt_cleanup] then returns without releasing that block, which
    stays live. *)
Theorem constant_flag_keeps_escaped_copy :
  forall p o option noption v nvalue fl e h,
    In p (options_of string_param_handler_t) ->
    name_arg option noption fl p ->
    value_arg (PStr v) nvalue fl -> value_fits (PStr v) ->
    forallb unreserved (list_ascii_of_string v) = false ->
    has_flag fl LCBEX_VOPT_F_PASSTHROUGH = false ->
    has_flag fl LCBEX_VOPT_F_PCTENCODE = true ->
    has_flag fl LCBEX_VOPT_F_OPTVAL_CONSTANT = true ->
    exists o' e' h' b,
      lcbex_vopt_assign o option noption (PStr v) nvalue fl e h
      = Some (LCB_SUCCESS, o', e', h') /\
      optval o' = Block b (pct_encode v) /\ (b ∉ h) /\ (b ∈ h') /\
      lcbex_vopt_cleanup o' h' = Some (vopt_zero, {[b]} ∪ h).
Proof.
  intros p o option noption v nvalue fl e h Hp Hname (Hv & Hl & Hnum) Hfit
    Hesc Hpass Hpct Hconst.
  apply options_of_In in Hp as [Hin Hh].
  assert (Hne : v <> "") by (intros ->; discriminate).
  destruct (assign_entry_step p o option noption (PStr v) nvalue
              (Z.of_nat (String.length v)) fl e h Hin Hname Hpass)
    as (o1 & h1 & Hnamed & Hown & Hfl & ->).
  { now apply len_arg_resolve. }
  { intros _. destruct v; [congruence|simpl; lia]. }
  rewrite Hh. cbn [call_handler].
  rewrite string_param_handler_string by assumption.
  rewrite Hpct, Hesc. unfold encoded_stored. cbn [fst snd].
  destruct Hown as (Hc & Hnd & Hnew & Hh1).
  destruct Hnamed as (_ & _ & Hval & _).
  unfold cleanable, blocks_of in Hc, Hnd, Hnew, Hh1. rewrite Hval in *.
  cbn [owned releasable] in *. rewrite app_nil_r in *.
  destruct Hc as [Hc _].
  pose proof (is_fresh h1) as Hfr.
  assert (Hsub : forall b, b ∈ h -> b ∈ h1).
  { intros b Hb. rewrite Hh1. apply elem_of_union. now right. }
  assert (Hl1 : forall b,
             b ∈ owned (optname o1)
                   (has_flag (flags o1) LCBEX_VOPT_F_OPTNAME_CONSTANT) ->
             b ∈ h1).
  { intros b Hb. rewrite Hh1. apply elem_of_union. left.
    now apply elem_of_list_to_set. }
  eexists _, _, _, (fresh h1). split; [reflexivity|].
  cbn [optval set_optval set_noptval].
  split; [reflexivity|]. split; [intros Hb; apply Hfr; now apply Hsub|].
  split; [apply elem_of_union; left; now apply elem_of_singleton|].
  rewrite lcbex_vopt_cleanup_spec.
  - f_equal. f_equal. unfold blocks_of.
    cbn [optname optval flags set_optval set_noptval]. rewrite Hfl, Hconst.
    cbn [owned]. rewrite app_nil_r.
    apply set_eq. intros b.
    rewrite elem_of_difference, !elem_of_union, elem_of_singleton,
      elem_of_list_to_set.
    split.
    + intros [[->|Hb] Hnot]; [now left|]. right.
      rewrite Hh1 in Hb. apply elem_of_union in Hb as [Hb|Hb]; [|exact Hb].
      apply elem_of_list_to_set in Hb. contradiction.
    + intros [->|Hb].
      * split; [now left|]. intros Hb. apply Hfr. now apply Hl1.
      * split; [right; now apply Hsub|]. intros Hb'. now apply (Hnew b).
  - unfold cleanable. cbn [optname optval flags set_optval set_noptval].
    split; [exact Hc|exact I].
  - unfold blocks_of. cbn [optname optval flags set_optval set_noptval].
    rewrite Hfl, Hconst. cbn [owned]. now rewrite app_nil_r.
  - unfold blocks_of. cbn [optname optval flags set_optval set_noptval].
    rewrite Hfl, Hconst. cbn [owned]. rewrite app_nil_r.
    intros b Hb. apply elem_of_union. right. now apply Hl1.
Qed.

(** [startkey] by its number, given [[1]] with the two flags. *)
Lemma constant_flag_keeps_escaped_copy_witness :
  exists o' e' h' b,
    lcbex_vopt_assign vopt_zero (PInt LCBEX_VOPT_OPT_STARTKEY) 0 (PStr "[1]")
      SIZE_MAX
      (Z.lor LCBEX_VOPT_F_OPTNAME_NUMERIC
         (Z.lor LCBEX_VOPT_F_PCTENCODE LCBEX_VOPT_F_OPTVAL_CONSTANT))
      None ∅
    = Some (LCB_SUCCESS, o', e', h') /\
    optval o' = Block b (pct_encode "[1]") /\ (b ∉ (∅ : heap)) /\ (b ∈ h') /\
    lcbex_vopt_cleanup o' h' = Some (vopt_zero, {[b]} ∪ ∅).
Proof.
  apply (constant_flag_keeps_escaped_copy
           (mk_param LCBEX_VOPT_OPT_STARTKEY "startkey" t_jval) vopt_zero
           (PInt LCBEX_VOPT_OPT_STARTKEY) 0 "[1]" SIZE_MAX
           (Z.lor LCBEX_VOPT_F_OPTNAME_NUMERIC
              (Z.lor LCBEX_VOPT_F_PCTENCODE LCBEX_VOPT_F_OPTVAL_CONSTANT))
           None ∅).
  - simpl. tauto.
  - right. split; [reflexivity|]. split; [discriminate|reflexivity].
  - split; [reflexivity|]. split; [left|]; reflexivity.
  - simpl. unfold SIZE_MAX. lia.
  - reflexivity.
  - reflexivity.
  - reflexivity.
  - reflexivity.
Defined.

(** ** Bulk creation that succeeds *)

Lemma scan_pairs_success ap :
  fst (fst (scan_pairs ap)) = LCB_SUCCESS ->
  length ap = (2 * snd (scan_pairs ap))%nat.
Proof.
  induction ap as [|k|k v ap IH] using pair_ind.
  - reflexivity.
  - discriminate.
  - cbn [scan_pairs]. destruct (pair_accepted k v); [|discriminate].
    destruct (scan_pairs ap) as [[err msg] n]. cbn [fst snd] in *.
    intros H. specialize (IH H). cbn [length]. lia.
Qed.

(** What a successful call of [lcbex_vopt_createv] leaves. *)
Lemma lcbex_vopt_createv_success junk ap (h : heap) arr slots noptions errstr
    h' :
  Z.of_nat (length ap) <= SIZE_MAX ->
  lcbex_vopt_createv junk ap h
  = Some (LCB_SUCCESS, Some (arr, slots), noptions, errstr, h') ->
  createv_inv h arr slots h' /\ noptions = Z.of_nat (length slots) /\
  length ap = (2 * length slots)%nat /\ slots <> [].
Proof.
  intros Hsz. unfold lcbex_vopt_createv, malloc.
  pose proof (is_fresh h) as Hfr.
  assert (Hinv0 : createv_inv h (fresh h) [] ({[fresh h]} ∪ h)).
  { split; [constructor|]. cbn [flat_map]. split; [|split].
    - apply NoDup_singleton.
    - intros b Hb%list_elem_of_singleton. now subst b.
    - rewrite list_to_set_cons, list_to_set_nil. clear. set_solver. }
  destruct (createv_loop_spec junk h ap (fresh h) [] 8 (Some "")
              ({[fresh h]} ∪ h) Hinv0 ltac:(simpl; lia))
    as (arr1 & slots1 & e1 & h1 & Hloop & Hinv & Hlen & Hmsg).
  change (Z.of_nat (@length lcbex_vopt_st [])) with 0 in Hloop.
  cbv beta iota zeta. rewrite Hloop.
  cbn [mbind option_bind]. cbn [length Nat.add] in Hlen.
  destruct (Z.of_nat (length slots1) =? 0) eqn:E0.
  { destruct (lcbex_vopt_cleanup_list slots1 (Z.of_nat (length slots1)) h1)
      as [[zs hz]|]; [|discriminate].
    cbn [mbind option_bind]. destruct (free_block arr1 hz); discriminate. }
  destruct (fst (fst (scan_pairs ap))) eqn:Erc.
  - intros H. injection H as <- <- <- <- <-.
    split; [exact Hinv|]. split; [reflexivity|].
    split; [rewrite Hlen; now apply scan_pairs_success|].
    apply Z.eqb_neq in E0. destruct slots1; [simpl in E0; lia|discriminate].
  - destruct (lcbex_vopt_cleanup_list slots1 (Z.of_nat (length slots1)) h1)
      as [[zs hz]|]; [|discriminate].
    cbn [mbind option_bind]. destruct (free_block arr1 hz); discriminate.
  - destruct (lcbex_vopt_cleanup_list slots1 (Z.of_nat (length slots1)) h1)
      as [[zs hz]|]; [|discriminate].
    cbn [mbind option_bind]. destruct (free_block arr1 hz); discriminate.
Qed.

(** X10: after a successful [lcbex_vopt_createv], whatever the number of pairs
    (the array is reallocated as it grows), the count returned is half the
    number of arguments, and the call of [lcbex_vopt_cleanup_list] on the
    contiguous array followed by [free] of the array, as the header asks,
    releases every block that the creation has allocated and nothing else. *)
Theorem createv_then_cleanup_restores_heap :
  forall junk ap (h : heap) arr slots noptions errstr h',
    Z.of_nat (length ap) <= SIZE_MAX ->
    lcbex_vopt_createv junk ap h
    = Some (LCB_SUCCESS, Some (arr, slots), noptions, errstr, h') ->
    noptions = Z.of_nat (length slots) /\
    length ap = (2 * length slots)%nat /\ slots <> [] /\
    exists zs h'',
      lcbex_vopt_cleanup_list slots noptions h' = Some (zs, h'') /\
      free_block arr h'' = Some h.
Proof.
  intros junk ap h arr slots noptions errstr h' Hsz Hrun.
  destruct (lcbex_vopt_createv_success _ _ _ _ _ _ _ _ Hsz Hrun)
    as (Hinv & -> & Hlen & Hne).
  split; [reflexivity|]. split; [exact Hlen|]. split; [exact Hne|].
  destruct Hinv as (Hc & Hnd & Hfresh & ->).
  apply NoDup_cons in Hnd as [Harr Hnd].
  set (bl := flat_map blocks_of slots) in *.
  assert (Harr0 : arr ∉ h) by (apply Hfresh; apply elem_of_cons; auto).
  assert (Hbl : forall b, b ∈ bl -> b ∉ h)
    by (intros b Hb; apply Hfresh; apply elem_of_cons; auto).
  destruct (lcbex_vopt_cleanup_list_spec slots
              (list_to_set (arr :: bl) ∪ h) Hc Hnd) as [zs Hzs].
  { intros b Hb. apply elem_of_union_l, elem_of_list_to_set.
    apply elem_of_cons. auto. }
  exists zs, ({[arr]} ∪ h). split.
  - rewrite Hzs. f_equal. f_equal. fold bl.
    apply set_eq. intros x.
    rewrite elem_of_difference, !elem_of_union, !elem_of_list_to_set,
      elem_of_cons, elem_of_singleton.
    split.
    + intros [[[->|Hx]|Hx] Hn]; tauto.
    + intros [->|Hx]; [tauto|]. split; [tauto|]. intros Hx'.
      now apply (Hbl x).
  - unfold free_block.
    destruct (decide (arr ∈ {[arr]} ∪ h)) as [_|Hn]; [|set_solver].
    f_equal. clear -Harr0. set_solver.
Qed.

(** The pairs [stale=false] and [limit=100]: three blocks for the records
    and one for the array, all released. *)
Lemma createv_then_cleanup_restores_heap_witness :
  let h0 : heap := {[fresh (∅ : heap)]} ∪ ∅ in
  let h1 : heap := {[fresh h0]} ∪ h0 in
  let h2 : heap := {[fresh h1]} ∪ h1 in
  let h3 : heap := {[fresh h2]} ∪ h2 in
  let slots :=
    [ {| optname := Block (fresh h0) "stale"; optval := Static "false";
         noptname := 5; noptval := 5; flags := 8 |};
      {| optname := Block (fresh h1) "limit"; optval := Block (fresh h2) "100";
         noptname := 5; noptval := 3; flags := 0 |} ] in
  2 = Z.of_nat (length slots) /\
  length ["stale"; "false"; "limit"; "100"] = (2 * length slots)%nat /\
  slots <> [] /\
  exists zs h'',
    lcbex_vopt_cleanup_list slots 2 h3 = Some (zs, h'') /\
    free_block (fresh (∅ : heap)) h'' = Some ∅.
Proof.
  intros h0 h1 h2 h3 slots.
  apply (createv_then_cleanup_restores_heap vopt_zero
           ["stale"; "false"; "limit"; "100"] ∅ (fresh (∅ : heap)) slots 2
           None h3).
  - simpl. unfold SIZE_MAX. lia.
  - reflexivity.
Defined.

(** ** Cleanup through an array of pointers *)

Lemma separate_records_step mem (h : heap) p o :
  separate_records mem h -> mem !! p = Some o ->
  separate_records (<[p := vopt_zero]> mem) (h ∖ list_to_set (blocks_of o)).
Proof.
  intros Hsep Hp i oi Hi.
  destruct (decide (i = p)) as [->|Hne].
  - rewrite list_lookup_insert_eq in Hi
      by (now apply lookup_lt_Some in Hp).
    injection Hi as <-.
    split; [split; exact I|]. split; [apply NoDup_nil_2|].
    split; intros; set_solver.
  - rewrite list_lookup_insert_ne in Hi by congruence.
    destruct (Hsep i oi Hi) as (Hc & Hnd & Hlive & Hdis).
    split; [exact Hc|]. split; [exact Hnd|]. split.
    + intros b Hb. apply elem_of_difference. split; [now apply Hlive|].
      rewrite elem_of_list_to_set. now apply (Hdis p o).
    + intros j o' Hj Hjo b Hb.
      destruct (decide (j = p)) as [->|Hjp].
      * rewrite list_lookup_insert_eq in Hjo
          by (now apply lookup_lt_Some in Hp).
        injection Hjo as <-. set_solver.
      * rewrite list_lookup_insert_ne in Hjo by congruence.
        now apply (Hdis j o').
Qed.

(** X11: [lcbex_vopt_cleanup_list] over an array of pointers to separate
    records: the call returns even when a pointer occurs more than once (a
    record cleaned once is zeroed, and cleaning it again does nothing); every
    record pointed to is left zeroed, the other records are untouched, and the
    heap loses the blocks of the records pointed to and no other block. *)
Theorem cleanup_list_through_pointers :
  forall ptrs mem (h : heap),
    separate_records mem h ->
    Forall (fun p => is_Some (mem !! p)) ptrs ->
    exists mem' h',
      lcbex_vopt_cleanup_list_ptrs ptrs (Z.of_nat (length ptrs)) mem h
      = Some (mem', h') /\
      (forall i o,
          mem !! i = Some o ->
          mem' !! i = Some (if decide (i ∈ ptrs) then vopt_zero else o)) /\
      (forall b,
          b ∈ h' <->
          b ∈ h /\
          forall p o, p ∈ ptrs -> mem !! p = Some o -> b ∉ blocks_of o).
Proof.
  induction ptrs as [|p ptrs IH]; intros mem h Hsep Hall.
  - exists mem, h. split; [reflexivity|]. split.
    + intros i o Hi. destruct (decide (i ∈ [])) as [Hin|_]; [|exact Hi].
      now apply elem_of_nil in Hin.
    + intros b. split; [|tauto]. intros Hb. split; [exact Hb|].
      intros q o Hq. now apply elem_of_nil in Hq.
  - apply Forall_cons in Hall as [[o Hp] Hall].
    destruct (Hsep p o Hp) as (Hc & Hnd & Hlive & Hdis).
    pose proof (lookup_lt_Some _ _ _ Hp) as Hlt.
    cbn [lcbex_vopt_cleanup_list_ptrs length].
    replace (Z.of_nat (S (length ptrs)) <=? 0) with false
      by (symmetry; apply Z.leb_gt; lia).
    replace (Z.of_nat (S (length ptrs)) - 1) with (Z.of_nat (length ptrs))
      by lia.
    rewrite Hp. cbn [mbind option_bind].
    rewrite (lcbex_vopt_cleanup_spec o h Hc Hnd Hlive).
    cbn [mbind option_bind].
    destruct (IH (<[p := vopt_zero]> mem) (h ∖ list_to_set (blocks_of o)))
      as (mem' & h' & Hrun & Hmem & Hheap).
    { now apply separate_records_step. }
    { eapply Forall_impl; [exact Hall|]. intros q [oq Hq].
      apply lookup_lt_is_Some. rewrite length_insert.
      now apply lookup_lt_Some in Hq. }
    exists mem', h'. split; [exact Hrun|]. split.
    + intros i oi Hi. destruct (decide (i = p)) as [->|Hne].
      * rewrite (Hmem p vopt_zero)
          by (now apply list_lookup_insert_eq).
        destruct (decide (p ∈ ptrs)); destruct (decide (p ∈ p :: ptrs))
          as [_|Hn]; try reflexivity; exfalso; apply Hn, elem_of_cons; auto.
      * rewrite (Hmem i oi)
          by (rewrite list_lookup_insert_ne by congruence; exact Hi).
        destruct (decide (i ∈ ptrs)) as [Hin|Hnin];
          destruct (decide (i ∈ p :: ptrs)) as [Hin'|Hnin'];
          try reflexivity; exfalso.
        -- apply Hnin', elem_of_cons. auto.
        -- apply elem_of_cons in Hin' as [?|?]; [congruence|contradiction].
    + intros b. rewrite Hheap, elem_of_difference, elem_of_list_to_set.
      split.
      * intros [[Hb Hnb] Hrest]. split; [exact Hb|].
        intros q oq Hq Hqo. apply elem_of_cons in Hq as [->|Hq].
        -- congruence.
        -- destruct (decide (q = p)) as [->|Hqp]; [congruence|].
           apply (Hrest q oq Hq).
           now rewrite list_lookup_insert_ne by congruence.
      * intros [Hb Hrest]. split.
        -- split; [exact Hb|]. apply (Hrest p o); [|exact Hp].
           apply elem_of_cons. auto.
        -- intros q oq Hq Hqo.
           destruct (decide (q = p)) as [->|Hqp].
           ++ rewrite list_lookup_insert_eq in Hqo by exact Hlt.
              injection Hqo as <-. set_solver.
           ++ rewrite list_lookup_insert_ne in Hqo by congruence.
              apply (Hrest q oq); [|exact Hqo]. apply elem_of_cons. auto.
Qed.

Lemma two_records_separate :
  separate_records
    [ {| optname := Block 1 "limit"; optval := Block 2 "10"; noptname := 5;
         noptval := 2; flags := 0 |};
      {| optname := Static "stale"; optval := Static "ok"; noptname := 5;
         noptval := 2; flags := 24 |} ]
    {[1%nat; 2%nat; 7%nat]}.
Proof.
  intros i o Hi. destruct i as [|[|i]]; simpl in Hi; try discriminate;
    injection Hi as <-.
  - split; [split; exact I|]. split.
    + apply NoDup_cons_2; [|apply NoDup_singleton].
      intros H%list_elem_of_singleton. discriminate.
    + split.
      * intros b Hb. change (b ∈ [1%nat; 2%nat]) in Hb. set_solver.
      * intros j o' Hj Hjo b _.
        destruct j as [|[|j]]; simpl in Hjo; try discriminate;
          [congruence|].
        injection Hjo as <-. apply not_elem_of_nil.
  - split; [split; reflexivity|]. split; [apply NoDup_nil_2|].
    split; intros; set_solver.
Qed.

(** An array that points twice to the same record. *)
Lemma cleanup_list_through_pointers_witness :
  let mem :=
    [ {| optname := Block 1 "limit"; optval := Block 2 "10"; noptname := 5;
         noptval := 2; flags := 0 |};
      {| optname := Static "stale"; optval := Static "ok"; noptname := 5;
         noptval := 2; flags := 24 |} ] in
  let ptrs := [0%nat; 0%nat] in
  exists mem' h',
    lcbex_vopt_cleanup_list_ptrs ptrs (Z.of_nat (length ptrs)) mem
      {[1%nat; 2%nat; 7%nat]}
    = Some (mem', h') /\
    (forall i o,
        mem !! i = Some o ->
        mem' !! i = Some (if decide (i ∈ ptrs) then vopt_zero else o)) /\
    (forall b,
        b ∈ h' <->
        b ∈ ({[1%nat; 2%nat; 7%nat]} : heap) /\
        forall p o, p ∈ ptrs -> mem !! p = Some o -> b ∉ blocks_of o).
Proof.
  intros mem ptrs.
  apply (cleanup_list_through_pointers ptrs mem {[1%nat; 2%nat; 7%nat]}).
  - exact two_records_separate.
  - repeat constructor; eexists; reflexivity.
Defined.

(** ** The text of the query string *)

Lemma write_loop_texts options buf :
  write_loop options buf
  = texts ← mapM option_text options; Some (buf ++ each_amp texts).
Proof.
  revert buf. induction options as [|o options IH]; intros buf.
  - cbn. now rewrite append_nil_r.
  - change (mapM option_text (o :: options))
      with (y ← option_text o; k ← mapM option_text options; mret (y :: k)).
    cbn [write_loop]. unfold option_text.
    destruct (memcpy_src (optname o) (noptname o)) as [name|]; [|reflexivity].
    destruct (memcpy_src (optval o) (noptval o)) as [val|]; [|reflexivity].
    cbn [mbind option_bind]. rewrite IH.
    fold option_text.
    destruct (mapM option_text options) as [texts|]; [|reflexivity].
    cbn [mbind option_bind mret option_ret each_amp]. f_equal.
    now rewrite !append_assoc.
Qed.

Lemma each_amp_join t texts :
  each_amp (t :: texts) = join_amp (t :: texts) ++ "&".
Proof.
  revert t. induction texts as [|t' texts IH]; intros t.
  - reflexivity.
  - change (each_amp (t :: t' :: texts))
      with (t ++ "&" ++ each_amp (t' :: texts)).
    change (join_amp (t :: t' :: texts))
      with (t ++ "&" ++ join_amp (t' :: texts)).
    rewrite IH. now rewrite !append_assoc.
Qed.

Lemma write_joins_options_eq options :
  lcbex_vqstr_write options
  = texts ← mapM option_text options;
    let q :=
      match texts with
      | [] => ""
      | _ :: _ => "?" ++ join_amp texts
      end in
    Some (q, Z.of_nat (String.length q)).
Proof.
  unfold lcbex_vqstr_write. rewrite write_loop_texts.
  destruct (mapM option_text options) as [[|t texts]|]; [| |reflexivity].
  - reflexivity.
  - cbn [mbind option_bind]. rewrite each_amp_join.
    rewrite <- append_assoc, chop_snoc. reflexivity.
Qed.

(** X12: what [lcbex_vqstr_write] writes, for any array: it is defined exactly
    when every name and value can be read over its length; the options are
    written in the order of the array, each as [name=value], with one ['&']
    between two options and none at the end, after one ['?']; for the empty
    array nothing is written, not even the ['?']; and the value returned is
    the number of bytes written before the terminator. *)
Theorem write_joins_options :
  forall options,
    lcbex_vqstr_write options
    = texts ← mapM option_text options;
      let q :=
        match texts with
        | [] => ""
        | _ :: _ => "?" ++ join_amp texts
        end in
      Some (q, Z.of_nat (String.length q)).
Proof. exact write_joins_options_eq. Qed.

(** ** Percent-encoding read back *)

Lemma do_pct_encode_loop_out s out d_len :
  fst (do_pct_encode_loop true s out d_len) = out ++ pct_encode s.
Proof.
  revert out d_len. induction s as [|c r IH]; intros out d_len.
  - simpl. now rewrite append_nil_r.
  - cbn [do_pct_encode_loop pct_encode]. rewrite needs_pct_encoding_unreserved.
    destruct (unreserved c); cbn [negb]; rewrite IH;
      now rewrite append_assoc.
Qed.

Lemma do_pct_encode_out src nsrc out d_len :
  do_pct_encode true src nsrc = Some (out, d_len) ->
  exists bytes,
    read_bytes src (Z.to_nat nsrc) = Some bytes /\ out = pct_encode bytes.
Proof.
  unfold do_pct_encode.
  destruct (read_bytes src (Z.to_nat nsrc)) as [bytes|]; [|discriminate].
  cbn [mbind option_bind]. intros H. injection H as H.
  exists bytes. split; [reflexivity|].
  pose proof (do_pct_encode_loop_out bytes "" 0) as Hout.
  rewrite H in Hout. exact Hout.
Qed.

Lemma escape_digits c :
  is_upper_hex (hex_digit (code c / 16)) = true /\
  is_upper_hex (hex_digit (code c mod 16)) = true /\
  16 * hex_value (hex_digit (code c / 16))
  + hex_value (hex_digit (code c mod 16)) = code c.
Proof.
  pose proof (fmt_pct_02X_ok c) as H. unfold pct_02X_ok, fmt_pct_02X in H.
  apply andb_true_iff in H as [H H3]. apply andb_true_iff in H as [H H2].
  apply andb_true_iff in H as [_ H1]. apply Z.eqb_eq in H3. auto.
Qed.

Lemma ascii_of_code c : ascii_of_N (Z.to_N (code c)) = c.
Proof. unfold code. now rewrite N2Z.id, ascii_N_embedding. Qed.

Lemma unreserved_not_percent c : unreserved c = true -> Ascii.eqb c "%" = false.
Proof.
  intros H. destruct (Ascii.eqb_spec c "%") as [->|]; [discriminate|reflexivity].
Qed.

Lemma pct_decode_encode s : pct_decode (pct_encode s) = Some s.
Proof.
  induction s as [|c r IH]; [reflexivity|].
  cbn [pct_encode]. destruct (unreserved c) eqn:E.
  - cbn [String.append pct_decode]. rewrite (unreserved_not_percent c E), IH.
    reflexivity.
  - unfold fmt_pct_02X. cbn [String.append pct_decode].
    destruct (escape_digits c) as (H1 & H2 & H3).
    rewrite Ascii.eqb_refl, H1, H2, IH, H3. cbn [andb mbind option_bind].
    now rewrite ascii_of_code.
Qed.

Lemma upper_hex_unreserved d : is_upper_hex d = true -> unreserved d = true.
Proof.
  unfold is_upper_hex, unreserved. intros H.
  apply orb_true_iff in H as [H|H].
  - rewrite H. now rewrite !orb_true_r.
  - apply andb_true_iff in H as [H1 H2]. apply Z.leb_le in H1, H2.
    change (code "F") with 70 in H2. change (code "Z") with 90.
    replace ((code "A" <=? code d) && (code d <=? 90)) with true.
    + now rewrite orb_true_r.
    + symmetry. apply andb_true_iff. split; apply Z.leb_le; lia.
Qed.

Lemma pct_encode_url_safe s :
  forallb url_safe (list_ascii_of_string (pct_encode s)) = true.
Proof.
  induction s as [|c r IH]; [reflexivity|].
  cbn [pct_encode]. destruct (unreserved c) eqn:E.
  - cbn [String.append list_ascii_of_string forallb]. unfold url_safe at 1.
    now rewrite E, IH.
  - unfold fmt_pct_02X.
    cbn [String.append list_ascii_of_string forallb].
    destruct (escape_digits c) as (H1 & H2 & _).
    unfold url_safe at 2 3.
    rewrite (upper_hex_unreserved _ H1), (upper_hex_unreserved _ H2), IH.
    reflexivity.
Qed.

(** X13: [do_pct_encode] loses nothing: read back, what it has written gives
    the bytes of the source, so that two sources with the same encoding hold
    the same bytes. *)
Theorem percent_encoding_reads_back :
  forall src nsrc out d_len,
    do_pct_encode true src nsrc = Some (out, d_len) ->
    exists bytes,
      read_bytes src (Z.to_nat nsrc) = Some bytes /\
      pct_decode out = Some bytes /\
      (forall src' nsrc' d_len',
          do_pct_encode true src' nsrc' = Some (out, d_len') ->
          read_bytes src' (Z.to_nat nsrc') = Some bytes).
Proof.
  intros src nsrc out d_len H.
  destruct (do_pct_encode_out _ _ _ _ H) as (bytes & Hb & ->).
  exists bytes. split; [exact Hb|]. split; [apply pct_decode_encode|].
  intros src' nsrc' d_len' H'.
  destruct (do_pct_encode_out _ _ _ _ H') as (bytes' & Hb' & Heq).
  rewrite Hb'. f_equal.
  pose proof (pct_decode_encode bytes) as H1.
  pose proof (pct_decode_encode bytes') as H2.
  rewrite Heq in H1. congruence.
Qed.

(** The three bytes of [a b]. *)
Lemma percent_encoding_reads_back_witness :
  exists bytes,
    read_bytes "a b" (Z.to_nat 3) = Some bytes /\
    pct_decode "a%20b" = Some bytes /\
    (forall src' nsrc' d_len',
        do_pct_encode true src' nsrc' = Some ("a%20b", d_len') ->
        read_bytes src' (Z.to_nat nsrc') = Some bytes).
Proof.
  apply (percent_encoding_reads_back "a b" 3 "a%20b" 5). reflexivity.
Defined.

(** X14: what [do_pct_encode] writes holds only letters, digits, ['-'], ['_'],
    ['.'] and ['%'], whatever the bytes of the source, and takes between one
    and three times the length of the source. *)
Theorem percent_encoding_is_url_safe :
  forall src nsrc out d_len,
    do_pct_encode true src nsrc = Some (out, d_len) ->
    forallb url_safe (list_ascii_of_string out) = true /\
    (Z.to_nat nsrc <= String.length out <= 3 * Z.to_nat nsrc)%nat.
Proof.
  intros src nsrc out d_len H.
  destruct (do_pct_encode_out _ _ _ _ H) as (bytes & Hb & ->).
  split; [apply pct_encode_url_safe|].
  apply read_bytes_length in Hb. rewrite <- Hb.
  apply pct_encode_length_bounds.
Qed.

(** A JSON array with brackets, a comma and a space. *)
Lemma percent_encoding_is_url_safe_witness :
  forallb url_safe (list_ascii_of_string "%5B1%2C%202%5D") = true /\
  (Z.to_nat 6 <= String.length "%5B1%2C%202%5D" <= 3 * Z.to_nat 6)%nat.
Proof.
  apply (percent_encoding_is_url_safe "[1, 2]" 6 "%5B1%2C%202%5D" 14).
  reflexivity.
Defined.

(** ** A value given with its length *)

Lemma same_text_refl r : same_text r r.
Proof. repeat split. Qed.

Lemma same_text_write r1 r2 :
  same_text r1 r2 -> lcbex_vqstr_write [r2] = lcbex_vqstr_write [r1].
Proof.
  intros (Hn & Hnn & _ & Hv). rewrite !write_one. now rewrite Hn, Hnn, Hv.
Qed.

Lemma strncasecmp_beyond lit a b :
  strncasecmp lit (a ++ b) (Z.of_nat (String.length a))
  = strncasecmp lit a (Z.of_nat (String.length a)).
Proof.
  revert lit. induction a as [|c r IH]; intros lit.
  - destruct lit; reflexivity.
  - destruct lit as [|c1 r1].
    + reflexivity.
    + cbn [strncasecmp String.append first_byte rest_bytes String.length].
      replace (Z.of_nat (S (String.length r)) - 1)
        with (Z.of_nat (String.length r)) by lia.
      now rewrite IH.
Qed.

Lemma c_strncasecmp_beyond lit a b :
  c_strncasecmp lit (PStr (a ++ b)) (Z.of_nat (String.length a))
  = c_strncasecmp lit (PStr a) (Z.of_nat (String.length a)).
Proof.
  unfold c_strncasecmp. cbn [as_chars mbind option_bind].
  now rewrite strncasecmp_beyond.
Qed.

Lemma all_digits_beyond r b :
  all_digits (r ++ b) (Z.of_nat (String.length r))
  = all_digits r (Z.of_nat (String.length r)).
Proof.
  induction r as [|c r IH]; [destruct b; reflexivity|].
  cbn [all_digits String.append String.length].
  replace (Z.of_nat (S (String.length r)) - 1)
    with (Z.of_nat (String.length r)) by lia.
  now rewrite IH.
Qed.

Lemma read_bytes_beyond a b :
  read_bytes (a ++ b) (String.length a) = Some a.
Proof.
  induction a as [|c r IH]; [reflexivity|].
  cbn [String.append String.length read_bytes]. now rewrite IH.
Qed.

Lemma strncpy_beyond a b :
  strncpy (a ++ b) (String.length a) = strncpy a (String.length a).
Proof.
  induction a as [|c r IH]; [reflexivity|].
  cbn [String.append String.length strncpy]. now rewrite IH.
Qed.

Lemma set_user_string_beyond o a b fl h r1 h' :
  set_user_string o (PStr a) (Z.of_nat (String.length a)) fl h
  = Some (r1, h') ->
  exists r2,
    set_user_string o (PStr (a ++ b)) (Z.of_nat (String.length a)) fl h
    = Some (r2, h') /\
    same_text r1 r2.
Proof.
  unfold set_user_string, my_strndup, malloc.
  destruct (has_flag fl LCBEX_VOPT_F_OPTVAL_CONSTANT);
    cbn [cast_charp as_chars mbind option_bind];
    intros H; injection H as <- <-;
    eexists; (split; [reflexivity|]); repeat split.
  - unfold memcpy_src.
    cbn [optval noptval or_flags set_flags set_optval set_noptval chars_at
         mbind option_bind].
    now rewrite Nat2Z.id, read_bytes_beyond, read_bytes_full.
  - unfold memcpy_src.
    cbn [optval noptval clear_flags set_flags set_optval set_noptval chars_at
         mbind option_bind].
    now rewrite Nat2Z.id, strncpy_beyond.
Qed.

Lemma call_handler_beyond hd o a b fl e h rc r1 e' h' :
  a <> "" -> Z.of_nat (String.length a) <> SIZE_MAX ->
  call_handler hd o (PStr a) (Z.of_nat (String.length a)) fl e h
  = Some (rc, r1, e', h') ->
  exists r2,
    call_handler hd o (PStr (a ++ b)) (Z.of_nat (String.length a)) fl e h
    = Some (rc, r2, e', h') /\
    same_text r1 r2.
Proof.
  intros Hne Hmax. apply Z.eqb_neq in Hmax.
  assert (E0 : (Z.of_nat (String.length a) =? 0) = false).
  { apply Z.eqb_neq. destruct a; [congruence|simpl; lia]. }
  destruct hd; cbn [call_handler].
  - (* bool *)
    unfold bool_param_handler. rewrite !c_strncasecmp_beyond.
    cbn [as_int]. intros H. exists r1. split; [exact H|apply same_text_refl].
  - (* num *)
    unfold num_param_handler, malloc. rewrite Hmax.
    destruct (has_flag fl LCBEX_VOPT_F_OPTVAL_NUMERIC); [discriminate|].
    cbn [as_chars mbind option_bind]. rewrite E0.
    destruct a as [|c r]; [congruence|].
    cbn [String.append first_byte rest_bytes String.length].
    replace (Z.of_nat (S (String.length r)) - 1)
      with (Z.of_nat (String.length r)) by lia.
    rewrite all_digits_beyond.
    destruct (negb (isdigit c) && negb (Ascii.eqb c "-")).
    { intros H. exists r1. split; [exact H|apply same_text_refl]. }
    destruct (negb (all_digits r (Z.of_nat (String.length r)))).
    { intros H. exists r1. split; [exact H|apply same_text_refl]. }
    destruct (set_user_string o (PStr (String c r))
                (Z.of_nat (S (String.length r))) fl h)
      as [[r0 h0]|] eqn:E; [|discriminate].
    cbn [mbind option_bind]. intros H. injection H as <- <- <- <-.
    destruct (set_user_string_beyond o (String c r) b fl h r0 h0 E)
      as (r2 & Hr2 & Hsame).
    cbn [String.append String.length] in Hr2. rewrite Hr2.
    exists r2. split; [reflexivity|exact Hsame].
  - (* string *)
    unfold string_param_handler, malloc, do_pct_encode.
    destruct (has_flag fl LCBEX_VOPT_F_OPTVAL_NUMERIC).
    { intros H. exists r1. split; [exact H|apply same_text_refl]. }
    assert (Huser :
              forall r0 h0,
                set_user_string o (PStr a) (Z.of_nat (String.length a)) fl h
                = Some (r0, h0) ->
                exists r2,
                  (set_user_string o (PStr (a ++ b))
                     (Z.of_nat (String.length a)) fl h
                   ≫= λ '(optobj, h), Some (LCB_SUCCESS, optobj, e, h))
                  = Some (LCB_SUCCESS, r2, e, h0) /\
                  same_text r0 r2).
    { intros r0 h0 E.
      destruct (set_user_string_beyond o a b fl h r0 h0 E)
        as (r2 & -> & Hsame).
      exists r2. split; [reflexivity|exact Hsame]. }
    destruct (has_flag fl LCBEX_VOPT_F_PCTENCODE); cbn [negb].
    + rewrite E0. cbn [as_chars mbind option_bind].
      rewrite Nat2Z.id, read_bytes_beyond, read_bytes_full.
      cbn [mbind option_bind].
      destruct (needed_size_loop a 0 =? Z.of_nat (String.length a)).
      * destruct (set_user_string o (PStr a) (Z.of_nat (String.length a))
                    fl h) as [[r0 h0]|] eqn:E; [|discriminate].
        cbn [mbind option_bind]. intros H. injection H as <- <- <- <-.
        now apply Huser.
      * intros H. exists r1. split; [exact H|apply same_text_refl].
    + destruct (set_user_string o (PStr a) (Z.of_nat (String.length a)) fl h)
        as [[r0 h0]|] eqn:E; [|discriminate].
      cbn [mbind option_bind]. intros H. injection H as <- <- <- <-.
      now apply Huser.
  - (* stale *)
    unfold stale_param_handler, bool_param_handler.
    rewrite !c_strncasecmp_beyond. cbn [as_int].
    intros H. exists r1. split; [exact H|apply same_text_refl].
  - (* on_error *)
    unfold onerror_param_handler. rewrite !c_strncasecmp_beyond.
    intros H. exists r1. split; [exact H|apply same_text_refl].
Qed.

(** X15: a value given with an explicit length that is not zero is read
    over that length only: the bytes that follow in the buffer (which need
    not be terminated there) change neither the status, nor the message,
    nor the heap, nor what is written for the record. *)
Theorem value_is_read_up_to_its_length :
  forall o option noption a b fl e h rc r1 e' h',
    a <> "" -> Z.of_nat (String.length a) <> SIZE_MAX ->
    lcbex_vopt_assign o option noption (PStr a) (Z.of_nat (String.length a))
      fl e h
    = Some (rc, r1, e', h') ->
    exists r2,
      lcbex_vopt_assign o option noption (PStr (a ++ b))
        (Z.of_nat (String.length a)) fl e h
      = Some (rc, r2, e', h') /\
      lcbex_vqstr_write [r2] = lcbex_vqstr_write [r1].
Proof.
  intros o option noption a b fl e h rc r1 e' h' Hne Hmax.
  assert (Hend : forall hd o1 h1,
             call_handler hd o1 (PStr a) (Z.of_nat (String.length a)) fl e h1
             = Some (rc, r1, e', h') ->
             exists r2,
               call_handler hd o1 (PStr (a ++ b))
                 (Z.of_nat (String.length a)) fl e h1
               = Some (rc, r2, e', h') /\
               lcbex_vqstr_write [r2] = lcbex_vqstr_write [r1]).
  { intros hd o1 h1 H.
    destruct (call_handler_beyond hd o1 a b fl e h1 rc r1 e' h' Hne Hmax H)
      as (r2 & Hr2 & Hsame).
    exists r2. split; [exact Hr2|now apply same_text_write]. }
  unfold lcbex_vopt_assign.
  apply Z.eqb_neq in Hmax. rewrite Hmax. cbn [mbind option_bind].
  destruct (if noption =? SIZE_MAX then c_strlen option else Some noption)
    as [no|]; [|discriminate].
  cbn [mbind option_bind].
  destruct (negb (has_flag fl LCBEX_VOPT_F_OPTVAL_NUMERIC)
            && (Z.of_nat (String.length a) =? 0)).
  { intros H. exists r1. split; [exact H|reflexivity]. }
  destruct (negb (has_flag fl LCBEX_VOPT_F_OPTNAME_NUMERIC) && (no =? 0)).
  { intros H. exists r1. split; [exact H|reflexivity]. }
  destruct (has_flag fl LCBEX_VOPT_F_PASSTHROUGH).
  - destruct (has_flag fl LCBEX_VOPT_F_OPTNAME_NUMERIC).
    { intros H. exists r1. split; [exact H|reflexivity]. }
    destruct (as_chars option) as [name|]; [|discriminate].
    cbn [mbind option_bind]. unfold my_strndup, malloc.
    destruct (has_flag fl LCBEX_VOPT_F_OPTVAL_NUMERIC).
    + apply (Hend num_param_handler_t).
    + apply (Hend string_param_handler_t).
  - destruct (find_view_param option no fl) as [[vparam|]|]; [| |discriminate].
    2:{ intros H. exists r1. split; [exact H|reflexivity]. }
    cbn [mbind option_bind].
    destruct (if has_flag fl LCBEX_VOPT_F_OPTNAME_NUMERIC
              then _ else _) as [[o1 h1]|]; [|discriminate].
    cbn [mbind option_bind]. apply Hend.
Qed.

(** The two first bytes of the buffer [10 rows], given to [limit]. *)
Lemma value_is_read_up_to_its_length_witness :
  exists r2,
    lcbex_vopt_assign vopt_zero (PStr "limit") SIZE_MAX (PStr ("10" ++ " rows"))
      (Z.of_nat (String.length "10")) 0 None ∅
    = Some (LCB_SUCCESS, r2, None,
            {[fresh ({[fresh (∅ : heap)]} ∪ (∅ : heap))]}
            ∪ ({[fresh (∅ : heap)]} ∪ ∅)) /\
    lcbex_vqstr_write [r2]
    = lcbex_vqstr_write
        [ {| optname := Block (fresh (∅ : heap)) "limit";
             optval := Block (fresh ({[fresh (∅ : heap)]} ∪ (∅ : heap))) "10";
             noptname := 5; noptval := 2; flags := 0 |} ].
Proof.
  apply (value_is_read_up_to_its_length vopt_zero (PStr "limit") SIZE_MAX
           "10" " rows" 0 None ∅).
  - discriminate.
  - discriminate.
  - reflexivity.
Defined.

(** ** The boolean options, exactly *)

(** X16: every boolean option of the registry, given by name or by number: a
    string that is not empty is accepted exactly when, the case of letters
    apart, it is [true], [false] or the beginning of one of them, and the full
    word is stored; any other string is refused with invalid-argument and the
    message of the handler; an [int] is stored as [false] when it is zero and
    as [true] otherwise. *)
Theorem boolean_option_values :
  forall p o option noption value nvalue fl e h,
    In p (options_of bool_param_handler_t) ->
    name_arg option noption fl p ->
    value_arg value nvalue fl -> value <> PStr "" ->
    has_flag fl LCBEX_VOPT_F_PASSTHROUGH = false ->
    match bool_value value with
    | Some w =>
        assigned_as (lcbex_vopt_assign o option noption value nvalue fl e h)
          (param p) w
    | None =>
        exists o' h',
          lcbex_vopt_assign o option noption value nvalue fl e h
          = Some (LCB_EINVAL, o',
                  Some "String must be either 'true' or 'false'", h')
    end.
Proof.
  intros p o option noption value nvalue fl e h Hp Hname Hval Hne Hpass.
  apply options_of_In in Hp as [Hin Hh].
  destruct (assign_recognized_value p o option noption value nvalue fl e h
              Hin Hname Hpass Hval Hne)
    as (o1 & h1 & nv & Hnamed & Hnv & ->).
  rewrite Hh. cbn [call_handler].
  destruct value as [|v|i]; [destruct Hval| |].
  - destruct Hval as (Hv & _ & Hf). subst nv.
    rewrite bool_param_handler_string by (assumption || congruence).
    unfold bool_value.
    destruct (String.prefix (lower_string v) "true").
    { apply (assigned_as_intro p o1); [exact Hnamed|reflexivity..]. }
    destruct (String.prefix (lower_string v) "false").
    { apply (assigned_as_intro p o1); [exact Hnamed|reflexivity..]. }
    eexists _, _. reflexivity.
  - destruct Hval as (_ & Hf).
    rewrite bool_param_handler_int by assumption.
    unfold bool_value, bool_stored.
    destruct (int_wrap i =? 0);
      (apply (assigned_as_intro p o1); [exact Hnamed|reflexivity..]).
Qed.

(** [reduce] given [FALSE]. *)
Lemma boolean_option_values_witness :
  assigned_as
    (lcbex_vopt_assign vopt_zero (PStr "reduce") SIZE_MAX (PStr "FALSE")
       SIZE_MAX 0 None ∅)
    "reduce" "false".
Proof.
  apply (boolean_option_values
           (mk_param LCBEX_VOPT_OPT_REDUCE "reduce" t_bool) vopt_zero
           (PStr "reduce") SIZE_MAX (PStr "FALSE") SIZE_MAX 0 None ∅).
  - simpl. tauto.
  - left. split; [reflexivity|]. split; [left|]; reflexivity.
  - split; [reflexivity|]. split; [left|]; reflexivity.
  - discriminate.
  - reflexivity.
Defined.

(** ** Names given to [lcbex_vqstr_make_uri] with their lengths *)

Lemma c_string_append s t :
  no_nul s = true -> c_string (s ++ t) = s ++ c_string t.
Proof.
  induction s as [|c r IH]; [reflexivity|].
  cbn [no_nul]. intros [Hc Hr]%andb_true_iff. apply negb_true_iff in Hc.
  cbn [String.append c_string]. rewrite Hc. now rewrite IH.
Qed.

Lemma take_bytes_append s t : take_bytes (String.length s) (s ++ t) = s.
Proof.
  induction s as [|c r IH]; [destruct t; reflexivity|].
  cbn [String.append String.length take_bytes]. now rewrite IH.
Qed.

Lemma fmt_prec_s_cut s t :
  no_nul s = true -> fmt_prec_s (Z.of_nat (String.length s)) (s ++ t) = s.
Proof.
  intros Hs. unfold fmt_prec_s.
  replace (Z.of_nat (String.length s) <? 0) with false
    by (symmetry; apply Z.ltb_ge; lia).
  now rewrite c_string_append, Nat2Z.id, take_bytes_append.
Qed.

(** X17: a design name and a view name given with explicit lengths are cut at
    those lengths: the bytes that follow in the two buffers do not reach the
    URI, which is the path of the two names as cut, followed by what
    [lcbex_vqstr_write] writes, in one fresh block. *)
Theorem make_uri_cuts_names_at_their_lengths :
  forall d d' v v' options (h : heap) q n,
    no_nul d = true -> no_nul v = true ->
    Z.of_nat (String.length (view_path d v)) < 2 ^ 31 ->
    Forall readable options ->
    query_size options + Z.of_nat (String.length (view_path d v)) + 3
    <= SIZE_MAX ->
    lcbex_vqstr_write options = Some (q, n) ->
    lcbex_vqstr_make_uri (PStr (d ++ d')) (Z.of_nat (String.length d))
      (PStr (v ++ v')) (Z.of_nat (String.length v)) options h
    = Some (Block (fresh h) (view_path d v ++ q), {[fresh h]} ∪ h).
Proof.
  intros d d' v v' options h q n Hd Hv Hp Hr Hsz Hw.
  pose proof (view_path_length d v) as Hpl.
  unfold lcbex_vqstr_make_uri.
  replace (Z.of_nat (String.length d) =? SIZE_MAX) with false
    by (symmetry; apply Z.eqb_neq; unfold SIZE_MAX; lia).
  replace (Z.of_nat (String.length v) =? SIZE_MAX) with false
    by (symmetry; apply Z.eqb_neq; unfold SIZE_MAX; lia).
  cbn [mbind option_bind as_chars].
  rewrite !int_wrap_small by lia.
  rewrite !fmt_prec_s_cut by assumption.
  fold (view_path d v).
  replace (2 ^ 31 <=? Z.of_nat (String.length (view_path d v)))
    with false by (symmetry; apply Z.leb_gt; lia).
  unfold malloc. rewrite Hw. cbn [mbind option_bind].
  destruct (lcbex_vqstr_write_length options Hr) as (q' & Hw' & Hlen).
  rewrite Hw in Hw'. injection Hw' as -> ->.
  pose proof (query_size_nonneg _ Hr) as H0.
  rewrite lcbex_vqstr_calc_len_wrap.
  unfold size_add.
  rewrite (Z.add_comm (size_wrap (query_size options + 2))), size_wrap_add_l.
  rewrite (Z.add_comm _ (size_wrap (query_size options + 2))).
  rewrite size_wrap_add_l.
  unfold size_wrap. rewrite Z.mod_small by (unfold SIZE_MAX in Hsz; lia).
  rewrite Hlen.
  replace (Z.of_nat (String.length (view_path d v)) + query_size options + 1
           <=? query_size options + 2
               + (Z.of_nat (String.length (view_path d v)) + 1))
    with true by (symmetry; apply Z.leb_le; lia).
  reflexivity.
Qed.

(** The names [beer] and [by_name] cut out of longer buffers, with no
    option. *)
Lemma make_uri_cuts_names_at_their_lengths_witness :
  lcbex_vqstr_make_uri (PStr ("beer" ++ "-sample"))
    (Z.of_nat (String.length "beer")) (PStr ("by_name" ++ "/x"))
    (Z.of_nat (String.length "by_name")) [] ∅
  = Some (Block (fresh (∅ : heap)) (view_path "beer" "by_name" ++ ""),
          {[fresh (∅ : heap)]} ∪ ∅).
Proof.
  apply (make_uri_cuts_names_at_their_lengths "beer" "-sample" "by_name" "/x"
           [] ∅ "" 0).
  - reflexivity.
  - reflexivity.
  - simpl. lia.
  - constructor.
  - simpl. unfold SIZE_MAX. lia.
  - reflexivity.
Defined.

(** ** What a list made by [lcbex_vopt_createv] is written as *)

Lemma option_text_intro o k w :
  chars_at (optname o) = Some k ->
  noptname o = Z.of_nat (String.length k) ->
  chars_at (optval o) = Some w ->
  noptval o = Z.of_nat (String.length w) ->
  option_text o = Some (k ++ "=" ++ w) /\ readable o.
Proof.
  intros Hn Hnn Hv Hnv. unfold option_text, readable.
  rewrite Hnn, Hnv, (memcpy_src_whole _ _ Hn), (memcpy_src_whole _ _ Hv).
  split; [reflexivity|]. split; [eauto|]. split; [eauto|]. lia.
Qed.

(** A handler called with no flag on a string that is not empty. *)
Lemma handler_value_spec hd o1 k v e h :
  chars_at (optname o1) = Some k ->
  noptname o1 = Z.of_nat (String.length k) ->
  no_nul v = true -> v <> "" ->
  exists o' e' h',
    call_handler hd o1 (PStr v) (Z.of_nat (String.length v)) 0 e h
    = Some (match handler_value hd v with
            | Some _ => LCB_SUCCESS
            | None => LCB_EINVAL
            end, o', e', h') /\
    (forall w, handler_value hd v = Some w ->
               option_text o' = Some (k ++ "=" ++ w) /\ readable o').
Proof.
  intros Hn Hnn Hv Hne.
  destruct hd; cbn [call_handler handler_value].
  - rewrite bool_param_handler_string by (reflexivity || assumption).
    unfold bool_value.
    destruct (String.prefix (lower_string v) "true").
    { eexists _, _, _. split; [reflexivity|]. intros w [= <-].
      now apply option_text_intro. }
    destruct (String.prefix (lower_string v) "false").
    { eexists _, _, _. split; [reflexivity|]. intros w [= <-].
      now apply option_text_intro. }
    eexists _, _, _. split; [reflexivity|]. discriminate.
  - rewrite num_param_handler_string by (reflexivity || assumption).
    destruct (numeric_form v).
    { eexists _, _, _. split; [reflexivity|]. intros w [= <-].
      destruct (user_string_stored_spec o1 v 0 h) as (H1 & H2 & H3 & H4).
      apply option_text_intro; congruence. }
    destruct (isdigit (first_byte v) || Ascii.eqb (first_byte v) "-");
      eexists _, _, _; (split; [reflexivity|]); discriminate.
  - unfold string_param_handler.
    change (has_flag 0 LCBEX_VOPT_F_OPTVAL_NUMERIC) with false.
    change (has_flag 0 LCBEX_VOPT_F_PCTENCODE) with false.
    cbn [negb]. rewrite set_user_string_whole by assumption.
    cbn [mbind option_bind].
    destruct (user_string_stored o1 v 0 h) as [o2 h2] eqn:E.
    eexists _, _, _. split; [reflexivity|]. intros w [= <-].
    destruct (user_string_stored_spec o1 v 0 h) as (H1 & H2 & H3 & H4).
    rewrite E in H1, H2, H3, H4. cbn [fst] in H1, H2, H3, H4.
    apply option_text_intro; congruence.
  - rewrite stale_param_handler_string by (reflexivity || assumption).
    unfold stale_value.
    destruct (String.prefix (lower_string v) "true").
    { eexists _, _, _. split; [reflexivity|]. intros w [= <-].
      now apply option_text_intro. }
    destruct (String.prefix (lower_string v) "false").
    { eexists _, _, _. split; [reflexivity|]. intros w [= <-].
      now apply option_text_intro. }
    destruct (String.prefix (lower_string v) "update_after").
    { eexists _, _, _. split; [reflexivity|]. intros w [= <-].
      now apply option_text_intro. }
    destruct (String.prefix (lower_string v) "ok").
    { eexists _, _, _. split; [reflexivity|]. intros w [= <-].
      now apply option_text_intro. }
    eexists _, _, _. split; [reflexivity|]. discriminate.
  - rewrite onerror_param_handler_string by assumption.
    unfold onerror_value.
    destruct (String.prefix (lower_string v) "stop").
    { eexists _, _, _. split; [reflexivity|]. intros w [= <-].
      now apply option_text_intro. }
    destruct (String.prefix (lower_string v) "continue").
    { eexists _, _, _. split; [reflexivity|]. intros w [= <-].
      now apply option_text_intro. }
    eexists _, _, _. split; [reflexivity|]. discriminate.
Qed.

Lemma length_zero_iff (s : string) :
  (Z.of_nat (String.length s) =? 0) = String.eqb s "".
Proof. destruct s; reflexivity. Qed.

(** One pair assigned as [lcbex_vopt_createv] assigns it. *)
Lemma assign_pair_text junk k v e h :
  no_nul k = true -> no_nul v = true ->
  exists o e' h',
    lcbex_vopt_assign junk (PStr k) SIZE_MAX (PStr v) SIZE_MAX 0 e h
    = Some (match pair_text k v with
            | Some _ => LCB_SUCCESS
            | None => LCB_EINVAL
            end, o, e', h') /\
    (forall t, pair_text k v = Some t ->
               option_text o = Some t /\ readable o).
Proof.
  intros Hk Hv. rewrite assign_pair_step.
  rewrite !strlen_no_nul by assumption. rewrite !length_zero_iff.
  unfold pair_text.
  destruct (String.eqb_spec v "") as [->|Hvne].
  { rewrite orb_true_r. eexists _, _, _. split; [reflexivity|discriminate]. }
  destruct (String.eqb_spec k "") as [->|Hkne].
  { eexists _, _, _. split; [reflexivity|discriminate]. }
  cbn [orb]. rewrite find_by_name by assumption.
  destruct (first_beginning k) as [p|];
    [|eexists _, _, _; split; [reflexivity|discriminate]].
  cbn [mbind option_bind].
  destruct (handler_value_spec (handler_of (ptype p)) (pair_named k h) k v e
              ({[fresh h]} ∪ h))
    as (o' & e' & h' & Hrun & Htext); try assumption.
  { unfold pair_named. cbn [optname set_optname chars_at].
    now rewrite strlen_no_nul, Nat2Z.id, strncpy_no_nul. }
  { unfold pair_named. cbn. now apply strlen_no_nul. }
  rewrite Hrun. exists o', e', h'.
  destruct (handler_value (handler_of (ptype p)) v) as [w|].
  - split; [reflexivity|]. intros t [= <-]. now apply Htext.
  - split; [reflexivity|discriminate].
Qed.

(** The records that the loop of [lcbex_vopt_createv] adds when it ends
    with success. *)
Lemma createv_loop_texts junk ap :
  Forall (fun s => no_nul s = true) ap ->
  forall arr slots noptions n_alloc errstr h arr' slots' noptions' errstr' h',
    createv_loop junk ap arr slots noptions n_alloc errstr h
    = Some (LCB_SUCCESS, arr', slots', noptions', errstr', h') ->
    exists texts new,
      pair_texts ap = Some texts /\ slots' = (slots ++ new)%list /\
      mapM option_text new = Some texts /\ Forall readable new.
Proof.
  induction ap as [|k|k v ap IH] using pair_ind; intros Hnul.
  - intros arr slots noptions n_alloc errstr h arr' slots' noptions' errstr'
      h' H.
    injection H as <- <- <- <- <-. exists [], [].
    split; [reflexivity|]. split; [now rewrite app_nil_r|].
    split; [reflexivity|constructor].
  - intros arr slots noptions n_alloc errstr h arr' slots' noptions' errstr'
      h' H.
    cbn [createv_loop] in H.
    destruct (if n_alloc <? size_add noptions 1 then _ else _)
      as [[[arr1 na1] h1]|]; [|discriminate].
    discriminate.
  - intros arr slots noptions n_alloc errstr h arr' slots' noptions' errstr'
      h' H.
    apply Forall_cons in Hnul as [Hk Hnul].
    apply Forall_cons in Hnul as [Hv Hnul].
    cbn [createv_loop] in H.
    destruct (if n_alloc <? size_add noptions 1 then _ else _)
      as [[[arr1 na1] h1]|]; [|discriminate].
    cbn [mbind option_bind] in H.
    destruct (assign_pair_text junk k v errstr h1 Hk Hv)
      as (o & e1 & h2 & Hrun & Htext).
    rewrite Hrun in H. cbn [mbind option_bind] in H.
    cbn [pair_texts].
    destruct (pair_text k v) as [t|]; [|discriminate].
    destruct (IH Hnul _ _ _ _ _ _ _ _ _ _ _ H)
      as (texts & new & -> & -> & Hnew & Hread).
    destruct (Htext t eq_refl) as [Ht Hr].
    exists (t :: texts), (o :: new).
    split; [reflexivity|]. split; [now rewrite <- app_assoc|].
    split; [|now constructor].
    change (mapM option_text (o :: new))
      with (y ← option_text o; ys ← mapM option_text new; mret (y :: ys)).
    rewrite Ht, Hnew. reflexivity.
Qed.

Lemma lcbex_vopt_createv_texts junk ap (h : heap) arr slots noptions errstr
    h' :
  Forall (fun s => no_nul s = true) ap ->
  Z.of_nat (length ap) <= SIZE_MAX ->
  lcbex_vopt_createv junk ap h
  = Some (LCB_SUCCESS, Some (arr, slots), noptions, errstr, h') ->
  exists texts,
    pair_texts ap = Some texts /\ Forall readable slots /\
    lcbex_vqstr_write slots
    = Some ("?" ++ join_amp texts,
            Z.of_nat (String.length ("?" ++ join_amp texts))).
Proof.
  intros Hnul Hsz Hrun.
  destruct (lcbex_vopt_createv_success _ _ _ _ _ _ _ _ Hsz Hrun)
    as (_ & _ & _ & Hne).
  unfold lcbex_vopt_createv, malloc in Hrun. cbv beta iota zeta in Hrun.
  destruct (createv_loop junk ap (fresh h) [] 0 8 (Some "") ({[fresh h]} ∪ h))
    as [[[[[[err arr1] slots1] n1] e1] h1]|] eqn:Hloop; [|discriminate].
  cbn [mbind option_bind] in Hrun.
  assert (Hok : err = LCB_SUCCESS /\ slots1 = slots).
  { destruct (n1 =? 0).
    - destruct (lcbex_vopt_cleanup_list slots1 n1 h1) as [[zs hz]|];
        [|discriminate].
      cbn [mbind option_bind] in Hrun.
      destruct (free_block arr1 hz); discriminate.
    - destruct err.
      + injection Hrun as <- <- <- <- <-. auto.
      + destruct (lcbex_vopt_cleanup_list slots1 n1 h1) as [[zs hz]|];
          [|discriminate].
        cbn [mbind option_bind] in Hrun.
        destruct (free_block arr1 hz); discriminate.
      + destruct (lcbex_vopt_cleanup_list slots1 n1 h1) as [[zs hz]|];
          [|discriminate].
        cbn [mbind option_bind] in Hrun.
        destruct (free_block arr1 hz); discriminate. }
  destruct Hok as [-> ->].
  destruct (createv_loop_texts junk ap Hnul _ _ _ _ _ _ _ _ _ _ _ Hloop)
    as (texts & new & Htexts & Hslots & Hnew & Hread).
  cbn [app] in Hslots. subst new.
  exists texts. split; [exact Htexts|]. split; [exact Hread|].
  rewrite write_joins_options_eq, Hnew. cbn [mbind option_bind].
  destruct texts as [|t texts]; [|reflexivity].
  destruct slots as [|o slots]; [congruence|].
  change (mapM option_text (o :: slots))
    with (y ← option_text o; ys ← mapM option_text slots; mret (y :: ys))
    in Hnew.
  destruct (option_text o); [|discriminate].
  cbn [mbind option_bind] in Hnew.
  destruct (mapM option_text slots); discriminate.
Qed.

(** X18: when [lcbex_vopt_createv] succeeds on C strings, the array it returns
    holds one record for each pair, in the order of the arguments, and
    [lcbex_vqstr_write] writes it as [?k1=w1&k2=w2...]: each key as it was
    given, each value as the handler of the key stores it. *)
Theorem createv_writes_the_pairs :
  forall junk ap (h : heap) arr slots noptions errstr h',
    Forall (fun s => no_nul s = true) ap ->
    Z.of_nat (length ap) <= SIZE_MAX ->
    lcbex_vopt_createv junk ap h
    = Some (LCB_SUCCESS, Some (arr, slots), noptions, errstr, h') ->
    exists texts,
      pair_texts ap = Some texts /\
      lcbex_vqstr_write slots
      = Some ("?" ++ join_amp texts,
              Z.of_nat (String.length ("?" ++ join_amp texts))).
Proof.
  intros junk ap h arr slots noptions errstr h' Hnul Hsz Hrun.
  destruct (lcbex_vopt_createv_texts _ _ _ _ _ _ _ _ Hnul Hsz Hrun)
    as (texts & Htexts & _ & Hw).
  exists texts. auto.
Qed.

(** The call of the example [easy_creation]. *)
Lemma createv_writes_the_pairs_witness :
  let h0 : heap := {[fresh (∅ : heap)]} ∪ ∅ in
  let h1 : heap := {[fresh h0]} ∪ h0 in
  let h2 : heap := {[fresh h1]} ∪ h1 in
  let h3 : heap := {[fresh h2]} ∪ h2 in
  let h4 : heap := {[fresh h3]} ∪ h3 in
  let h5 : heap := {[fresh h4]} ∪ h4 in
  let slots :=
    [ {| optname := Block (fresh h0) "stale"; optval := Static "false";
         noptname := 5; noptval := 5; flags := 8 |};
      {| optname := Block (fresh h1) "limit"; optval := Block (fresh h2) "100";
         noptname := 5; noptval := 3; flags := 0 |};
      {| optname := Block (fresh h3) "startkey_docid";
         optval := Block (fresh h4) "aass_brewery";
         noptname := 14; noptval := 12; flags := 0 |} ] in
  exists texts,
    pair_texts ["stale"; "false"; "limit"; "100"; "startkey_docid";
                "aass_brewery"]
    = Some texts /\
    lcbex_vqstr_write slots
    = Some ("?" ++ join_amp texts,
            Z.of_nat (String.length ("?" ++ join_amp texts))).
Proof.
  intros h0 h1 h2 h3 h4 h5 slots.
  apply (createv_writes_the_pairs vopt_zero
           ["stale"; "false"; "limit"; "100"; "startkey_docid";
            "aass_brewery"]
           ∅ (fresh (∅ : heap)) slots 3 None h5).
  - repeat constructor.
  - simpl. unfold SIZE_MAX. lia.
  - reflexivity.
Defined.

(** ** The lists that [lcbex_vopt_createv] accepts *)

Lemma pair_accepted_text k v :
  no_nul k = true -> no_nul v = true ->
  pair_accepted k v = match pair_text k v with Some _ => true | None => false end.
Proof.
  intros Hk Hv. unfold pair_accepted, pair_verdict.
  destruct (assign_pair_text vopt_zero k v None ∅ Hk Hv)
    as (o & e' & h' & -> & _).
  destruct (pair_text k v); reflexivity.
Qed.

Lemma scan_pairs_texts ap :
  Forall (fun s => no_nul s = true) ap ->
  forall texts,
    pair_texts ap = Some texts ->
    scan_pairs ap = (LCB_SUCCESS, None, length texts).
Proof.
  induction ap as [|k|k v ap IH] using pair_ind; intros Hnul texts.
  - intros [= <-]. reflexivity.
  - discriminate.
  - apply Forall_cons in Hnul as [Hk Hnul].
    apply Forall_cons in Hnul as [Hv Hnul].
    cbn [pair_texts scan_pairs]. rewrite pair_accepted_text by assumption.
    destruct (pair_text k v) as [t|]; [|discriminate].
    cbn [mbind option_bind].
    destruct (pair_texts ap) as [ts|]; [|discriminate].
    cbn [mbind option_bind]. intros [= <-].
    now rewrite (IH Hnul ts eq_refl).
Qed.

(** X19: [lcbex_vopt_createv] returns, and returns success with the number of
    pairs, whenever its arguments are C strings that form a list, not empty,
    of pairs each of which is acceptable: a key that is not empty and begins a
    name of the registry, and a value that is not empty and that the handler
    of that name accepts. *)
Theorem createv_accepts_acceptable_pairs :
  forall junk ap (h : heap) texts,
    Forall (fun s => no_nul s = true) ap ->
    Z.of_nat (length ap) <= SIZE_MAX ->
    pair_texts ap = Some texts -> texts <> [] ->
    exists arr slots errstr h',
      lcbex_vopt_createv junk ap h
      = Some (LCB_SUCCESS, Some (arr, slots), Z.of_nat (length texts),
              errstr, h').
Proof.
  intros junk ap h texts Hnul Hsz Htexts Hne.
  destruct (lcbex_vopt_createv_spec junk ap h Hsz)
    as (arr & slots & e & h' & Hrun).
  rewrite (scan_pairs_texts ap Hnul texts Htexts) in Hrun.
  cbn [fst snd] in Hrun.
  destruct texts as [|t texts]; [congruence|].
  cbn [length] in *. eauto.
Qed.

(** The pairs of the unit test of [createv], [stale=false] and
    [limit=10]. *)
Lemma createv_accepts_acceptable_pairs_witness :
  exists arr slots errstr h',
    lcbex_vopt_createv vopt_zero ["stale"; "false"; "limit"; "10"] ∅
    = Some (LCB_SUCCESS, Some (arr, slots),
            Z.of_nat (length ["stale=false"; "limit=10"]), errstr, h').
Proof.
  apply (createv_accepts_acceptable_pairs vopt_zero
           ["stale"; "false"; "limit"; "10"] ∅ ["stale=false"; "limit=10"]).
  - repeat constructor.
  - simpl. unfold SIZE_MAX. lia.
  - reflexivity.
  - discriminate.
Defined.

(** ** The size of the block and the bytes written in it *)

Lemma do_pct_encode_loop_size dest_ok s out d_len :
  snd (do_pct_encode_loop dest_ok s out d_len) = needed_size_loop s d_len.
Proof.
  revert out d_len. induction s as [|c r IH]; intros out d_len;
    [reflexivity|].
  cbn [do_pct_encode_loop needed_size_loop].
  destruct (needs_pct_encoding c); apply IH.
Qed.

(** X20: the loop of [string_param_handler] that sizes the block and the loop
    of [do_pct_encode] that fills it count alike: the length that
    [do_pct_encode] returns is the size that the handler has computed, and it
    is the number of bytes written, so that the terminator put at that index
    comes right after them. *)
Theorem sizing_agrees_with_encoding :
  forall src nsrc out d_len bytes,
    read_bytes src (Z.to_nat nsrc) = Some bytes ->
    do_pct_encode true src nsrc = Some (out, d_len) ->
    d_len = needed_size_loop bytes 0 /\
    (3 * Z.of_nat (String.length bytes) <= SIZE_MAX ->
     Z.of_nat (String.length out) = d_len).
Proof.
  intros src nsrc out d_len bytes Hb. unfold do_pct_encode. rewrite Hb.
  cbn [mbind option_bind]. intros H. injection H as H.
  split.
  - rewrite <- (do_pct_encode_loop_size true bytes "" 0). now rewrite H.
  - intros Hsz. rewrite do_pct_encode_loop_spec in H by lia.
    injection H as <- <-. cbn [String.append]. lia.
Qed.

(** The seven bytes of [a b/c d]. *)
Lemma sizing_agrees_with_encoding_witness :
  13 = needed_size_loop "a b/c d" 0 /\
  (3 * Z.of_nat (String.length "a b/c d") <= SIZE_MAX ->
   Z.of_nat (String.length "a%20b%2Fc%20d") = 13).
Proof.
  apply (sizing_agrees_with_encoding "a b/c d" 7 "a%20b%2Fc%20d" 13 "a b/c d");
    reflexivity.
Defined.

(** ** A name given with its length *)

Lemma strncmp_beyond k k' p :
  strncmp (k ++ k') p (Z.of_nat (String.length k))
  = strncmp k p (Z.of_nat (String.length k)).
Proof.
  revert p. induction k as [|c r IH]; intros p.
  - destruct k'; reflexivity.
  - cbn [strncmp String.append String.length].
    replace (Z.of_nat (S (String.length r)) - 1)
      with (Z.of_nat (String.length r)) by lia.
    now rewrite IH.
Qed.

Lemma find_view_param_from_beyond table k k' fl :
  find_view_param_from table (PStr (k ++ k')) (Z.of_nat (String.length k)) fl
  = find_view_param_from table (PStr k) (Z.of_nat (String.length k)) fl.
Proof.
  induction table as [|ret table IH]; [reflexivity|].
  cbn [find_view_param_from]. unfold c_strncmp.
  cbn [as_chars as_int mbind option_bind].
  now rewrite strncmp_beyond, IH.
Qed.

(** X21: an option name given with an explicit length is read over that length
    only: the bytes that follow in the buffer change neither the status, nor
    the message of a failure, nor what is written for the record. *)
Theorem name_is_read_up_to_its_length :
  forall o k k' value nvalue fl e h rc r1 e1' h1',
    Z.of_nat (String.length k) <> SIZE_MAX ->
    lcbex_vopt_assign o (PStr k) (Z.of_nat (String.length k)) value nvalue
      fl e h
    = Some (rc, r1, e1', h1') ->
    exists r2 e2' h2',
      lcbex_vopt_assign o (PStr (k ++ k')) (Z.of_nat (String.length k)) value
        nvalue fl e h
      = Some (rc, r2, e2', h2') /\
      (rc <> LCB_SUCCESS -> e2' = e1') /\
      (rc = LCB_SUCCESS -> lcbex_vqstr_write [r2] = lcbex_vqstr_write [r1]).
Proof.
  intros o k k' value nvalue fl e h rc r1 e1' h1' Hmax.
  unfold lcbex_vopt_assign.
  destruct (if nvalue =? SIZE_MAX then c_strlen value else Some nvalue)
    as [nv|]; [|discriminate].
  cbn [mbind option_bind].
  apply Z.eqb_neq in Hmax. rewrite Hmax. cbn [mbind option_bind].
  assert (Hsame : forall x : outcome,
             Some x = Some (rc, r1, e1', h1') ->
             exists r2 e2' h2',
               Some x = Some (rc, r2, e2', h2') /\
               (rc <> LCB_SUCCESS -> e2' = e1') /\
               (rc = LCB_SUCCESS ->
                lcbex_vqstr_write [r2] = lcbex_vqstr_write [r1])).
  { intros x ->. eexists _, _, _. split; [reflexivity|]. split; auto. }
  destruct (negb (has_flag fl LCBEX_VOPT_F_OPTVAL_NUMERIC) && (nv =? 0));
    [apply Hsame|].
  destruct (negb (has_flag fl LCBEX_VOPT_F_OPTNAME_NUMERIC)
            && (Z.of_nat (String.length k) =? 0)); [apply Hsame|].
  destruct (has_flag fl LCBEX_VOPT_F_PASSTHROUGH).
  - destruct (has_flag fl LCBEX_VOPT_F_OPTNAME_NUMERIC); [apply Hsame|].
    cbn [as_chars mbind option_bind]. unfold my_strndup, malloc.
    rewrite Nat2Z.id, strncpy_beyond.
    intros H. rewrite H. eexists _, _, _.
    split; [reflexivity|]. split; auto.
  - unfold find_view_param. rewrite find_view_param_from_beyond.
    destruct (find_view_param_from recognized_view_params (PStr k)
                (Z.of_nat (String.length k)) fl) as [[vparam|]|];
      [| |discriminate].
    2:{ apply Hsame. }
    cbn [mbind option_bind].
    destruct (has_flag fl LCBEX_VOPT_F_OPTNAME_NUMERIC).
    { cbn [mbind option_bind]. intros H. rewrite H. eexists _, _, _.
      split; [reflexivity|]. split; auto. }
    destruct (has_flag fl LCBEX_VOPT_F_OPTNAME_CONSTANT).
    + cbn [cast_charp mbind option_bind]. intros H.
      destruct (call_handler_value (handler_of (ptype vparam)) value nv fl fl
                  _ (set_optname
                       (set_noptname (set_flags vopt_zero fl)
                          (Z.of_nat (String.length k)))
                       (Caller (k ++ k')))
                  e e _ h rc r1 e1' h1' eq_refl H)
        as (r2 & e2' & h2' & Hrun & Hn1 & Hnn1 & Hn2 & Hnn2 & Herr & Hval).
      exists r2, e2', h2'. split; [exact Hrun|]. split; [exact Herr|].
      intros Hrc. rewrite !write_one. rewrite Hn1, Hnn1, Hn2, Hnn2.
      cbn [optname noptname set_optname set_noptname set_flags vopt_zero].
      assert (Hm2 : memcpy_src (Caller (k ++ k'))
                      (Z.of_nat (String.length k)) = Some k).
      { unfold memcpy_src. cbn [chars_at mbind option_bind].
        now rewrite Nat2Z.id, read_bytes_beyond. }
      rewrite Hm2, (memcpy_src_whole (Caller k) k eq_refl), (Hval Hrc).
      reflexivity.
    + cbn [as_chars mbind option_bind]. unfold my_strndup, malloc.
      rewrite Nat2Z.id, strncpy_beyond.
      intros H. rewrite H. eexists _, _, _.
      split; [reflexivity|]. split; auto.
Qed.

(** The five first bytes of the buffer [limit=10], given as a name. *)
Lemma name_is_read_up_to_its_length_witness :
  exists r2 e2' h2',
    lcbex_vopt_assign vopt_zero (PStr ("limit" ++ "=10"))
      (Z.of_nat (String.length "limit")) (PStr "10") SIZE_MAX
      LCBEX_VOPT_F_OPTNAME_CONSTANT None ∅
    = Some (LCB_SUCCESS, r2, e2', h2') /\
    (LCB_SUCCESS <> LCB_SUCCESS -> e2' = None) /\
    (LCB_SUCCESS = LCB_SUCCESS ->
     lcbex_vqstr_write [r2]
     = lcbex_vqstr_write
         [ {| optname := Caller "limit";
              optval := Block (fresh (∅ : heap)) "10";
              noptname := 5; noptval := 2;
              flags := LCBEX_VOPT_F_OPTNAME_CONSTANT |} ]).
Proof.
  apply (name_is_read_up_to_its_length vopt_zero "limit" "=10" (PStr "10")
           SIZE_MAX LCBEX_VOPT_F_OPTNAME_CONSTANT None ∅ LCB_SUCCESS _ None
           ({[fresh (∅ : heap)]} ∪ ∅)).
  - discriminate.
  - reflexivity.
Defined.

(** ** Where [lcbex_vopt_createv] stops *)

Lemma all_accepted_even pre :
  all_accepted pre = true -> length pre = (2 * (length pre / 2))%nat.
Proof.
  induction pre as [|k|k v pre IH] using pair_ind.
  - reflexivity.
  - discriminate.
  - cbn [all_accepted]. intros [_ H]%andb_true_iff. specialize (IH H).
    cbn [length].
    change (S (S (length pre))) with (2 + length pre)%nat.
    rewrite IH at 2.
    replace (2 + 2 * (length pre / 2))%nat
      with ((1 + length pre / 2) * 2)%nat by lia.
    rewrite Nat.div_mul by discriminate. lia.
Qed.

(** The scan goes through the pairs that are accepted. *)
Lemma scan_pairs_accepted pre rest :
  all_accepted pre = true ->
  scan_pairs (pre ++ rest)
  = (fst (fst (scan_pairs rest)), snd (fst (scan_pairs rest)),
     (length pre / 2 + snd (scan_pairs rest))%nat).
Proof.
  induction pre as [|k|k v pre IH] using pair_ind.
  - intros _. cbn [app length]. now destruct (scan_pairs rest) as [[? ?] ?].
  - discriminate.
  - cbn [all_accepted]. intros [Hkv H]%andb_true_iff.
    pose proof (all_accepted_even pre H) as Hev.
    change ((k :: v :: pre) ++ rest)%list with (k :: v :: (pre ++ rest))%list.
    cbn [scan_pairs]. rewrite Hkv, (IH H). cbn [fst snd]. f_equal.
    cbn [length].
    change (S (S (length pre))) with (2 + length pre)%nat.
    rewrite Hev at 2.
    replace (2 + 2 * (length pre / 2))%nat
      with ((1 + length pre / 2) * 2)%nat by lia.
    rewrite Nat.div_mul by discriminate. lia.
Qed.

(** X22: when the pairs before [(k, v)] are all accepted and [(k, v)] is
    refused, [lcbex_vopt_createv] does not look at the arguments that follow:
    it returns invalid-argument with the message of that pair, [NULL] for the
    array, and the heap as it was before the call; the count it leaves is the
    rank of the refused pair, counted from 1. *)
Theorem createv_stops_at_the_refused_pair :
  forall junk pre k v post (h : heap),
    Z.of_nat (length (pre ++ k :: v :: post)) <= SIZE_MAX ->
    all_accepted pre = true -> pair_accepted k v = false ->
    lcbex_vopt_createv junk (pre ++ k :: v :: post) h
    = Some (LCB_EINVAL, None, Z.of_nat (length pre / 2 + 1),
            snd (pair_verdict k v), h).
Proof.
  intros junk pre k v post h Hsz Hpre Hkv.
  destruct (lcbex_vopt_createv_spec junk _ h Hsz)
    as (arr & slots & e & h' & Hrun).
  rewrite (scan_pairs_accepted pre (k :: v :: post) Hpre) in Hrun.
  cbn [scan_pairs] in Hrun. rewrite Hkv in Hrun. cbn [fst snd] in Hrun.
  rewrite Hrun. replace (length pre / 2 + 1)%nat with (S (length pre / 2))
    by lia.
  reflexivity.
Qed.

(** The arguments of the unit test: [stale=false] is accepted, [bob] is
    no option, and [limit=10] is not looked at. *)
Lemma createv_stops_at_the_refused_pair_witness :
  lcbex_vopt_createv vopt_zero
    (["stale"; "false"] ++ "bob" :: "loblaw" :: ["limit"; "10"]) ∅
  = Some (LCB_EINVAL, None, Z.of_nat (length ["stale"; "false"] / 2 + 1),
          snd (pair_verdict "bob" "loblaw"), ∅).
Proof.
  apply (createv_stops_at_the_refused_pair vopt_zero ["stale"; "false"] "bob"
           "loblaw" ["limit"; "10"] ∅).
  - simpl. unfold SIZE_MAX. lia.
  - reflexivity.
  - reflexivity.
Defined.

(** ** From the arguments of [lcbex_vopt_createv] to the URI *)

(** X23: the list that [lcbex_vopt_createv] has made, handed to
    [lcbex_vqstr_make_uri] through an array of pointers to its records in
    their order, as the header tells to do: the URI is the path of the design
    and the view, ['?'], and the pairs as they are stored, with ['&'] between
    them. *)
Theorem createv_then_make_uri :
  forall junk ap texts d nd v nv (h : heap) arr slots noptions errstr h',
    Forall (fun s => no_nul s = true) ap ->
    Z.of_nat (length ap) <= SIZE_MAX ->
    pair_texts ap = Some texts ->
    no_nul d = true -> len_arg d nd -> no_nul v = true -> len_arg v nv ->
    Z.of_nat (String.length (view_path d v)) < 2 ^ 31 ->
    Z.of_nat (String.length (view_path d v ++ "?" ++ join_amp texts)) + 3
    <= SIZE_MAX ->
    lcbex_vopt_createv junk ap h
    = Some (LCB_SUCCESS, Some (arr, slots), noptions, errstr, h') ->
    lcbex_vqstr_make_uri (PStr d) nd (PStr v) nv slots h'
    = Some (Block (fresh h') (view_path d v ++ "?" ++ join_amp texts),
            {[fresh h']} ∪ h').
Proof.
  intros junk ap texts d nd v nv h arr slots noptions errstr h' Hnul Hsz
    Htexts Hd Hnd Hv Hnv Hpath Hsize Hrun.
  destruct (lcbex_vopt_createv_texts _ _ _ _ _ _ _ _ Hnul Hsz Hrun)
    as (texts' & Htexts' & Hread & Hw).
  rewrite Htexts in Htexts'. injection Htexts' as <-.
  eapply lcbex_vqstr_make_uri_spec; try eassumption.
  destruct (lcbex_vqstr_write_length slots Hread) as (q & Hq & Hlen).
  rewrite Hw in Hq. injection Hq as Hq _. subst q. rewrite <- Hlen.
  rewrite length_append in Hsize.
  change ("?" ++ join_amp texts) with (String "?" (join_amp texts)) in Hsize.
  lia.
Qed.

(** The example [easy_creation] of the repository. *)
Lemma createv_then_make_uri_witness :
  let h0 : heap := {[fresh (∅ : heap)]} ∪ ∅ in
  let h1 : heap := {[fresh h0]} ∪ h0 in
  let h2 : heap := {[fresh h1]} ∪ h1 in
  let h3 : heap := {[fresh h2]} ∪ h2 in
  let h4 : heap := {[fresh h3]} ∪ h3 in
  let h5 : heap := {[fresh h4]} ∪ h4 in
  let slots :=
    [ {| optname := Block (fresh h0) "stale"; optval := Static "false";
         noptname := 5; noptval := 5; flags := 8 |};
      {| optname := Block (fresh h1) "limit"; optval := Block (fresh h2) "100";
         noptname := 5; noptval := 3; flags := 0 |};
      {| optname := Block (fresh h3) "startkey_docid";
         optval := Block (fresh h4) "aass_brewery";
         noptname := 14; noptval := 12; flags := 0 |} ] in
  lcbex_vqstr_make_uri (PStr "a_design") SIZE_MAX (PStr "a_view") SIZE_MAX
    slots h5
  = Some (Block (fresh h5)
            (view_path "a_design" "a_view" ++ "?"
             ++ join_amp ["stale=false"; "limit=100";
                          "startkey_docid=aass_brewery"]),
          {[fresh h5]} ∪ h5).
Proof.
  intros h0 h1 h2 h3 h4 h5 slots.
  apply (createv_then_make_uri vopt_zero
           ["stale"; "false"; "limit"; "100"; "startkey_docid";
            "aass_brewery"]
           ["stale=false"; "limit=100"; "startkey_docid=aass_brewery"]
           "a_design" SIZE_MAX "a_view" SIZE_MAX ∅ (fresh (∅ : heap)) slots 3
           None h5).
  - repeat constructor.
  - simpl. unfold SIZE_MAX. lia.
  - reflexivity.
  - reflexivity.
  - left. reflexivity.
  - reflexivity.
  - left. reflexivity.
  - simpl. lia.
  - simpl. unfold SIZE_MAX. lia.
  - reflexivity.
Defined.

(** ** The option [stale], exactly *)

(** X24: [stale], given by name or by number: a string that is not empty is
    accepted exactly when, the case of letters apart, it is [true], [false],
    [update_after], [ok] or the beginning of one of them; [true] and its
    beginnings are stored as [ok], the other words in full and in lower case;
    any other string is refused with invalid-argument and the message of the
    handler; the number zero is stored as [false] and any other number as
    [ok]. *)
Theorem stale_option_values :
  forall o option noption value nvalue fl e h,
    name_arg option noption fl stale_entry ->
    value_arg value nvalue fl -> value <> PStr "" ->
    has_flag fl LCBEX_VOPT_F_PASSTHROUGH = false ->
    match stale_stored value with
    | Some w =>
        assigned_as (lcbex_vopt_assign o option noption value nvalue fl e h)
          "stale" w
    | None =>
        exists o' h',
          lcbex_vopt_assign o option noption value nvalue fl e h
          = Some (LCB_EINVAL, o',
                  Some "stale must be a boolean or the string 'update_after'",
                  h')
    end.
Proof.
  intros o option noption value nvalue fl e h Hname Hval Hne Hpass.
  assert (Hin : In stale_entry recognized_view_params) by (simpl; tauto).
  destruct (assign_recognized_value stale_entry o option noption value nvalue
              fl e h Hin Hname Hpass Hval Hne)
    as (o1 & h1 & nv & Hnamed & Hnv & ->).
  change (handler_of (ptype stale_entry)) with stale_param_handler_t.
  change (param stale_entry) with "stale" in *.
  cbn [call_handler].
  destruct value as [|v|i]; [destruct Hval| |].
  - destruct Hval as (Hv & _ & Hf). subst nv.
    rewrite stale_param_handler_string by (assumption || congruence).
    unfold stale_stored, stale_value.
    destruct (String.prefix (lower_string v) "true").
    { apply (assigned_as_intro stale_entry o1); [exact Hnamed|reflexivity..]. }
    destruct (String.prefix (lower_string v) "false").
    { apply (assigned_as_intro stale_entry o1); [exact Hnamed|reflexivity..]. }
    destruct (String.prefix (lower_string v) "update_after").
    { apply (assigned_as_intro stale_entry o1); [exact Hnamed|reflexivity..]. }
    destruct (String.prefix (lower_string v) "ok").
    { apply (assigned_as_intro stale_entry o1); [exact Hnamed|reflexivity..]. }
    eexists _, _. reflexivity.
  - destruct Hval as (_ & Hf).
    rewrite stale_param_handler_int by assumption.
    unfold stale_stored.
    destruct (int_wrap i =? 0);
      (apply (assigned_as_intro stale_entry o1);
       [exact Hnamed|reflexivity..]).
Qed.

(** [stale] given [up], the beginning of [update_after]. *)
Lemma stale_option_values_witness :
  assigned_as
    (lcbex_vopt_assign vopt_zero (PStr "stale") SIZE_MAX (PStr "up") SIZE_MAX
       0 None ∅)
    "stale" "update_after".
Proof.
  apply (stale_option_values vopt_zero (PStr "stale") SIZE_MAX (PStr "up")
           SIZE_MAX 0 None ∅).
  - left. split; [reflexivity|]. split; [left|]; reflexivity.
  - split; [reflexivity|]. split; [left|]; reflexivity.
  - discriminate.
  - reflexivity.
Defined.
